(** * Rampage-films dubbing pipeline: a shallow embedding and its properties

    The development follows the Python sources module by module.

    Embedding:
    - [PyStr], [PyNum], [PyFloat], [PyOs], [PyDict]: the fragments of
      Python's [str], numbers, [os.path] and [dict] that the modelled
      functions call;
    - [EdgeTtsDub]          : [src/edge_tts_dub.py];
    - [SegmentAssembler]    : [src/server/tts/segment_assembler.py];
    - [Translate]           : [src/server/tts/translate.py];
    - [VoiceSelector]       : [src/server/tts/voice_selector.py];
    - [SmartDiarize]        : [src/smart_diarize.py].

    Properties: one module [...Props] per source file, after the embedding.

    Conventions.  A Python [str] is a [string] whose characters are read as
    code points below 256.  A Python [float] is a binary64 float, Rocq's
    primitive [float], with the operations of [PyFloat] for what Python
    adds to IEEE arithmetic ([int], [round], [min], [max], comparison with
    an [int]); only in [SmartDiarize], whose property is about the
    reference formulas, the pitch is an exact rational [Q].  A raised
    exception is [None] or a dedicated constructor in the result.
    External tools (ffmpeg, ffprobe, the TTS and translation services, the
    file system) are oracles: fields of an [Env] record whose answers are
    unconstrained.  Waiting ([sleep]) and messages printed to the standard
    error are not modelled. *)

From Stdlib Require Import ZArith QArith Qabs Lqa Lia Ascii String List Bool.
From Stdlib Require Import DecimalString DecimalPos Floats Sorted Permutation.
From stdpp Require Import base option list gmap strings fin_maps.

Set Warnings "-inexact-float".

Local Open Scope string_scope.
Local Open Scope list_scope.

(** ** Python strings *)

Module PyStr.

(** [str.isspace] on one character, which is also the class [\s] of
    [re] on [str] patterns (code points below 256). *)
Definition isspace (c : ascii) : bool :=
  let n := N_of_ascii c in
  (((9 <=? n) && (n <=? 13)) || ((28 <=? n) && (n <=? 32))
   || (n =? 133) || (n =? 160))%N.

(** The class [\d] of [re]: decimal digits. *)
Definition isdigit (c : ascii) : bool :=
  let n := N_of_ascii c in ((48 <=? n) && (n <=? 57))%N.

(** [str.lower] on one character. *)
Definition lower_char (c : ascii) : ascii :=
  let n := N_of_ascii c in
  if (((65 <=? n) && (n <=? 90))
      || ((192 <=? n) && (n <=? 222) && negb (n =? 215)))%N
  then ascii_of_N (n + 32) else c.

Fixpoint lower (s : string) : string :=
  match s with
  | EmptyString => EmptyString
  | String c s' => String (lower_char c) (lower s')
  end.

(** [s.split(sep)[0]] for a one-character separator. *)
Fixpoint split_head (sep : ascii) (s : string) : string :=
  match s with
  | EmptyString => EmptyString
  | String c s' =>
      if Ascii.eqb c sep then EmptyString else String c (split_head sep s')
  end.

(** [s.split(sep)] for a one-character separator. *)
Fixpoint split (sep : ascii) (s : string) : list string :=
  match s with
  | EmptyString => [EmptyString]
  | String c s' =>
      if Ascii.eqb c sep then EmptyString :: split sep s'
      else match split sep s' with
           | [] => [String c EmptyString]
           | w :: ws => String c w :: ws
           end
  end.

Fixpoint lstrip (s : string) : string :=
  match s with
  | EmptyString => EmptyString
  | String c s' => if isspace c then lstrip s' else s
  end.

(** [rstrip] keeps a character when it is not a space or when something
    is left after it. *)
Fixpoint rstrip (s : string) : string :=
  match s with
  | EmptyString => EmptyString
  | String c s' =>
      match rstrip s' with
      | EmptyString => if isspace c then EmptyString else String c EmptyString
      | r => String c r
      end
  end.

Definition strip (s : string) : string := rstrip (lstrip s).

(** [s.replace(c, "")] for a one-character [c] *)
Fixpoint remove_char (c : ascii) (s : string) : string :=
  match s with
  | EmptyString => EmptyString
  | String c' s' =>
      if Ascii.eqb c' c then remove_char c s' else String c' (remove_char c s')
  end.

(** [s.replace(old, new)] for a non-empty [old]; [skip] counts the
    characters of a replaced occurrence that are still to be dropped. *)
Fixpoint replace_from (old new : string) (skip : nat) (s : string) : string :=
  match s with
  | EmptyString => EmptyString
  | String c s' =>
      match skip with
      | S k => replace_from old new k s'
      | O =>
          if String.prefix old s
          then new +:+ replace_from old new (String.length old - 1) s'
          else String c (replace_from old new O s')
      end
  end.

Definition replace (old new s : string) : string := replace_from old new 0 s.

(** [c * n] *)
Fixpoint repeat_char (c : ascii) (n : nat) : string :=
  match n with O => EmptyString | S k => String c (repeat_char c k) end.

(** [sub in s] *)
Fixpoint contains (sub s : string) : bool :=
  String.prefix sub s ||
  match s with
  | EmptyString => false
  | String _ s' => contains sub s'
  end.

End PyStr.

(** ** Python numbers *)

Module PyNum.

(** Comparisons of floats, as booleans. *)
Definition leb (a b : Q) : bool := Qle_bool a b.
Definition ltb (a b : Q) : bool := negb (Qle_bool b a).
Definition gtb (a b : Q) : bool := ltb b a.
Definition geb (a b : Q) : bool := leb b a.

(** [min(a, b)] and [max(a, b)]: the first argument wins a tie. *)
Definition min (a b : Q) : Q := if ltb b a then b else a.
Definition max (a b : Q) : Q := if gtb b a then b else a.

Definition zmin (a b : Z) : Z := if (b <? a)%Z then b else a.
Definition zmax (a b : Z) : Z := if (b >? a)%Z then b else a.

(** [int(x)] on a float: truncation toward zero. *)
Definition trunc (x : Q) : Z := Z.quot (Qnum x) (Zpos (Qden x)).

(** [round(x)]: to the nearest integer, a tie goes to the even one. *)
Definition round_half_even (x : Q) : Z :=
  let n := Qnum x in
  let d := Zpos (Qden x) in
  let f := (n / d)%Z in
  let r := (2 * (n mod d))%Z in
  if (r <? d)%Z then f
  else if (d <? r)%Z then (f + 1)%Z
  else if Z.even f then f else (f + 1)%Z.

(** [round(x, k)] *)
Definition round_nd (x : Q) (k : nat) : Q :=
  let p := (10 ^ Z.of_nat k)%Z in
  Qmake (round_half_even (x * inject_Z p)) (Z.to_pos p).

(** [str(n)] for an integer *)
Definition str_of_int (n : Z) : string := NilEmpty.string_of_int (Z.to_int n).

(** [f"{i:04d}"] for a non-negative [i] *)
Definition fmt_04d (i : nat) : string :=
  let digits := str_of_int (Z.of_nat i) in
  PyStr.repeat_char "0" (4 - String.length digits) +:+ digits.

Definition digit_val (c : ascii) : Z := Z.of_N (N_of_ascii c) - 48.

(** The digits of an integer literal, most significant first; an
    underscore is allowed between two digits. *)
Fixpoint digits_val (acc : Z) (prev_digit : bool) (s : string) : option Z :=
  match s with
  | EmptyString => if prev_digit then Some acc else None
  | String c s' =>
      if PyStr.isdigit c then digits_val (10 * acc + digit_val c) true s'
      else if Ascii.eqb c "_" && prev_digit then
        match s' with
        | String c' _ => if PyStr.isdigit c' then digits_val acc false s' else None
        | EmptyString => None
        end
      else None
  end.

(** [int(s)] on a string, base 10; [None] is [ValueError]. *)
Definition int_of_str (s : string) : option Z :=
  match PyStr.strip s with
  | String "+" r => digits_val 0 false r
  | String "-" r => Z.opp <$> digits_val 0 false r
  | r => digits_val 0 false r
  end.

End PyNum.

(** ** Paths *)

Module PyOs.

(** [os.path.join(a, b)] for a relative [b] *)
Definition path_join (a b : string) : string :=
  match a with
  | EmptyString => b
  | _ => if String.eqb (String.substring (String.length a - 1) 1 a) "/"
         then a +:+ b else a +:+ "/" +:+ b
  end.

End PyOs.

(** ** Python dictionaries written as literals

    A dict literal is kept as the list of its items, in source order;
    none of the literals below repeats a key. *)

Module PyDict.

Fixpoint lookup {V} (k : string) (d : list (string * V)) : option V :=
  match d with
  | [] => None
  | (k', v) :: d' => if String.eqb k k' then Some v else lookup k d'
  end.

(** [k in d] *)
Definition mem {V} (k : string) (d : list (string * V)) : bool :=
  match lookup k d with Some _ => true | None => false end.

(** [d.get(k, dflt)] *)
Definition get {V} (k : string) (d : list (string * V)) (dflt : V) : V :=
  match lookup k d with Some v => v | None => dflt end.

End PyDict.

(** ** Python floats: IEEE 754 binary64 *)

Module PyFloat.

(** [min(a, b)] and [max(a, b)]: the second argument is taken when it
    compares strictly below (above) the first, which a NaN never does. *)
Definition min (a b : float) : float := if (b <? a)%float then b else a.
Definition max (a b : float) : float := if (a <? b)%float then b else a.

(** The truth value of a float: [x != 0.0]. *)
Definition truthy (x : float) : bool := negb (x =? 0)%float.

(** The integer part of [m * 2^e]. *)
Definition magnitude (m : positive) (e : Z) : Z :=
  if (0 <=? e)%Z then (Z.pos m * 2 ^ e)%Z else (Z.pos m / 2 ^ (- e))%Z.

(** [int(x)]: truncation toward zero; [OverflowError] and [ValueError]
    with their messages for an infinity and for a NaN. *)
Definition trunc (x : float) : Z + string :=
  match Prim2SF x with
  | S754_zero _ => inl 0%Z
  | S754_finite s m e => inl (if s then (- magnitude m e)%Z else magnitude m e)
  | S754_infinity _ => inr "cannot convert float infinity to integer"
  | S754_nan => inr "cannot convert float NaN to integer"
  end.

(** [float(n)] for an int [n], as the arithmetic of an int with a float
    converts it: the nearest float (an int beyond the range of floats,
    for which Python raises, does not occur as the length of a list). *)
Definition of_Z (n : Z) : float := SF2Prim (binary_normalize prec emax n 0 false).

(** [i < x] and [x < i] for an int [i] and a float [x]: Python compares
    the two numbers exactly. *)
Definition Z_ltb (i : Z) (x : float) : bool :=
  match Prim2SF x with
  | S754_nan => false
  | S754_infinity s => negb s
  | S754_zero _ => (i <? 0)%Z
  | S754_finite s m e =>
      let v := if s then Z.neg m else Z.pos m in
      if (0 <=? e)%Z then (i <? v * 2 ^ e)%Z else (i * 2 ^ (- e) <? v)%Z
  end.

Definition ltb_Z (x : float) (i : Z) : bool :=
  match Prim2SF x with
  | S754_nan => false
  | S754_infinity s => s
  | S754_zero _ => (0 <? i)%Z
  | S754_finite s m e =>
      let v := if s then Z.neg m else Z.pos m in
      if (0 <=? e)%Z then (v * 2 ^ e <? i)%Z else (v <? i * 2 ^ (- e))%Z
  end.

(** The integer nearest to [m * 2^e * p], a tie going to the even one. *)
Definition scaled_half_even (m : positive) (e : Z) (p : Z) : Z :=
  if (0 <=? e)%Z then (Z.pos m * p * 2 ^ e)%Z
  else
    let n := (Z.pos m * p)%Z in
    let d := (2 ^ (- e))%Z in
    let f := (n / d)%Z in
    let r := (2 * (n mod d))%Z in
    if (r <? d)%Z then f
    else if (d <? r)%Z then (f + 1)%Z
    else if Z.even f then f else (f + 1)%Z.

(** [round(x, k)] for a float [x] and [k >= 0]: the float nearest to the
    decimal with [k] places that is nearest to [x] (a tie between two
    decimals goes to the even one); the sign is kept, an infinity or a
    NaN is returned as it is. *)
Definition round_nd (x : float) (k : nat) : float :=
  match Prim2SF x with
  | S754_finite s m e =>
      let p := (10 ^ Z.of_nat k)%Z in
      match scaled_half_even m e p with
      | Z.pos n =>
          SF2Prim (SFdiv prec emax (S754_finite s n 0)
                     (S754_finite false (Z.to_pos p) 0))
      | _ => if s then (-0)%float else 0%float
      end
  | _ => x
  end.

End PyFloat.

(** ** [src/edge_tts_dub.py] *)

Module EdgeTtsDub.

Definition mf (m f : string) : list (string * string) :=
  [("male", m); ("female", f)].

Definition VOICE_MAP : list (string * list (string * string)) :=
  [ ("es", mf "es-MX-JorgeNeural" "es-MX-DaliaNeural");
    ("es-MX", mf "es-MX-JorgeNeural" "es-MX-DaliaNeural");
    ("es-ES", mf "es-ES-AlvaroNeural" "es-ES-ElviraNeural");
    ("es-AR", mf "es-AR-TomasNeural" "es-AR-ElenaNeural");
    ("fr", mf "fr-FR-HenriNeural" "fr-FR-DeniseNeural");
    ("fr-CA", mf "fr-CA-AntoineNeural" "fr-CA-SylvieNeural");
    ("de", mf "de-DE-ConradNeural" "de-DE-KatjaNeural");
    ("it", mf "it-IT-DiegoNeural" "it-IT-ElsaNeural");
    ("pt", mf "pt-BR-AntonioNeural" "pt-BR-FranciscaNeural");
    ("pt-BR", mf "pt-BR-AntonioNeural" "pt-BR-FranciscaNeural");
    ("pt-PT", mf "pt-PT-DuarteNeural" "pt-PT-RaquelNeural");
    ("ru", mf "ru-RU-DmitryNeural" "ru-RU-SvetlanaNeural");
    ("zh", mf "zh-CN-YunxiNeural" "zh-CN-XiaoxiaoNeural");
    ("zh-CN", mf "zh-CN-YunxiNeural" "zh-CN-XiaoxiaoNeural");
    ("zh-TW", mf "zh-TW-YunJheNeural" "zh-TW-HsiaoChenNeural");
    ("ja", mf "ja-JP-KeitaNeural" "ja-JP-NanamiNeural");
    ("ko", mf "ko-KR-InJoonNeural" "ko-KR-SunHiNeural");
    ("ar", mf "ar-SA-HamedNeural" "ar-SA-ZariyahNeural");
    ("hi", mf "hi-IN-MadhurNeural" "hi-IN-SwaraNeural");
    ("nl", mf "nl-NL-MaartenNeural" "nl-NL-FennaNeural");
    ("pl", mf "pl-PL-MarekNeural" "pl-PL-ZofiaNeural");
    ("tr", mf "tr-TR-AhmetNeural" "tr-TR-EmelNeural");
    ("sv", mf "sv-SE-MattiasNeural" "sv-SE-SofieNeural");
    ("no", mf "nb-NO-FinnNeural" "nb-NO-PernilleNeural");
    ("da", mf "da-DK-JeppeNeural" "da-DK-ChristelNeural");
    ("fi", mf "fi-FI-HarriNeural" "fi-FI-SelmaNeural");
    ("el", mf "el-GR-NestorasNeural" "el-GR-AthinaNeural");
    ("cs", mf "cs-CZ-AntoninNeural" "cs-CZ-VlastaNeural");
    ("ro", mf "ro-RO-EmilNeural" "ro-RO-AlinaNeural");
    ("hu", mf "hu-HU-TamasNeural" "hu-HU-NoemiNeural");
    ("th", mf "th-TH-NiwatNeural" "th-TH-PremwadeeNeural");
    ("vi", mf "vi-VN-NamMinhNeural" "vi-VN-HoaiMyNeural");
    ("id", mf "id-ID-ArdiNeural" "id-ID-GadisNeural");
    ("ms", mf "ms-MY-OsmanNeural" "ms-MY-YasminNeural");
    ("fil", mf "fil-PH-AngeloNeural" "fil-PH-BlessicaNeural");
    ("uk", mf "uk-UA-OstapNeural" "uk-UA-PolinaNeural");
    ("he", mf "he-IL-AvriNeural" "he-IL-HilaNeural");
    ("bn", mf "bn-IN-BashkarNeural" "bn-IN-TanishaaNeural");
    ("ta", mf "ta-IN-ValluvarNeural" "ta-IN-PallaviNeural");
    ("te", mf "te-IN-MohanNeural" "te-IN-ShrutiNeural");
    ("en", mf "en-US-GuyNeural" "en-US-JennyNeural");
    ("en-US", mf "en-US-GuyNeural" "en-US-JennyNeural");
    ("en-GB", mf "en-GB-RyanNeural" "en-GB-SoniaNeural");
    ("en-AU", mf "en-AU-WilliamNeural" "en-AU-NatashaNeural");
    ("en-IN", mf "en-IN-PrabhatNeural" "en-IN-NeerjaNeural") ].

(** [VOICE_MAP[k].get(gender, VOICE_MAP[k]["female"])]: the default is
    evaluated before [get] is called, so a missing ["female"] raises. *)
Definition voice_or_female (voices : list (string * string))
    (gender : string) : option string :=
  female ← PyDict.lookup "female" voices;
  Some (PyDict.get gender voices female).

(** [get_voice]; [None] is the [KeyError] of a failed subscript. *)
Definition get_voice (language_code gender : string) : option string :=
  let lang := PyStr.lower language_code in
  match PyDict.lookup lang VOICE_MAP with
  | Some voices => voice_or_female voices gender
  | None =>
      let base_lang := PyStr.split_head "-" lang in
      match PyDict.lookup base_lang VOICE_MAP with
      | Some voices => voice_or_female voices gender
      | None =>
          en ← PyDict.lookup "en" VOICE_MAP;
          PyDict.lookup gender en
      end
  end.

(** *** Emotion prosody *)

Record emotion_entry := {
  e_rate : string; e_pitch : string; e_keywords : list string }.

Definition EMOTION_KEYWORDS : list (string * emotion_entry) :=
  [ ("angry", {| e_rate := "+15%"; e_pitch := "+10Hz";
       e_keywords := ["angry"; "furious"; "rage"; "hate"; "damn"; "hell"] |});
    ("sad", {| e_rate := "-10%"; e_pitch := "-5Hz";
       e_keywords := ["sad"; "sorry"; "grief"; "cry"; "tears"; "miss"; "lost"] |});
    ("excited", {| e_rate := "+20%"; e_pitch := "+15Hz";
       e_keywords := ["wow"; "amazing"; "incredible"; "excited"; "great"; "yes!"] |});
    ("fearful", {| e_rate := "+5%"; e_pitch := "+5Hz";
       e_keywords := ["scared"; "afraid"; "fear"; "help"; "run"; "danger"] |});
    ("whisper", {| e_rate := "-15%"; e_pitch := "-10Hz";
       e_keywords := ["shh"; "quiet"; "whisper"; "secret"; "psst"] |});
    ("question", {| e_rate := "+0%"; e_pitch := "+8Hz";
       e_keywords := ["?"; "what"; "why"; "how"; "who"; "where"; "when"] |}) ].

Record emotion_config := { emotion : string; rate : string; pitch : string }.

Fixpoint detect_in (text_lower : string)
    (table : list (string * emotion_entry)) : emotion_config :=
  match table with
  | [] => {| emotion := "neutral"; rate := "+0%"; pitch := "+0Hz" |}
  | (name, config) :: table' =>
      if existsb (fun keyword => PyStr.contains keyword text_lower)
                 (e_keywords config)
      then {| emotion := name; rate := e_rate config; pitch := e_pitch config |}
      else detect_in text_lower table'
  end.

Definition detect_emotion (text : string) : emotion_config :=
  detect_in (PyStr.lower text) EMOTION_KEYWORDS.

(** *** Text clean-up before synthesis *)

(** [re.sub(r'\s+', ' ', s)]; [run] tells whether a run of spaces is
    open. *)
Fixpoint collapse_spaces (run : bool) (s : string) : string :=
  match s with
  | EmptyString => if run then " " else EmptyString
  | String c s' =>
      if PyStr.isspace c then collapse_spaces true s'
      else (if run then " " else EmptyString)
           +:+ String c (collapse_spaces false s')
  end.

(** [re.sub(c{k,}, repl, s)]: a maximal run of at least [k] copies of [c]
    becomes [repl]; [run] is the length of the open run. *)
Definition flush_run (c : ascii) (k : nat) (repl : string) (run : nat) : string :=
  if (k <=? run)%nat then repl else PyStr.repeat_char c run.

Fixpoint collapse_run (c : ascii) (k : nat) (repl : string) (run : nat)
    (s : string) : string :=
  match s with
  | EmptyString => flush_run c k repl run
  | String x s' =>
      if Ascii.eqb x c then collapse_run c k repl (S run) s'
      else flush_run c k repl run +:+ String x (collapse_run c k repl O s')
  end.

Definition enhance_text_for_natural_speech (text : string) : string :=
  match PyStr.strip text with
  | EmptyString => text
  | stripped =>
      let enhanced := collapse_spaces false stripped in
      let enhanced := collapse_run "!" 3 "!!" 0 enhanced in
      let enhanced := collapse_run "?" 3 "??" 0 enhanced in
      collapse_run "." 4 "..." 0 enhanced
  end.

(** *** Rates *)

Definition parse_rate (rate_str : string) : Z :=
  match PyNum.int_of_str (PyStr.strip (PyStr.remove_char "%" rate_str)) with
  | Some n => n
  | None => 0
  end.

Definition combine_rates (emotion_rate : string) (alignment_rate : Z) : string :=
  let emotion_int := parse_rate emotion_rate in
  let combined := (emotion_int + alignment_rate)%Z in
  let combined := PyNum.zmax (-50) (PyNum.zmin 100 combined) in
  if (combined >=? 0)%Z then "+" +:+ PyNum.str_of_int combined +:+ "%"
  else PyNum.str_of_int combined +:+ "%".

(** *** The synthesis services and the module's globals *)

Record edge_call := {
  c_text : string; c_voice : string; c_rate : string; c_pitch : string;
  c_output : string }.

(** What one [edge_tts.Communicate(...).save(output_file)] leaves behind:
    an exception, or the state of the output file together with the
    duration that [get_audio_duration] then reads from it (0 when ffprobe
    fails). *)
Inductive save_outcome :=
| SaveRaises (err : string)
| Saved (file_exists : bool) (file_size : Z) (duration : float).

Record gtts_call := { g_text : string; g_lang : string; g_output : string }.

Inductive gtts_outcome :=
| GttsRaises (err : string)
| GttsSaved (file_exists : bool) (file_size : Z).

(** The services answer by call number: the n-th call ever made to a
    provider gets [edge_save n] or [gtts_save n]. *)
Record Env := {
  edge_save : nat -> edge_call -> save_outcome;
  gtts_save : nat -> gtts_call -> gtts_outcome;
  GTTS_AVAILABLE : bool }.

(** The two module globals and the calls made so far to each provider. *)
Record world := {
  EDGE_TTS_WORKING : option bool;
  EDGE_TTS_CONSECUTIVE_FAILURES : Z;
  edge_log : list edge_call;
  gtts_log : list gtts_call }.

Definition initial_world : world :=
  {| EDGE_TTS_WORKING := None; EDGE_TTS_CONSECUTIVE_FAILURES := 0;
     edge_log := []; gtts_log := [] |}.

Definition call_edge (env : Env) (c : edge_call) (w : world)
    : save_outcome * world :=
  (edge_save env (length (edge_log w)) c,
   {| EDGE_TTS_WORKING := EDGE_TTS_WORKING w;
      EDGE_TTS_CONSECUTIVE_FAILURES := EDGE_TTS_CONSECUTIVE_FAILURES w;
      edge_log := edge_log w ++ [c]; gtts_log := gtts_log w |}).

Definition call_gtts (env : Env) (c : gtts_call) (w : world)
    : gtts_outcome * world :=
  (gtts_save env (length (gtts_log w)) c,
   {| EDGE_TTS_WORKING := EDGE_TTS_WORKING w;
      EDGE_TTS_CONSECUTIVE_FAILURES := EDGE_TTS_CONSECUTIVE_FAILURES w;
      edge_log := edge_log w; gtts_log := gtts_log w ++ [c] |}).

Definition set_edge_status (working : bool) (failures : Z) (w : world) : world :=
  {| EDGE_TTS_WORKING := Some working;
     EDGE_TTS_CONSECUTIVE_FAILURES := failures;
     edge_log := edge_log w; gtts_log := gtts_log w |}.

(** *** Per-segment synthesis *)

(** A segment of the transcription.  Its times are binary64 floats; an
    integer in the JSON file is taken as the float of the same value. *)
Record segment := {
  seg_id : Z; seg_text : string; seg_start : float; seg_end : float;
  seg_duration : option float }.

Inductive quality := good | fair | poor.

Record segment_ok := {
  r_segment_id : Z; r_start : float; r_end : float;
  r_target_duration : option float;
  r_actual_duration : float; r_sync_error : float; r_sync_quality : quality;
  r_emotion : string; r_final_rate : string; r_file_size : Z;
  r_attempts : nat }.

Inductive segment_result :=
| SegmentOk (r : segment_ok)
| SegmentFailed (error : option string) (attempts : nat).

Definition result_success (r : segment_result) : bool :=
  match r with SegmentOk _ => true | SegmentFailed _ _ => false end.

(** ["good" if abs(sync_error) <= 0.5 else ("fair" if abs(sync_error) <= 1.0
    else "poor")] *)
Definition classify_sync (sync_error : float) : quality :=
  if (abs sync_error <=? 0.5)%float then good
  else if (abs sync_error <=? 1.0)%float then fair else poor.

(** [target_duration and target_duration > 0 and actual_duration > 0] *)
Definition alignable (target_duration : option float) (actual_duration : float)
    : option float :=
  match target_duration with
  | Some t =>
      if PyFloat.truthy t && (0 <? t)%float && (0 <? actual_duration)%float
      then Some t else None
  | None => None
  end.

(** [int(((actual_duration / target_duration) - 1) * 100)], in binary64
    arithmetic; the message of the exception when [int] raises. *)
Definition rate_adjustment (actual_duration target_duration : float)
    : Z + string :=
  PyFloat.trunc ((actual_duration / target_duration - 1) * 100)%float.

Section Synthesis.

Context (env : Env).

(** The body of the [try] in one pass of the retry loop: the result,
    or the message of the exception that ends the pass. *)
Definition attempt_segment (seg : segment) (text voice output_file : string)
    (target_duration : option float) (attempt : nat) (w : world)
    : (segment_ok + string) * world :=
  let enhanced_text := enhance_text_for_natural_speech text in
  let emotion_config := detect_emotion enhanced_text in
  let base_rate := rate emotion_config in
  let pitch := pitch emotion_config in
  let finish actual_duration final_rate sync_error file_size :=
    {| r_segment_id := seg_id seg; r_start := seg_start seg;
       r_end := seg_end seg; r_target_duration := target_duration;
       r_actual_duration := PyFloat.round_nd actual_duration 3;
       r_sync_error := PyFloat.round_nd sync_error 3;
       r_sync_quality := classify_sync sync_error;
       r_emotion := emotion emotion_config; r_final_rate := final_rate;
       r_file_size := file_size; r_attempts := S attempt |} in
  match call_edge env {| c_text := enhanced_text; c_voice := voice;
                         c_rate := base_rate; c_pitch := pitch;
                         c_output := output_file |} w with
  | (SaveRaises e, w1) => (inr e, w1)
  | (Saved file_exists file_size actual_duration, w1) =>
      if negb file_exists then (inr "Output file was not created", w1)
      else if (file_size <? 100)%Z then
        (inr ("Output file too small (" +:+ PyNum.str_of_int file_size
              +:+ " bytes)"), w1)
      else
        match alignable target_duration actual_duration with
        | Some target =>
            let sync_error := (actual_duration - target)%float in
            if (0.3 <? abs sync_error)%float then
              match rate_adjustment actual_duration target with
              | inr e => (inr e, w1)
              | inl adjustment =>
                  let final_rate := combine_rates base_rate adjustment in
                  match call_edge env {| c_text := enhanced_text;
                                         c_voice := voice;
                                         c_rate := final_rate;
                                         c_pitch := pitch;
                                         c_output := output_file |} w1 with
                  | (SaveRaises e, w2) => (inr e, w2)
                  | (Saved file_exists2 file_size2 actual_duration2, w2) =>
                      (inl (finish actual_duration2 final_rate
                              (actual_duration2 - target)%float
                              (if file_exists2 then file_size2 else 0%Z)), w2)
                  end
              end
            else (inl (finish actual_duration base_rate sync_error
                         file_size), w1)
        | None => (inl (finish actual_duration base_rate 0%float file_size), w1)
        end
  end.

(** [for attempt in range(max_retries)], entered at pass [attempt] with
    [remaining] passes left. *)
Fixpoint retry_segment (seg : segment) (text voice output_file : string)
    (target_duration : option float) (max_retries remaining attempt : nat)
    (last_error : option string) (w : world) : segment_result * world :=
  match remaining with
  | O => (SegmentFailed last_error max_retries, w)
  | S remaining' =>
      match attempt_segment seg text voice output_file target_duration
              attempt w with
      | (inl r, w') => (SegmentOk r, w')
      | (inr e, w') =>
          retry_segment seg text voice output_file target_duration
            max_retries remaining' (S attempt) (Some e) w'
      end
  end.

Definition generate_segment_audio (seg : segment) (voice output_file : string)
    (target_duration : option float) (max_retries : nat) (w : world)
    : segment_result * world :=
  match PyStr.strip (seg_text seg) with
  | EmptyString => (SegmentFailed (Some "Empty segment text") 0, w)
  | text =>
      retry_segment seg text voice output_file target_duration
        max_retries max_retries 0 None w
  end.

End Synthesis.

(** *** The synthesis stage over a segment list *)

Record sync_stats := { n_good : Z; n_fair : Z; n_poor : Z }.

Definition count_quality (q : quality) (s : sync_stats) : sync_stats :=
  match q with
  | good => {| n_good := n_good s + 1; n_fair := n_fair s; n_poor := n_poor s |}
  | fair => {| n_good := n_good s; n_fair := n_fair s + 1; n_poor := n_poor s |}
  | poor => {| n_good := n_good s; n_fair := n_fair s; n_poor := n_poor s + 1 |}
  end.

Record tally := {
  results : list segment_result; successful : Z; failed : Z;
  stats : sync_stats }.

Definition empty_tally : tally :=
  {| results := []; successful := 0; failed := 0;
     stats := {| n_good := 0; n_fair := 0; n_poor := 0 |} |}.

Definition record_result (result : segment_result) (t : tally) : tally :=
  match result with
  | SegmentOk r =>
      {| results := results t ++ [result]; successful := successful t + 1;
         failed := failed t; stats := count_quality (r_sync_quality r) (stats t) |}
  | SegmentFailed _ _ =>
      {| results := results t ++ [result]; successful := successful t;
         failed := failed t + 1; stats := stats t |}
  end.

Record segments_report := {
  success : bool; total_segments : nat;
  rep_successful : Z; rep_failed : Z; rep_sync_stats : sync_stats;
  overall_sync_quality : quality; rep_segments : list segment_result }.

Inductive segments_result :=
| SegmentsError (error : string)
| SegmentsReport (r : segments_report).

Definition stage_success (r : segments_result) : bool :=
  match r with SegmentsError _ => false | SegmentsReport r => success r end.

(** [len(segments) * c] for a float [c] *)
Definition times (n : nat) (c : float) : float :=
  (PyFloat.of_Z (Z.of_nat n) * c)%float.

Section Stage.

Context (env : Env).

(** [for i, segment in enumerate(segments)], entered at index [i]. *)
Fixpoint segments_loop (voice output_dir : string) (i : nat)
    (segments : list segment) (t : tally) (w : world) : tally * world :=
  match segments with
  | [] => (t, w)
  | segment :: segments' =>
      let output_file :=
        PyOs.path_join output_dir ("segment_" +:+ PyNum.fmt_04d i +:+ ".mp3") in
      let target_duration := seg_duration segment in
      let '(result, w') :=
        generate_segment_audio env segment voice output_file
          target_duration 3 w in
      segments_loop voice output_dir (S i) segments'
        (record_result result t) w'
  end.

(** [data] is what reading the segments file gives: its segment list,
    or the message of the exception raised while reading it. *)
Definition generate_segments_audio (data : list segment + string)
    (voice output_dir : string) (w : world) : segments_result * world :=
  match data with
  | inr e => (SegmentsError e, w)
  | inl [] => (SegmentsError "No segments found in file", w)
  | inl segments =>
      let '(t, w') := segments_loop voice output_dir 0 segments empty_tally w in
      let n := length segments in
      let overall_quality :=
        if PyFloat.ltb_Z (times n 0.7) (n_good (stats t)) then good
        else if PyFloat.Z_ltb (n_poor (stats t)) (times n 0.3)
             then fair else poor in
      (SegmentsReport
         {| success := PyFloat.Z_ltb (failed t) (times n 0.2);
            total_segments := length segments;
            rep_successful := successful t; rep_failed := failed t;
            rep_sync_stats := stats t;
            overall_sync_quality := overall_quality;
            rep_segments := results t |}, w')
  end.

End Stage.

(** *** Whole-text synthesis with the gTTS fallback *)

Definition get_gtts_lang (voice : string) : string :=
  if PyStr.contains "-" voice then PyStr.lower (PyStr.split_head "-" voice)
  else "en".

Inductive audio_result :=
| AudioOk (engine voice : string) (file_size : Z) (attempts : option nat)
| AudioFailed (error : string) (attempts : nat).


Record audio_request := {
  q_text : string; q_voice : string; q_output : string;
  q_rate : string; q_pitch : string; q_max_retries : nat }.

Section Audio.

Context (env : Env).

Definition generate_audio_gtts_sync (text language output_file : string)
    (w : world) : (Z + string) * world :=
  if negb (GTTS_AVAILABLE env) then (inr "gTTS not available", w)
  else
    match call_gtts env {| g_text := text; g_lang := language;
                           g_output := output_file |} w with
    | (GttsRaises e, w') => (inr ("gTTS error: " +:+ e), w')
    | (GttsSaved file_exists file_size, w') =>
        if file_exists && (file_size >? 100)%Z then (inl file_size, w')
        else (inr "gTTS produced empty file", w')
    end.

(** The Edge loop [for attempt in range(max_retries)]: the size of the
    file and the number of the pass that produced it, or nothing when
    every pass failed; the last error message; the world. *)
Fixpoint edge_attempts (call : edge_call) (remaining attempt : nat)
    (last_error : string) (w : world)
    : option (Z * nat) * string * world :=
  match remaining with
  | O => (None, last_error, w)
  | S remaining' =>
      match call_edge env call w with
      | (SaveRaises e, w') =>
          edge_attempts call remaining' (S attempt) e w'
      | (Saved file_exists file_size _, w') =>
          if negb file_exists then
            edge_attempts call remaining' (S attempt)
              "Output file was not created" w'
          else if (file_size <? 100)%Z then
            edge_attempts call remaining' (S attempt)
              ("Output file too small (" +:+ PyNum.str_of_int file_size
               +:+ " bytes)") w'
          else (Some (file_size, S attempt), last_error,
                set_edge_status true 0 w')
      end
  end.

Definition generate_audio (text voice output_file rate pitch : string)
    (max_retries : nat) (w : world) : audio_result * world :=
  let skip_edge_tts := (EDGE_TTS_CONSECUTIVE_FAILURES w >=? 3)%Z in
  let '(edge_result, last_error, w1) :=
    if skip_edge_tts then (None, "Edge TTS unavailable", w)
    else
      match edge_attempts {| c_text := text; c_voice := voice;
                             c_rate := rate; c_pitch := pitch;
                             c_output := output_file |}
              max_retries 0 "Edge TTS unavailable" w with
      | (Some r, e, w') => (Some r, e, w')
      | (None, e, w') =>
          (None, e,
           set_edge_status false (EDGE_TTS_CONSECUTIVE_FAILURES w' + 1) w')
      end in
  match edge_result with
  | Some (file_size, attempts) =>
      (AudioOk "edge" voice file_size (Some attempts), w1)
  | None =>
      if GTTS_AVAILABLE env then
        let lang := get_gtts_lang voice in
        match generate_audio_gtts_sync text lang output_file w1 with
        | (inl file_size, w2) =>
            (AudioOk "gtts" ("gTTS-" +:+ lang) file_size None, w2)
        | (inr _, w2) => (AudioFailed last_error max_retries, w2)
        end
      else (AudioFailed last_error max_retries, w1)
  end.

(** Successive calls, as the paragraph loop of
    [generate_multi_speaker_audio] and the command line make them. *)
Fixpoint generate_audio_seq (requests : list audio_request) (w : world)
    : world :=
  match requests with
  | [] => w
  | q :: requests' =>
      generate_audio_seq requests'
        (snd (generate_audio (q_text q) (q_voice q) (q_output q)
                (q_rate q) (q_pitch q) (q_max_retries q) w))
  end.

End Audio.

End EdgeTtsDub.

(** ** [src/server/tts/segment_assembler.py] *)

Module SegmentAssembler.

(** A segment of the plan.  Its times are binary64 floats; an integer in
    the JSON file is taken as the float of the same value. *)
Record tts_segment := { audio_path : string; start : float; end_ : float }.

(** The media tools.  Each field is the observable answer of one external
    call; [subprocess.run] itself is taken not to raise.  The input clips
    are not written during assembly, so what is read from them does not
    depend on when it is read. *)
Record Env := {
  HAS_RUBBERBAND : bool;
  (** [tempfile.mkdtemp(prefix='segment_assemble_')] *)
  temp_dir : string;
  os_path_exists : string -> bool;
  (** [get_audio_duration]: the probed duration, 0 when probing fails *)
  ffprobe_duration : string -> float;
  (** the return code of the [anullsrc] run of [generate_silence] is 0 *)
  ffmpeg_anullsrc : float -> string -> Z -> bool;
  (** [sf.read]: [len(audio) / sr], or nothing when reading raises *)
  sf_read_duration : string -> option float;
  (** [pyrb.time_stretch] returns rather than raises *)
  pyrb_time_stretch : string -> float -> bool;
  (** [sf.write] returns rather than raises *)
  sf_write : string -> bool;
  (** the return code of the WAV to MP3 run is 0 *)
  ffmpeg_encode : string -> string -> bool;
  (** the return code of the [atempo] run is 0 *)
  ffmpeg_atempo : string -> string -> float -> bool;
  (** the return code of the concat run is 0 *)
  ffmpeg_concat : list string -> string -> bool }.

(** The stretch primitives that were invoked, with their arguments. *)
Inductive op :=
| TimeStretch (input : string) (stretch_ratio : float)
| Atempo (input output : string) (speed_factor : float).

(** An entry of [segment_files]: the path, and what was written there. *)
Inductive piece :=
| SilenceFile (path : string) (duration : float)
| AdjustedFile (path : string) (source : string) (target_duration : float)
| ClipFile (path : string).

Definition piece_path (p : piece) : string :=
  match p with
  | SilenceFile path _ => path
  | AdjustedFile path _ _ => path
  | ClipFile path => path
  end.

Section Tools.

Context (env : Env).

Definition get_audio_duration (file_path : string) : float :=
  ffprobe_duration env file_path.

Definition generate_silence (duration : float) (output_path : string)
    (sample_rate : Z) : bool :=
  ffmpeg_anullsrc env duration output_path sample_rate.

Definition adjust_segment_speed_ffmpeg (input_path output_path : string)
    (target_duration : float) : bool * list op :=
  let current_duration := get_audio_duration input_path in
  if (current_duration <=? 0)%float || (target_duration <=? 0)%float
  then (false, [])
  else
    let speed_factor := (current_duration / target_duration)%float in
    let speed_factor := PyFloat.max 0.5 (PyFloat.min 2.0 speed_factor) in
    (ffmpeg_atempo env input_path output_path speed_factor,
     [Atempo input_path output_path speed_factor]).

(** [log] holds what the [try] block invoked before it raised. *)
Definition fall_back_to_ffmpeg (log : list op)
    (input_path output_path : string) (target_duration : float)
    : bool * list op :=
  let '(ok, log') :=
    adjust_segment_speed_ffmpeg input_path output_path target_duration in
  (ok, log ++ log').

Definition adjust_segment_speed_rubberband (input_path output_path : string)
    (target_duration : float) : bool * list op :=
  if negb (HAS_RUBBERBAND env) then
    adjust_segment_speed_ffmpeg input_path output_path target_duration
  else
    match sf_read_duration env input_path with
    | None => fall_back_to_ffmpeg [] input_path output_path target_duration
    | Some current_duration =>
        if (current_duration <=? 0)%float || (target_duration <=? 0)%float
        then (false, [])
        else
          let stretch_ratio := (target_duration / current_duration)%float in
          let stretch_ratio :=
            PyFloat.max 0.7 (PyFloat.min 1.5 stretch_ratio) in
          let '(stretched, log) :=
            if (0.02 <? abs (stretch_ratio - 1.0))%float
            then (pyrb_time_stretch env input_path stretch_ratio,
                  [TimeStretch input_path stretch_ratio])
            else (true, []) in
          if negb stretched then
            fall_back_to_ffmpeg log input_path output_path target_duration
          else
            let temp_wav := PyStr.replace ".mp3" "_temp.wav" output_path in
            if negb (sf_write env temp_wav) then
              fall_back_to_ffmpeg log input_path output_path target_duration
            else (ffmpeg_encode env temp_wav output_path, log)
    end.

Definition adjust_segment_speed (input_path output_path : string)
    (target_duration : float) : bool * list op :=
  if HAS_RUBBERBAND env then
    adjust_segment_speed_rubberband input_path output_path target_duration
  else adjust_segment_speed_ffmpeg input_path output_path target_duration.

(** *** Timeline assembly *)

(** [sorted(tts_segments, key=lambda x: x['start'])]: a stable sort
    that compares keys with [<].  An element passes those that are
    strictly below it and stops at the first that is not.  (For keys
    that are numbers this is the one stable ordering; what Python's
    sort does with a NaN among the keys is not modelled.) *)
Fixpoint insert_by_start (x : tts_segment) (l : list tts_segment)
    : list tts_segment :=
  match l with
  | [] => [x]
  | y :: l' =>
      if (start y <? start x)%float then y :: insert_by_start x l'
      else x :: y :: l'
  end.

Definition sorted_by_start (l : list tts_segment) : list tts_segment :=
  fold_right insert_by_start [] l.

Definition temp_file (stem : string) (i : nat) : string :=
  PyOs.path_join (temp_dir env) (stem +:+ PyNum.fmt_04d i +:+ ".mp3").

(** The state of the loop: [segment_files], [current_time] and the
    stretch primitives invoked so far. *)
Record cursor := {
  segment_files : list piece; current_time : float; stretch_log : list op }.

(** The body of [for i, seg in enumerate(tts_segments)]. *)
Definition place_segment (sample_rate : Z) (i : nat) (seg : tts_segment)
    (c : cursor) : cursor :=
  let start_time := start seg in
  let end_time := end_ seg in
  let target_duration := (end_time - start_time)%float in
  let '(files, now) :=
    if (current_time c <? start_time)%float then
      let silence_duration := (start_time - current_time c)%float in
      let silence_file := temp_file "silence_" i in
      (if generate_silence silence_duration silence_file sample_rate
       then segment_files c ++ [SilenceFile silence_file silence_duration]
       else segment_files c,
       start_time)
    else (segment_files c, current_time c) in
  if os_path_exists env (audio_path seg) then
    let actual_duration := get_audio_duration (audio_path seg) in
    if (0.3 <? abs (actual_duration - target_duration))%float then
      let adjusted_file := temp_file "adjusted_" i in
      let '(ok, log) :=
        adjust_segment_speed (audio_path seg) adjusted_file target_duration in
      {| segment_files :=
           files ++ [if ok
                     then AdjustedFile adjusted_file (audio_path seg)
                            target_duration
                     else ClipFile (audio_path seg)];
         current_time := end_time;
         stretch_log := stretch_log c ++ log |}
    else
      {| segment_files := files ++ [ClipFile (audio_path seg)];
         current_time := end_time; stretch_log := stretch_log c |}
  else
    let silence_file := temp_file "gap_" i in
    {| segment_files :=
         if generate_silence target_duration silence_file sample_rate
         then files ++ [SilenceFile silence_file target_duration]
         else files;
       current_time := end_time; stretch_log := stretch_log c |}.

Fixpoint place_segments (sample_rate : Z) (i : nat)
    (segs : list tts_segment) (c : cursor) : cursor :=
  match segs with
  | [] => c
  | seg :: segs' =>
      place_segments sample_rate (S i) segs' (place_segment sample_rate i seg c)
  end.

(** After the loop: the trailing silence. *)
Definition close_timeline (total_duration : float) (sample_rate : Z)
    (c : cursor) : list piece :=
  if (current_time c <? total_duration)%float then
    let final_silence := PyOs.path_join (temp_dir env) "final_silence.mp3" in
    if generate_silence (total_duration - current_time c)%float final_silence
         sample_rate
    then segment_files c
         ++ [SilenceFile final_silence (total_duration - current_time c)%float]
    else segment_files c
  else segment_files c.

Record assembled := {
  output_file : string; segments_processed : nat; target_duration : float;
  actual_duration : float; duration_error : float }.

Inductive assemble_result :=
| AssembleError (error : string)
| AssembleOk (r : assembled).

(** The result, the sequence written to [concat.txt] (nothing when the
    function returns before writing it) and the stretch primitives
    invoked.  The text that ffmpeg prints is not part of the error
    message here. *)
Definition assemble_segments_with_timing (tts_segments : list tts_segment)
    (total_duration : float) (output_path : string) (sample_rate : Z)
    : assemble_result * option (list piece) * list op :=
  match tts_segments with
  | [] => (AssembleError "No segments provided", None, [])
  | _ =>
      let tts_segments := sorted_by_start tts_segments in
      let c := place_segments sample_rate 0 tts_segments
                 {| segment_files := []; current_time := 0;
                    stretch_log := [] |} in
      let segment_files := close_timeline total_duration sample_rate c in
      match segment_files with
      | [] => (AssembleError "No segments to concatenate", None, stretch_log c)
      | _ =>
          if negb (ffmpeg_concat env (map piece_path segment_files) output_path)
          then (AssembleError "Concatenation failed: ", Some segment_files,
                stretch_log c)
          else
            let final_duration := get_audio_duration output_path in
            (AssembleOk
               {| output_file := output_path;
                  segments_processed := length tts_segments;
                  target_duration := total_duration;
                  actual_duration := final_duration;
                  duration_error := abs (final_duration - total_duration)%float |},
             Some segment_files, stretch_log c)
      end
  end.

End Tools.

End SegmentAssembler.

(** ** [src/server/tts/translate.py] *)

Module Translate.

Definition LF : ascii := "010"%char.

(** *** Reading the numbered answer *)

Fixpoint skip_digits (s : string) : string :=
  match s with
  | String c s' => if PyStr.isdigit c then skip_digits s' else s
  | EmptyString => EmptyString
  end.

(** A match of [\[\d+\]] at the start of [s]: what follows it. *)
Definition match_index (s : string) : option string :=
  match s with
  | String "[" (String c _ as s1) =>
      if PyStr.isdigit c then
        match skip_digits s1 with
        | String "]" rest => Some rest
        | _ => None
        end
      else None
  | _ => None
  end.

(** [$] without [re.MULTILINE]: the end of the string, or just before a
    newline that ends it. *)
Definition at_dollar (s : string) : bool :=
  match s with
  | EmptyString => true
  | String c EmptyString => Ascii.eqb c LF
  | _ => false
  end.

(** The lookahead [(?=\[\d+\]|$)]. *)
Definition lookahead (s : string) : bool :=
  match match_index s with Some _ => true | None => at_dollar s end.

(** The lazy group [(.+?)] under [re.DOTALL], followed by the lookahead:
    the shortest non-empty prefix after which the lookahead holds, and
    what is left. *)
Fixpoint lazy_group (s : string) : option (string * string) :=
  match s with
  | EmptyString => None
  | String c s' =>
      if lookahead s' then Some (String c EmptyString, s')
      else match lazy_group s' with
           | Some (g, rest) => Some (String c g, rest)
           | None => None
           end
  end.

Fixpoint last_char (s : string) : option ascii :=
  match s with
  | EmptyString => None
  | String c EmptyString => Some c
  | String _ s' => last_char s'
  end.

(** A match of the whole pattern [\[(\d+)\]\s*(.+?)(?=\[\d+\]|$)] at the
    start of [s]: the second group and what is left after the match.
    [\s*] takes every space; when nothing is left for the group it gives
    the last space back. *)
Definition match_item (s : string) : option (string * string) :=
  match match_index s with
  | None => None
  | Some after_index =>
      match PyStr.lstrip after_index with
      | EmptyString =>
          match last_char after_index with
          | Some c => Some (String c EmptyString, EmptyString)
          | None => None
          end
      | rest => lazy_group rest
      end
  end.

(** [re.findall] keeps the second group of each match, left to right,
    matches not overlapping; [skip] counts the characters of the last
    match that are still to be passed. *)
Fixpoint findall_from (skip : nat) (s : string) : list string :=
  match s with
  | EmptyString => []
  | String _ s' =>
      match skip with
      | S k => findall_from k s'
      | O =>
          match match_item s with
          | Some (g, rest) =>
              g :: findall_from (String.length s - String.length rest - 1) s'
          | None => findall_from O s'
          end
      end
  end.

Definition numbered_items (result_text : string) : list string :=
  map PyStr.strip (findall_from 0 result_text).

(** [re.sub(r'^\[\d+\]\s*', '', s)] *)
Definition strip_index (s : string) : string :=
  match match_index s with
  | Some rest => PyStr.lstrip rest
  | None => s
  end.

Definition nonblank (s : string) : bool :=
  negb (String.eqb (PyStr.strip s) EmptyString).

Definition nonblank_lines (result_text : string) : list string :=
  map PyStr.strip (List.filter nonblank (PyStr.split LF result_text)).

Definition split_lines_fallback (result_text : string) : list string :=
  map strip_index (nonblank_lines result_text).

(** Lines 422-431: the translations read from the answer to a request
    for [n] segments. *)
Definition parse_translations (n : nat) (result_text : string) : list string :=
  let translated_segments := numbered_items result_text in
  if negb (length translated_segments =? n)%nat
  then split_lines_fallback result_text
  else translated_segments.

(** *** One request for a list of segments *)

Inductive http_outcome :=
| HTTPError (code : Z) (reason : string)
| URLError (reason : string)
| OtherError (message : string)
| Content (text : string).

(** The environment variables and the translation service; the service
    answers by request number.  [Content] is
    [result["choices"][0]["message"]["content"]]; an answer without it
    is an [OtherError]. *)
Record Env := {
  AI_INTEGRATIONS_OPENAI_BASE_URL : option string;
  AI_INTEGRATIONS_OPENAI_API_KEY : option string;
  OPENAI_API_KEY : option string;
  urlopen : nat -> string -> http_outcome }.

Definition truthy (v : option string) : bool :=
  match v with
  | Some (String _ _) => true
  | _ => false
  end.

Inductive translate_result :=
| TranslateOk (translations : list string)
| TranslateFailed (error : string).

Definition translate_ok (r : translate_result) : bool :=
  match r with TranslateOk _ => true | TranslateFailed _ => false end.

Fixpoint enumerate_from {A} (i : nat) (l : list A) : list (nat * A) :=
  match l with
  | [] => []
  | x :: l' => (i, x) :: enumerate_from (S i) l'
  end.

Fixpoint join (sep : string) (l : list string) : string :=
  match l with
  | [] => EmptyString
  | [x] => x
  | x :: l' => x +:+ sep +:+ join sep l'
  end.

Definition numbered_text (segments : list string) : string :=
  join (String LF EmptyString)
    (map (fun '(i, seg) =>
            "[" +:+ PyNum.str_of_int (Z.of_nat (i + 1)) +:+ "] " +:+ seg)
         (enumerate_from 0 segments)).

Section Requests.

Context (env : Env).

(** The [return] after the loop. *)
Definition retries_exhausted (last_error : option string) (calls : nat)
    : translate_result * nat :=
  (TranslateFailed
     (match last_error with
      | Some (String _ _ as e) => e
      | _ => "Translation failed after retries"
      end), calls).

(** [for attempt in range(max_retries)], with [remaining] passes left;
    [calls] is the number of requests made so far.  A [break] goes to
    the [return] after the loop. *)
Fixpoint request_loop (segments : list string) (remaining : nat)
    (last_error : option string) (calls : nat) : translate_result * nat :=
  match remaining with
  | O => retries_exhausted last_error calls
  | S remaining' =>
      match urlopen env calls (numbered_text segments) with
      | Content text =>
          (TranslateOk
             (parse_translations (length segments) (PyStr.strip text)),
           S calls)
      | HTTPError code reason =>
          let e := "HTTP " +:+ PyNum.str_of_int code +:+ ": " +:+ reason in
          if (code =? 429)%Z || (code >=? 500)%Z
          then request_loop segments remaining' (Some e) (S calls)
          else retries_exhausted (Some e) (S calls)
      | URLError reason =>
          request_loop segments remaining'
            (Some ("Network error: " +:+ reason)) (S calls)
      | OtherError message =>
          retries_exhausted (Some message) (S calls)
      end
  end.

(** [not api_key or (api_key == "_DUMMY_API_KEY_" and not base_url)] *)
Definition api_key_missing : bool :=
  let base_url := AI_INTEGRATIONS_OPENAI_BASE_URL env in
  let api_key :=
    if truthy (AI_INTEGRATIONS_OPENAI_API_KEY env)
    then AI_INTEGRATIONS_OPENAI_API_KEY env else OPENAI_API_KEY env in
  negb (truthy api_key)
  || (match api_key with
      | Some k => String.eqb k "_DUMMY_API_KEY_"
      | None => false
      end && negb (truthy base_url)).

Definition translate_segments (segments : list string) (max_retries : nat)
    (calls : nat) : translate_result * nat :=
  if api_key_missing
  then (TranslateFailed "OpenAI API key not found", calls)
  else request_loop segments max_retries None calls.

End Requests.

(** *** Timed segments, in batches *)

Record timed_segment := {
  text : string; start : float; end_ : float;
  speaker_id : option Z; gender : option string }.

Record translated_segment := {
  t_text : string; t_start : float; t_end : float; original_text : string;
  t_speaker_id : option Z; t_gender : option string }.

Inductive timed_result :=
| TimedOk (segments : list translated_segment) (segment_count : nat)
| TimedFailed (error : string) (partial_count : option nat).

Definition BATCH_SIZE : nat := 20.
Definition max_batch_failures : Z := 3.

(** [range(0, stop, step)] *)
Definition range_step (stop step : nat) : list nat :=
  map (fun k => k * step)%nat (seq 0 ((stop + step - 1) / step)).

(** The variables of the batch loop, and the number of requests made. *)
Record progress := {
  all_translated : list string; failed_batches : Z; calls : nat }.

Section Batches.

Context (env : Env).

(** The body of [for batch_start in range(0, len(texts), BATCH_SIZE)]:
    the dict returned from inside the loop, or the variables after the
    pass. *)
Definition translate_batch (texts : list string) (batch_start : nat)
    (p : progress) : timed_result + progress :=
  let batch_texts := firstn BATCH_SIZE (skipn batch_start texts) in
  let batch_num := (batch_start / BATCH_SIZE + 1)%nat in
  match translate_segments env batch_texts 3 (calls p) with
  | (TranslateOk translations, calls1) =>
      inr {| all_translated := all_translated p ++ translations;
             failed_batches := failed_batches p; calls := calls1 |}
  | (TranslateFailed error_msg, calls1) =>
      let failed_batches := (failed_batches p + 1)%Z in
      if (failed_batches >=? max_batch_failures)%Z then
        inl (TimedFailed
               ("Translation failed after " +:+ PyNum.str_of_int failed_batches
                +:+ " batch failures. Last error: " +:+ error_msg)
               (Some (length (all_translated p))))
      else
        match translate_segments env batch_texts 3 calls1 with
        | (TranslateFailed error2, _) =>
            inl (TimedFailed
                   ("Batch " +:+ PyNum.str_of_int (Z.of_nat batch_num)
                    +:+ " failed after retry: " +:+ error2)
                   (Some (length (all_translated p))))
        | (TranslateOk translations, calls2) =>
            inr {| all_translated := all_translated p ++ translations;
                   failed_batches := failed_batches; calls := calls2 |}
        end
  end.

Fixpoint translate_batches (texts : list string) (batch_starts : list nat)
    (p : progress) : timed_result + progress :=
  match batch_starts with
  | [] => inr p
  | batch_start :: batch_starts' =>
      match translate_batch texts batch_start p with
      | inl fatal => inl fatal
      | inr p' => translate_batches texts batch_starts' p'
      end
  end.

(** The last loop: translations are handed back in order to the
    segments that have text, as long as there are translations. *)
Fixpoint reattach (segments : list timed_segment)
    (all_translated : list string) : list translated_segment :=
  match segments with
  | [] => []
  | seg :: segments' =>
      if Translate.nonblank (text seg) then
        match all_translated with
        | translation :: all_translated' =>
            {| t_text := translation; t_start := start seg;
               t_end := end_ seg; original_text := text seg;
               t_speaker_id := speaker_id seg; t_gender := gender seg |}
            :: reattach segments' all_translated'
        | [] => reattach segments' []
        end
      else reattach segments' all_translated
  end.

Definition translate_timed_segments (segments : list timed_segment)
    : timed_result :=
  let texts :=
    map text (List.filter (fun seg => Translate.nonblank (text seg)) segments) in
  match texts with
  | [] => TimedFailed "No text segments to translate" None
  | _ =>
      match translate_batches texts (range_step (length texts) BATCH_SIZE)
              {| all_translated := []; failed_batches := 0; calls := 0 |} with
      | inl fatal => fatal
      | inr p =>
          let translated_segments := reattach segments (all_translated p) in
          TimedOk translated_segments (length translated_segments)
      end
  end.

End Batches.

End Translate.

(** ** [src/server/tts/voice_selector.py] *)

Module VoiceSelector.

Record voice := { name : string; style : string; age : string }.

Definition v (name style age : string) : voice :=
  {| name := name; style := style; age := age |}.

Definition EDGE_TTS_VOICES : list (string * list (string * list voice)) :=
  [
    ("en",
     [ ("male",
        [ v "en-US-GuyNeural" "general" "adult";
          v "en-US-DavisNeural" "general" "adult";
          v "en-US-TonyNeural" "general" "adult";
          v "en-US-JasonNeural" "general" "adult";
          v "en-GB-RyanNeural" "general" "adult" ]);
       ("female",
        [ v "en-US-JennyNeural" "general" "adult";
          v "en-US-AriaNeural" "expressive" "young_adult";
          v "en-US-SaraNeural" "general" "adult";
          v "en-US-MichelleNeural" "general" "adult";
          v "en-GB-SoniaNeural" "general" "adult" ]) ]);
    ("es",
     [ ("male",
        [ v "es-MX-JorgeNeural" "general" "adult";
          v "es-ES-AlvaroNeural" "general" "adult" ]);
       ("female",
        [ v "es-MX-DaliaNeural" "general" "adult";
          v "es-ES-ElviraNeural" "general" "adult" ]) ]);
    ("fr",
     [ ("male",
        [ v "fr-FR-HenriNeural" "general" "adult";
          v "fr-CA-AntoineNeural" "general" "adult" ]);
       ("female",
        [ v "fr-FR-DeniseNeural" "general" "adult";
          v "fr-CA-SylvieNeural" "general" "adult" ]) ]);
    ("de",
     [ ("male",
        [ v "de-DE-ConradNeural" "general" "adult";
          v "de-AT-JonasNeural" "general" "adult" ]);
       ("female",
        [ v "de-DE-KatjaNeural" "general" "adult";
          v "de-AT-IngridNeural" "general" "adult" ]) ]);
    ("it",
     [ ("male",
        [ v "it-IT-DiegoNeural" "general" "adult" ]);
       ("female",
        [ v "it-IT-ElsaNeural" "general" "adult";
          v "it-IT-IsabellaNeural" "general" "adult" ]) ]);
    ("pt",
     [ ("male",
        [ v "pt-BR-AntonioNeural" "general" "adult";
          v "pt-PT-DuarteNeural" "general" "adult" ]);
       ("female",
        [ v "pt-BR-FranciscaNeural" "general" "adult";
          v "pt-PT-RaquelNeural" "general" "adult" ]) ]);
    ("ru",
     [ ("male",
        [ v "ru-RU-DmitryNeural" "general" "adult" ]);
       ("female",
        [ v "ru-RU-SvetlanaNeural" "general" "adult";
          v "ru-RU-DariyaNeural" "general" "adult" ]) ]);
    ("zh",
     [ ("male",
        [ v "zh-CN-YunxiNeural" "general" "adult";
          v "zh-CN-YunjianNeural" "general" "adult" ]);
       ("female",
        [ v "zh-CN-XiaoxiaoNeural" "expressive" "young_adult";
          v "zh-CN-XiaoyiNeural" "general" "adult" ]) ]);
    ("ja",
     [ ("male",
        [ v "ja-JP-KeitaNeural" "general" "adult" ]);
       ("female",
        [ v "ja-JP-NanamiNeural" "general" "adult" ]) ]);
    ("ko",
     [ ("male",
        [ v "ko-KR-InJoonNeural" "general" "adult" ]);
       ("female",
        [ v "ko-KR-SunHiNeural" "general" "adult" ]) ]);
    ("ar",
     [ ("male",
        [ v "ar-SA-HamedNeural" "general" "adult" ]);
       ("female",
        [ v "ar-SA-ZariyahNeural" "general" "adult" ]) ]);
    ("hi",
     [ ("male",
        [ v "hi-IN-MadhurNeural" "general" "adult" ]);
       ("female",
        [ v "hi-IN-SwaraNeural" "general" "adult" ]) ]);
    ("pl",
     [ ("male",
        [ v "pl-PL-MarekNeural" "general" "adult" ]);
       ("female",
        [ v "pl-PL-ZofiaNeural" "general" "adult" ]) ]);
    ("nl",
     [ ("male",
        [ v "nl-NL-MaartenNeural" "general" "adult" ]);
       ("female",
        [ v "nl-NL-ColetteNeural" "general" "adult" ]) ]);
    ("tr",
     [ ("male",
        [ v "tr-TR-AhmetNeural" "general" "adult" ]);
       ("female",
        [ v "tr-TR-EmelNeural" "general" "adult" ]) ]);
    ("sv",
     [ ("male",
        [ v "sv-SE-MattiasNeural" "general" "adult" ]);
       ("female",
        [ v "sv-SE-SofieNeural" "general" "adult" ]) ]) ].

(** The two dictionaries of a [VoiceAssigner]. *)
Record VoiceAssigner := {
  speaker_voice_map : gmap string string;
  used_voices : gmap string (gset string) }.

(** [VoiceAssigner()] *)
Definition new_assigner : VoiceAssigner :=
  {| speaker_voice_map := ∅; used_voices := ∅ |}.

(** The returned dict; [gender] and [language] are present in a fresh
    assignment only, [fallback] in the ultimate fallback only. *)
Record assignment := {
  a_voice : string; cached : bool; a_speaker_id : string;
  a_gender : option string; a_language : option string; fallback : bool }.

Definition cache_key (speaker_id language : string) : string :=
  speaker_id +:+ "_" +:+ language.

(** [gender] after the pitch rule for an unknown gender. *)
Definition resolve_gender (gender : string) (pitch_estimate : Q) : string :=
  if String.eqb gender "unknown"
  then (if PyNum.gtb pitch_estimate 180 then "female" else "male")
  else gender.

(** [language[:2].lower()], replaced by ["en"] when it is not a key of
    the catalog. *)
Definition resolve_lang_code (language : string) : string :=
  let lang_code := PyStr.lower (String.substring 0 2 language) in
  if PyDict.mem lang_code EDGE_TTS_VOICES then lang_code else "en".

(** The candidate list: the voices of the gender, or of the other gender
    when there are none. *)
Definition candidate_voices (lang_code gender : string) : list voice :=
  match PyDict.lookup lang_code EDGE_TTS_VOICES with
  | None => []
  | Some by_gender =>
      match PyDict.get gender by_gender [] with
      | [] =>
          PyDict.get (if String.eqb gender "male" then "female" else "male")
            by_gender []
      | voices => voices
      end
  end.

(** The first loop: the first candidate that is not used yet in this
    language and whose style is acceptable. *)
Fixpoint pick_unused (used : gset string) (style : string)
    (voices : list voice) : option string :=
  match voices with
  | [] => None
  | voice :: voices' =>
      if bool_decide (name voice ∉ used)
         && (String.eqb style "general" || String.eqb (VoiceSelector.style voice) style)
      then Some (name voice)
      else pick_unused used style voices'
  end.

(** The second loop: the first candidate of the style. *)
Fixpoint pick_style (style : string) (voices : list voice) : option string :=
  match voices with
  | [] => None
  | voice :: voices' =>
      if String.eqb (VoiceSelector.style voice) style then Some (name voice)
      else pick_style style voices'
  end.

(** [not selected_voice] *)
Definition unselected (selected_voice : option string) : bool :=
  match selected_voice with
  | Some (String _ _) => false
  | _ => true
  end.

Definition first_name (voices : list voice) : string :=
  match voices with
  | voice :: _ => name voice
  | [] => EmptyString
  end.

Definition select_voice (used : gset string) (style : string)
    (voices : list voice) : string :=
  let selected_voice := pick_unused used style voices in
  if unselected selected_voice then
    let selected_voice := pick_style style voices in
    if unselected selected_voice then first_name voices
    else default EmptyString selected_voice
  else default EmptyString selected_voice.

Definition get_voice_for_speaker (self : VoiceAssigner)
    (speaker_id language gender : string) (pitch_estimate : Q)
    (style : string) : assignment * VoiceAssigner :=
  let cache_key := cache_key speaker_id language in
  match speaker_voice_map self !! cache_key with
  | Some voice =>
      ({| a_voice := voice; cached := true; a_speaker_id := speaker_id;
          a_gender := None; a_language := None; fallback := false |}, self)
  | None =>
      let gender := resolve_gender gender pitch_estimate in
      let lang_code := resolve_lang_code language in
      match candidate_voices lang_code gender with
      | [] =>
          ({| a_voice := "en-US-JennyNeural"; cached := false;
              a_speaker_id := speaker_id; a_gender := None;
              a_language := None; fallback := true |}, self)
      | voices =>
          let used := default ∅ (used_voices self !! lang_code) in
          let selected_voice := select_voice used style voices in
          ({| a_voice := selected_voice; cached := false;
              a_speaker_id := speaker_id; a_gender := Some gender;
              a_language := Some lang_code; fallback := false |},
           {| speaker_voice_map :=
                <[cache_key := selected_voice]> (speaker_voice_map self);
              used_voices :=
                <[lang_code := used ∪ {[selected_voice]}]> (used_voices self) |})
      end
  end.

(** Successive requests to one assigner. *)
Record request := {
  q_speaker_id : string; q_language : string; q_gender : string;
  q_pitch_estimate : Q; q_style : string }.

Definition serve (self : VoiceAssigner) (q : request)
    : assignment * VoiceAssigner :=
  get_voice_for_speaker self (q_speaker_id q) (q_language q) (q_gender q)
    (q_pitch_estimate q) (q_style q).

Fixpoint serve_all (self : VoiceAssigner) (requests : list request)
    : VoiceAssigner :=
  match requests with
  | [] => self
  | q :: requests' => serve_all (snd (serve self q)) requests'
  end.

End VoiceSelector.

(** ** [src/smart_diarize.py] *)

Module SmartDiarize.

(** The returned dict; [pitch] is [None] when no pitch was detected. *)
Record classification := {
  gender : string; confidence : Q; pitch : option Q }.

Definition classify_gender (pitch_hz : option Q) : classification :=
  match pitch_hz with
  | None => {| gender := "unknown"; confidence := 0; pitch := None |}
  | Some pitch_hz =>
      if PyNum.ltb pitch_hz 140 then
        let confidence := PyNum.min 1 ((140 - pitch_hz) / 55 + (5 # 10)) in
        {| gender := "male"; confidence := confidence;
           pitch := Some (PyNum.round_nd pitch_hz 1) |}
      else if PyNum.gtb pitch_hz 185 then
        let confidence := PyNum.min 1 ((pitch_hz - 185) / 70 + (5 # 10)) in
        {| gender := "female"; confidence := confidence;
           pitch := Some (PyNum.round_nd pitch_hz 1) |}
      else
        let male_score := ((185 - pitch_hz) / 45)%Q in
        let female_score := ((pitch_hz - 140) / 45)%Q in
        if PyNum.gtb male_score female_score then
          {| gender := "male";
             confidence := PyNum.round_nd (male_score * (7 # 10)) 2;
             pitch := Some (PyNum.round_nd pitch_hz 1) |}
        else
          {| gender := "female";
             confidence := PyNum.round_nd (female_score * (7 # 10)) 2;
             pitch := Some (PyNum.round_nd pitch_hz 1) |}
  end.

End SmartDiarize.

(** * Properties of the Python fragments *)

Module PyStrProps.

Lemma app_cons c a b : String c a +:+ b = String c (a +:+ b).
Proof. reflexivity. Qed.

Lemma app_empty b : "" +:+ b = b.
Proof. reflexivity. Qed.

Lemma app_empty_r a : a +:+ "" = a.
Proof. induction a as [|c a IH]; [reflexivity|]. now rewrite app_cons, IH. Qed.

Lemma app_assoc_s a b c : (a +:+ b) +:+ c = a +:+ (b +:+ c).
Proof.
  induction a as [|x a IH]; [reflexivity|]. now rewrite !app_cons, IH.
Qed.

Lemma length_app_s a b :
  String.length (a +:+ b) = (String.length a + String.length b)%nat.
Proof.
  induction a as [|c a IH]; [reflexivity|].
  rewrite app_cons. cbn [String.length]. now rewrite IH.
Qed.

Lemma lstrip_length s : (String.length (PyStr.lstrip s) <= String.length s)%nat.
Proof.
  induction s as [|c s IH]; cbn [PyStr.lstrip]; [lia|].
  destruct (PyStr.isspace c); cbn [String.length]; lia.
Qed.

Lemma rstrip_length s : (String.length (PyStr.rstrip s) <= String.length s)%nat.
Proof.
  induction s as [|c s IH]; cbn [PyStr.rstrip]; [lia|].
  destruct (PyStr.rstrip s) as [|c' r].
  - destruct (PyStr.isspace c); cbn [String.length]; lia.
  - cbn [String.length] in *. lia.
Qed.

Lemma strip_length s : (String.length (PyStr.strip s) <= String.length s)%nat.
Proof.
  unfold PyStr.strip.
  pose proof (rstrip_length (PyStr.lstrip s)). pose proof (lstrip_length s). lia.
Qed.

End PyStrProps.

Module PyNumProps.

Lemma leb_le a b : PyNum.leb a b = true <-> (a <= b)%Q.
Proof. apply Qle_bool_iff. Qed.

Lemma leb_gt a b : PyNum.leb a b = false <-> (b < a)%Q.
Proof.
  unfold PyNum.leb. split.
  - intros H. apply Qnot_le_lt. intros L.
    apply Qle_bool_iff in L. congruence.
  - intros H. destruct (Qle_bool a b) eqn:E; [|reflexivity].
    apply Qle_bool_iff in E. exfalso. exact (Qlt_not_le _ _ H E).
Qed.

Lemma gtb_lt a b : PyNum.gtb a b = true <-> (b < a)%Q.
Proof.
  unfold PyNum.gtb, PyNum.ltb. rewrite negb_true_iff. apply leb_gt.
Qed.

Lemma gtb_le a b : PyNum.gtb a b = false <-> (a <= b)%Q.
Proof.
  unfold PyNum.gtb, PyNum.ltb. rewrite negb_false_iff. apply Qle_bool_iff.
Qed.

Lemma ltb_lt a b : PyNum.ltb a b = true <-> (a < b)%Q.
Proof. exact (gtb_lt b a). Qed.

Lemma ltb_ge a b : PyNum.ltb a b = false <-> (b <= a)%Q.
Proof. exact (gtb_le b a). Qed.

(** [max(lo, min(hi, x))] lies between its bounds. *)
Lemma clamp_range lo hi x :
  (lo <= hi)%Q ->
  (lo <= PyNum.max lo (PyNum.min hi x) <= hi)%Q.
Proof.
  intros H. unfold PyNum.max, PyNum.min.
  destruct (PyNum.ltb x hi) eqn:E1.
  - apply ltb_lt in E1.
    destruct (PyNum.gtb x lo) eqn:E2.
    + apply gtb_lt in E2. split; lra.
    + split; lra.
  - destruct (PyNum.gtb hi lo) eqn:E2.
    + apply gtb_lt in E2. split; lra.
    + split; lra.
Qed.

Lemma zclamp_range lo hi x :
  (lo <= hi)%Z ->
  (lo <= PyNum.zmax lo (PyNum.zmin hi x) <= hi)%Z.
Proof.
  intros H. unfold PyNum.zmax, PyNum.zmin.
  destruct (Z.ltb_spec x hi); destruct (Z.gtb_spec x lo);
    try destruct (Z.gtb_spec hi lo); lia.
Qed.

Lemma zclamp_max_min lo hi x :
  PyNum.zmax lo (PyNum.zmin hi x) = Z.max lo (Z.min hi x).
Proof.
  unfold PyNum.zmax, PyNum.zmin.
  destruct (Z.ltb_spec x hi); destruct (Z.gtb_spec x lo);
    try destruct (Z.gtb_spec hi lo); lia.
Qed.

End PyNumProps.

Module PyDictProps.

Lemma lookup_In {V} (k : string) (d : list (string * V)) (v : V) :
  PyDict.lookup k d = Some v -> In (k, v) d.
Proof.
  induction d as [|[k' v'] d IH]; simpl; [discriminate|].
  destruct (String.eqb_spec k k') as [->|_].
  - intros [= ->]. now left.
  - intros H. right. auto.
Qed.

Lemma lookup_Forall {V} (P : string -> V -> Prop) (d : list (string * V)) :
  Forall (fun kv => P (fst kv) (snd kv)) d ->
  forall k v, PyDict.lookup k d = Some v -> P k v.
Proof.
  intros F k v H. apply lookup_In in H.
  exact (proj1 (List.Forall_forall _ _) F _ H).
Qed.

End PyDictProps.

Module PyFloatProps.


(** A float above zero is not zero: it is true as a condition. *)
Lemma positive_truthy (x : float) :
  (0 <? x)%float = true -> PyFloat.truthy x = true.
Proof.
  unfold PyFloat.truthy. rewrite FloatAxioms.ltb_spec, FloatAxioms.eqb_spec.
  change (Prim2SF 0) with (S754_zero false).
  destruct (Prim2SF x) as [s|s| |s m e]; try destruct s; cbn; congruence.
Qed.


(** The exact comparison of an int with a float is monotone in the int. *)
Lemma Z_ltb_mono (i j : Z) (x : float) :
  (i <= j)%Z -> PyFloat.Z_ltb j x = true -> PyFloat.Z_ltb i x = true.
Proof.
  intros Hij. unfold PyFloat.Z_ltb.
  destruct (Prim2SF x) as [s|s| |s m e]; auto.
  - rewrite !Z.ltb_lt. lia.
  - cbv zeta. destruct (Z.leb_spec 0 e); rewrite !Z.ltb_lt; [lia|].
    assert (0 < 2 ^ (- e))%Z by (apply Z.pow_pos_nonneg; lia).
    intros H1. eapply Z.le_lt_trans; [|exact H1].
    apply Z.mul_le_mono_nonneg_r; lia.
Qed.

Lemma ltb_asym (x y : float) : (x <? y)%float = true -> (y <? x)%float = false.
Proof.
  rewrite !FloatAxioms.ltb_spec. unfold SFltb, SFcompare.
  destruct (Prim2SF x) as [s|s| |s m e], (Prim2SF y) as [s'|s'| |s' m' e'];
    try destruct s; try destruct s'; cbn; try congruence.
  - rewrite (Z.compare_antisym e e').
    change (Pos.compare_cont Eq m' m) with (Pos.compare m' m).
    change (Pos.compare_cont Eq m m') with (Pos.compare m m').
    rewrite (Pos.compare_antisym m m').
    destruct (e ?= e')%Z; cbn; try congruence.
    destruct (m ?= m')%positive; cbn; congruence.
  - rewrite (Z.compare_antisym e e').
    change (Pos.compare_cont Eq m' m) with (Pos.compare m' m).
    change (Pos.compare_cont Eq m m') with (Pos.compare m m').
    rewrite (Pos.compare_antisym m m').
    destruct (e ?= e')%Z; cbn; try congruence.
    destruct (m ?= m')%positive; cbn; congruence.
Qed.


(** A float strictly below one that equals [k] does not equal [k]. *)
Lemma ltb_eqb (x y k : float) :
  (y <? x)%float = true -> (x =? k)%float = true -> (y =? k)%float = false.
Proof.
  rewrite FloatAxioms.ltb_spec, !FloatAxioms.eqb_spec.
  unfold SFltb, SFeqb, SFcompare.
  destruct (Prim2SF x) as [s|s| |s m e], (Prim2SF y) as [s'|s'| |s' m' e'],
           (Prim2SF k) as [s''|s''| |s'' m'' e''];
    try destruct s; try destruct s'; try destruct s''; cbn; try congruence.
  - destruct (e ?= e'')%Z eqn:E1; try congruence.
    destruct (Pos.compare_cont Eq m m'') eqn:E2; cbn; try congruence.
    apply Z.compare_eq in E1. apply Pos.compare_eq in E2. subst.
    intros H _. destruct (e' ?= e'')%Z; try congruence.
    destruct (Pos.compare_cont Eq m' m''); cbn in *; congruence.
  - destruct (e ?= e'')%Z eqn:E1; try congruence.
    destruct (Pos.compare_cont Eq m m'') eqn:E2; cbn; try congruence.
    apply Z.compare_eq in E1. apply Pos.compare_eq in E2. subst.
    intros H _. destruct (e' ?= e'')%Z; try congruence.
    destruct (Pos.compare_cont Eq m' m''); cbn in *; congruence.
Qed.

(** The number a finite float stands for. *)
Definition exact (x : float) : Q :=
  match Prim2SF x with
  | S754_finite s m e =>
      (if s then - inject_Z (Z.pos m) else inject_Z (Z.pos m)) * Qpower 2 e
  | _ => 0
  end.

End PyFloatProps.

(** * Properties of [src/edge_tts_dub.py] *)

Module EdgeTtsDubProps.
Import EdgeTtsDub PyNumProps PyFloatProps PyDictProps.

(** ** Voice lookup *)

Lemma VOICE_MAP_entries :
  Forall (fun kv => exists m f, snd kv = mf m f) VOICE_MAP.
Proof. unfold VOICE_MAP. repeat (constructor; [simpl; eauto|]). constructor. Qed.

Lemma VOICE_MAP_lookup k voices :
  PyDict.lookup k VOICE_MAP = Some voices -> exists m f, voices = mf m f.
Proof.
  intros H. apply lookup_In in H.
  exact (proj1 (List.Forall_forall _ _) VOICE_MAP_entries _ H).
Qed.

Lemma voice_or_female_total m f gender :
  exists v, voice_or_female (mf m f) gender = Some v.
Proof. unfold voice_or_female, mf. simpl. eauto. Qed.

Lemma voice_or_female_other m f gender :
  gender <> "male" -> gender <> "female" ->
  voice_or_female (mf m f) gender = Some f.
Proof.
  intros Hm Hf. unfold voice_or_female, mf, PyDict.get. simpl.
  destruct (String.eqb_spec gender "male"); [contradiction|].
  destruct (String.eqb_spec gender "female"); [contradiction|].
  reflexivity.
Qed.

(** [get_voice] raises exactly on the default branch with a gender that
    is not a key of the English entry. *)
Lemma get_voice_raises_iff language_code gender :
  get_voice language_code gender = None <->
  PyDict.lookup (PyStr.lower language_code) VOICE_MAP = None /\
  PyDict.lookup (PyStr.split_head "-" (PyStr.lower language_code)) VOICE_MAP = None /\
  gender <> "male" /\ gender <> "female".
Proof.
  unfold get_voice.
  destruct (PyDict.lookup (PyStr.lower language_code) VOICE_MAP) as [vs|] eqn:E1.
  { destruct (VOICE_MAP_lookup _ _ E1) as (m & f & ->).
    destruct (voice_or_female_total m f gender) as [v ->].
    split; [discriminate | intros [? _]; discriminate]. }
  destruct (PyDict.lookup (PyStr.split_head "-" (PyStr.lower language_code)) VOICE_MAP)
    as [vs|] eqn:E2.
  { destruct (VOICE_MAP_lookup _ _ E2) as (m & f & ->).
    destruct (voice_or_female_total m f gender) as [v ->].
    split; [discriminate | intros (_ & ? & _); discriminate]. }
  change (PyDict.lookup "en" VOICE_MAP) with (Some (mf "en-US-GuyNeural" "en-US-JennyNeural")).
  simpl.
  destruct (String.eqb_spec gender "male") as [->|Hm].
  { split; [discriminate | intros (_ & _ & H & _); now elim H]. }
  destruct (String.eqb_spec gender "female") as [->|Hf].
  { split; [discriminate | intros (_ & _ & _ & H); now elim H]. }
  tauto.
Qed.

(** On the two guarded branches an unknown gender gets the female voice
    of the matched language. *)
Lemma get_voice_matched_other_gender language_code gender voices :
  PyDict.lookup (PyStr.lower language_code) VOICE_MAP = Some voices ->
  gender <> "male" -> gender <> "female" ->
  get_voice language_code gender = PyDict.lookup "female" voices.
Proof.
  intros E Hm Hf. unfold get_voice. rewrite E.
  destruct (VOICE_MAP_lookup _ _ E) as (m & f & ->).
  now rewrite voice_or_female_other.
Qed.

(** C10.  Voice lookup is not total: for a language that matches neither
    exactly nor by its base, the default branch subscripts the English
    entry with the gender and raises [KeyError] for a gender other than
    male or female, whereas the two matched branches fall back to the
    female voice for the same gender. *)
Theorem get_voice_default_branch_raises :
  get_voice "xx" "neutral" = None /\
  get_voice "es-CO" "neutral" = Some "es-MX-DaliaNeural" /\
  get_voice "es" "neutral" = Some "es-MX-DaliaNeural".
Proof. repeat split; reflexivity. Qed.

(** A key of [VOICE_MAP] with an upper-case region is never matched
    exactly, because the code is lower-cased before the lookup. *)
Example get_voice_regional_key_unreachable :
  get_voice "es-AR" "male" = Some "es-MX-JorgeNeural".
Proof. reflexivity. Qed.

(** ** Rates *)

(** Every rate that [combine_rates] can print is read back by
    [parse_rate]: checked on the 151 values of the clamp's range. *)
Lemma printed_rate_parses c :
  (-50 <= c <= 100)%Z ->
  parse_rate (if (c >=? 0)%Z then "+" +:+ PyNum.str_of_int c +:+ "%"
              else PyNum.str_of_int c +:+ "%") = c.
Proof.
  intros Hc.
  assert (A : forallb (fun n =>
              let c := (Z.of_nat n - 50)%Z in
              Z.eqb (parse_rate (if (c >=? 0)%Z
                                 then "+" +:+ PyNum.str_of_int c +:+ "%"
                                 else PyNum.str_of_int c +:+ "%")) c)
            (List.seq 0 151) = true) by (vm_compute; reflexivity).
  rewrite forallb_forall in A.
  specialize (A (Z.to_nat (c + 50))).
  cbv zeta in A. replace (Z.of_nat (Z.to_nat (c + 50)) - 50)%Z with c in A by lia.
  apply Z.eqb_eq, A, in_seq. lia.
Qed.

Lemma parse_rate_combine_rates emotion_rate alignment_rate :
  parse_rate (combine_rates emotion_rate alignment_rate)
  = Z.max (-50) (Z.min 100 (parse_rate emotion_rate + alignment_rate)).
Proof.
  unfold combine_rates. rewrite <- zclamp_max_min.
  apply printed_rate_parses, zclamp_range. lia.
Qed.

Lemma alignable_positive target actual :
  (0 <? target)%float = true -> (0 <? actual)%float = true ->
  alignable (Some target) actual = Some target.
Proof.
  intros Ht Ha. unfold alignable.
  now rewrite (positive_truthy _ Ht), Ht, Ha.
Qed.

(** ** Per-segment alignment *)

Section Alignment.

Context (env : Env).

(** C5, as the code has it.  In a pass of the retry loop whose first
    render left a file of at least 100 bytes with a positive measured
    duration, for a positive target duration, all arithmetic being
    that of binary64 floats: when [abs(actual - target) > 0.3] and
    [int(((actual / target) - 1) * 100)] has the value [adjustment],
    the pass renders once more, with the same text, voice and pitch, at
    the rate [combine_rates] prints, which reads back as the emotion
    base rate plus [adjustment] clamped to [-50, 100]; when [int]
    raises, the pass ends with that error after the first render; and
    when the difference does not exceed 0.3 the pass renders only once
    and succeeds at the base rate. *)
Theorem attempt_rerenders_once_at_truncated_rate
    seg text voice output_file target attempt w file_size actual :
  let enhanced := enhance_text_for_natural_speech text in
  let config := detect_emotion enhanced in
  let first := {| c_text := enhanced; c_voice := voice;
                  c_rate := rate config; c_pitch := pitch config;
                  c_output := output_file |} in
  let outcome := attempt_segment env seg text voice output_file
                   (Some target) attempt w in
  let w' := snd outcome in
  edge_save env (length (edge_log w)) first = Saved true file_size actual ->
  (100 <= file_size)%Z ->
  (0 <? target)%float = true -> (0 <? actual)%float = true ->
  ((0.3 <? abs (actual - target))%float = true ->
     (forall adjustment,
        PyFloat.trunc ((actual / target - 1) * 100)%float = inl adjustment ->
        exists second,
          edge_log w' = edge_log w ++ [first; second] /\
          c_text second = enhanced /\ c_voice second = voice /\
          c_pitch second = pitch config /\ c_output second = output_file /\
          c_rate second = combine_rates (rate config) adjustment /\
          parse_rate (c_rate second)
            = Z.max (-50) (Z.min 100 (parse_rate (rate config) + adjustment))) /\
     (forall e,
        PyFloat.trunc ((actual / target - 1) * 100)%float = inr e ->
        fst outcome = inr e /\ edge_log w' = edge_log w ++ [first])) /\
  ((0.3 <? abs (actual - target))%float = false ->
     edge_log w' = edge_log w ++ [first] /\
     exists ok, fst outcome = inl ok /\ r_final_rate ok = rate config).
Proof.
  intros enhanced config first outcome w' Hsave Hsize Ht Ha.
  subst w' outcome. unfold attempt_segment, call_edge.
  fold enhanced. fold config. fold first. rewrite Hsave. cbn [negb].
  destruct (Z.ltb_spec file_size 100) as [Hlt|_]; [lia|].
  rewrite (alignable_positive _ _ Ht Ha). cbn [edge_log].
  split.
  - intros Hfar. rewrite Hfar. unfold rate_adjustment. split.
    + intros adjustment Hint. rewrite Hint.
      set (second := {| c_text := enhanced; c_voice := voice;
                        c_rate := combine_rates (rate config) adjustment;
                        c_pitch := pitch config; c_output := output_file |}).
      exists second.
      destruct (edge_save env _ second); cbn [snd edge_log];
        rewrite <- app_assoc; cbn [app];
        (split; [reflexivity|]);
        cbn [second c_text c_voice c_pitch c_rate c_output];
        repeat split; apply parse_rate_combine_rates.
    + intros e Hint. rewrite Hint. split; reflexivity.
  - intros Hnear. rewrite Hnear. split; [reflexivity|].
    eexists. split; reflexivity.
Qed.

End Alignment.

(** A service that always renders a 4.1 s clip of 5000 bytes. *)
Definition env_4100ms : Env :=
  {| edge_save := fun _ _ => Saved true 5000 4.1;
     gtts_save := fun _ _ => GttsRaises "unused";
     GTTS_AVAILABLE := false |}.

Definition seg_alpha : segment :=
  {| seg_id := 0; seg_text := "Alpha"; seg_start := 0; seg_end := 3;
     seg_duration := Some 3%float |}.

Lemma attempt_rerenders_once_at_truncated_rate_witness :
  exists second,
    edge_log (snd (attempt_segment env_4100ms seg_alpha "Alpha" "v" "o.mp3"
                     (Some 3%float) 0 initial_world))
      = [] ++ [ {| c_text := "Alpha"; c_voice := "v"; c_rate := "+0%";
                   c_pitch := "+0Hz"; c_output := "o.mp3" |}; second ] /\
    c_rate second = "+36%".
Proof.
  destruct (attempt_rerenders_once_at_truncated_rate env_4100ms seg_alpha
              "Alpha" "v" "o.mp3" 3%float 0%nat initial_world 5000%Z 4.1%float)
    as [Hfar _].
  - reflexivity.
  - lia.
  - reflexivity.
  - reflexivity.
  - destruct Hfar as [Hfar _]; [reflexivity|].
    destruct (Hfar 36%Z) as (second & Hlog & _ & _ & _ & _ & Hrate & _).
    + reflexivity.
    + exists second. split; [exact Hlog | exact Hrate].
Defined.

(** A service that always renders a 23 s clip of 5000 bytes. *)
Definition env_23s : Env :=
  {| edge_save := fun _ _ => Saved true 5000 23;
     gtts_save := fun _ _ => GttsRaises "unused";
     GTTS_AVAILABLE := false |}.

Definition seg_long : segment :=
  {| seg_id := 0; seg_text := "Alpha"; seg_start := 0; seg_end := 20;
     seg_duration := Some 20%float |}.

(** A service that always renders a 1.99 s clip of 5000 bytes. *)
Definition env_1990ms : Env :=
  {| edge_save := fun _ _ => Saved true 5000 1.99;
     gtts_save := fun _ _ => GttsRaises "unused";
     GTTS_AVAILABLE := false |}.

(** C5 as stated, with [round], fails on the specification's own
    scenario: a 3 s segment first rendered in 4.1 s is rendered again at
    +36%, while rounding 36.67 gives 37.  The truncation is toward zero:
    the same segment first rendered in 1.99 s is rendered again at
    -33%, while rounding -33.67 gives -34.  And it is that of the binary64
    value: a 20 s segment first rendered in 23 s is rendered again at
    +14%, the float product being just below 15. *)
Lemma rerender_rate_is_not_rounded :
  map c_rate (edge_log (snd (generate_segment_audio env_4100ms seg_alpha
                               "v" "o.mp3" (Some 3%float) 3 initial_world)))
    = ["+0%"; "+36%"] /\
  PyNum.round_half_even (((41 # 10) / 3 - 1) * 100) = 37%Z /\
  parse_rate "+36%"
    <> Z.max (-50) (Z.min 100
         (parse_rate "+0%"
          + PyNum.round_half_even (((41 # 10) / 3 - 1) * 100))) /\
  map c_rate (edge_log (snd (generate_segment_audio env_1990ms seg_alpha
                               "v" "o.mp3" (Some 3%float) 3 initial_world)))
    = ["+0%"; "-33%"] /\
  PyNum.round_half_even (((199 # 100) / 3 - 1) * 100) = (-34)%Z /\
  map c_rate (edge_log (snd (generate_segment_audio env_23s seg_long
                               "v" "o.mp3" (Some 20%float) 3 initial_world)))
    = ["+0%"; "+14%"] /\
  PyNum.round_half_even ((23 / 20 - 1) * 100) = 15%Z.
Proof.
  split; [vm_compute; reflexivity|].
  split; [vm_compute; reflexivity|].
  split; [vm_compute; discriminate|].
  split; [vm_compute; reflexivity|].
  split; [vm_compute; reflexivity|].
  split; vm_compute; reflexivity.
Qed.

(** ** The synthesis stage *)

Definition failures_in (rs : list segment_result) : Z :=
  Z.of_nat (length (List.filter (fun r => negb (result_success r)) rs)).

Definition successes_in (rs : list segment_result) : Z :=
  Z.of_nat (length (List.filter result_success rs)).

Definition tally_ok (t : tally) : Prop :=
  failed t = failures_in (results t) /\
  successful t = successes_in (results t).

Lemma record_result_ok result t :
  tally_ok t -> tally_ok (record_result result t) /\
  results (record_result result t) = results t ++ [result].
Proof.
  intros [Hf Hs]. unfold tally_ok, failures_in, successes_in in *.
  destruct result; cbn [record_result results failed successful];
    rewrite !List.filter_app, !length_app; cbn; rewrite Hf, Hs;
    repeat split; lia.
Qed.

(** The lengths for which the float test is checked, one by one. *)
Definition max_checked_segments : Z := 100000.

Fixpoint zrange (fuel : nat) (start : Z) : list Z :=
  match fuel with
  | O => []
  | S fuel' => start :: zrange fuel' (start + 1)
  end.

Lemma zrange_In fuel :
  forall start z,
    (start <= z < start + Z.of_nat fuel)%Z -> In z (zrange fuel start).
Proof.
  induction fuel as [|fuel IH]; intros start z H; [lia|].
  cbn [zrange]. destruct (Z.eq_dec start z) as [->|Hne]; [now left|].
  right. apply IH. lia.
Qed.

(** [n * 0.2] lies above [ceil(n / 5) - 1] and not above [ceil(n / 5)]. *)
Definition fifth_ok (n : Z) : bool :=
  let t := (PyFloat.of_Z n * 0.2)%float in
  let k := ((n + 4) / 5)%Z in
  PyFloat.Z_ltb (k - 1) t && negb (PyFloat.Z_ltb k t).

Lemma fifth_ok_checked :
  forallb fifth_ok (zrange (Z.to_nat max_checked_segments) 1) = true.
Proof. vm_compute. reflexivity. Qed.

(** The float test [failed < len(segments) * 0.2] decides
    [5 * failed < len(segments)]. *)
Lemma under_fifth (f : Z) (n : nat) :
  (1 <= Z.of_nat n <= max_checked_segments)%Z ->
  PyFloat.Z_ltb f (times n 0.2) = true <-> (5 * f < Z.of_nat n)%Z.
Proof.
  intros Hn.
  pose proof (proj1 (forallb_forall _ _) fifth_ok_checked (Z.of_nat n)) as C.
  unfold fifth_ok in C. cbv zeta in C.
  apply andb_true_iff in C; [|apply zrange_In; unfold max_checked_segments in *; lia].
  destruct C as [Below Above]. apply negb_true_iff in Above.
  unfold times.
  set (t := (PyFloat.of_Z (Z.of_nat n) * 0.2)%float) in *.
  set (k := ((Z.of_nat n + 4) / 5)%Z) in *.
  assert (Hk : (5 * (k - 1) < Z.of_nat n <= 5 * k)%Z).
  { subst k. pose proof (Z.div_mod (Z.of_nat n + 4) 5 ltac:(lia)).
    pose proof (Z.mod_pos_bound (Z.of_nat n + 4) 5 ltac:(lia)). lia. }
  split.
  - intros H. destruct (Z_lt_le_dec f k) as [?|Hge]; [lia|].
    rewrite (Z_ltb_mono k f t Hge H) in Above. discriminate.
  - intros H. apply (Z_ltb_mono f (k - 1) t); [lia | exact Below].
Qed.

(** What the stage reports for a segment: a blank text is a failure. *)
Definition reported_for (seg : segment) (result : segment_result) : Prop :=
  PyStr.strip (seg_text seg) = "" ->
  result = SegmentFailed (Some "Empty segment text") 0.

Section Stage.

Context (env : Env).

(** A segment whose text is blank is reported as failed, without any
    call to the service. *)
Lemma blank_segment_fails seg voice output_file target max_retries w :
  PyStr.strip (seg_text seg) = "" ->
  generate_segment_audio env seg voice output_file target max_retries w
  = (SegmentFailed (Some "Empty segment text") 0, w).
Proof. intros H. unfold generate_segment_audio. now rewrite H. Qed.

Lemma segments_loop_tally voice output_dir segments :
  forall i t w,
    tally_ok t ->
    let t' := fst (segments_loop env voice output_dir i segments t w) in
    tally_ok t' /\
    exists new,
      results t' = results t ++ new /\ Forall2 reported_for segments new.
Proof.
  induction segments as [|segment segments IH]; intros i t w Ht; cbn.
  - split; [assumption|]. exists []. rewrite app_nil_r. split; [reflexivity|constructor].
  - destruct (generate_segment_audio env segment voice _ _ 3 w)
      as [result w1] eqn:E.
    destruct (record_result_ok result t Ht) as [Ht1 Hr1].
    destruct (IH (S i) (record_result result t) w1 Ht1)
      as (Ht2 & new & Hres & Hall).
    split; [exact Ht2|].
    exists (result :: new). rewrite Hres, Hr1, <- app_assoc.
    split; [reflexivity|]. constructor; [|exact Hall].
    intros Hblank. rewrite (blank_segment_fails _ _ _ _ _ _ Hblank) in E.
    congruence.
Qed.

(** C6, as the code has it.  On a non-empty segment list (of at most
    100000 segments, the lengths for which the float product
    [len(segments) * 0.2] was evaluated) the stage reports one result
    per segment, in order, the result of a segment with a blank text
    being a failure; its [failed] count is the number of results that
    are not successes; and [success] holds exactly when strictly fewer
    than 20% of all the segments failed:
    [5 * failed < len(segments)]. *)
Theorem stage_success_iff_under_fifth_failed segments voice output_dir w :
  segments <> [] ->
  (Z.of_nat (length segments) <= max_checked_segments)%Z ->
  exists r w',
    generate_segments_audio env (inl segments) voice output_dir w
    = (SegmentsReport r, w') /\
    Forall2 reported_for segments (rep_segments r) /\
    rep_failed r = failures_in (rep_segments r) /\
    rep_successful r = successes_in (rep_segments r) /\
    (success r = true <->
     (5 * rep_failed r < Z.of_nat (length segments))%Z).
Proof.
  intros Hne Hmax. unfold generate_segments_audio.
  destruct segments as [|s0 rest]; [contradiction|].
  set (segments := s0 :: rest) in *.
  assert (T0 : tally_ok empty_tally) by (split; reflexivity).
  pose proof (segments_loop_tally voice output_dir segments 0 empty_tally w T0)
    as ([Hf Hs] & new & Hres & Hall).
  destruct (segments_loop env voice output_dir 0 segments empty_tally w)
    as [t w'] eqn:E.
  cbn [fst results empty_tally app] in *.
  eexists _, w'. split; [reflexivity|].
  cbn [rep_segments rep_failed rep_successful success].
  rewrite Hres in *.
  split; [exact Hall|]. split; [exact Hf|]. split; [exact Hs|].
  apply under_fifth. subst segments. cbn [length] in *. lia.
Qed.

End Stage.

(** A service that answers its first four calls and then goes down. *)
Definition env_four_then_down : Env :=
  {| edge_save := fun n _ =>
       if (n <? 4)%nat then Saved true 5000 1 else SaveRaises "down";
     gtts_save := fun _ _ => GttsRaises "unused";
     GTTS_AVAILABLE := false |}.

Definition plain_segment (id : Z) (text : string) : segment :=
  {| seg_id := id; seg_text := text; seg_start := PyFloat.of_Z id;
     seg_end := PyFloat.of_Z (id + 1); seg_duration := None |}.

Definition five_segments : list segment :=
  [ plain_segment 0 "one"; plain_segment 1 "two"; plain_segment 2 "three";
    plain_segment 3 "four"; plain_segment 4 "five" ].

Lemma stage_success_iff_under_fifth_failed_witness :
  exists r w',
    generate_segments_audio env_four_then_down (inl five_segments) "v" "out"
      initial_world = (SegmentsReport r, w') /\
    Forall2 reported_for five_segments (rep_segments r) /\
    rep_failed r = failures_in (rep_segments r) /\
    rep_successful r = successes_in (rep_segments r) /\
    (success r = true <-> (5 * rep_failed r < 5)%Z).
Proof.
  apply (stage_success_iff_under_fifth_failed env_four_then_down
           five_segments "v" "out" initial_world).
  - discriminate.
  - unfold max_checked_segments. cbn [length five_segments]. lia.
Defined.

(** A service that renders every request. *)
Definition env_always_up : Env :=
  {| edge_save := fun _ _ => Saved true 5000 1;
     gtts_save := fun _ _ => GttsRaises "unused";
     GTTS_AVAILABLE := false |}.

(** Four spoken segments and one whose text is white space. *)
Definition four_and_a_blank : list segment :=
  [ plain_segment 0 "one"; plain_segment 1 "two"; plain_segment 2 "   ";
    plain_segment 3 "four"; plain_segment 4 "five" ].

(** C6 as stated fails in two ways.  A blank segment counts: all four
    non-empty segments produce audio (100% of them), one segment out of
    five is blank, and the stage is reported as failed.  And the bound is
    strict: of five non-empty segments four produce audio (exactly 80%),
    and the stage is reported as failed. *)
Lemma four_of_five_is_not_success :
  let non_empty (l : list segment) :=
    List.filter (fun s => negb (String.eqb (PyStr.strip (seg_text s)) "")) l in
  match fst (generate_segments_audio env_always_up
               (inl four_and_a_blank) "v" "out" initial_world),
        fst (generate_segments_audio env_four_then_down
               (inl five_segments) "v" "out" initial_world) with
  | SegmentsReport blank, SegmentsReport down =>
      length (non_empty four_and_a_blank) = 4%nat /\
      successes_in (rep_segments blank) = 4%Z /\
      rep_failed blank = 1%Z /\
      success blank = false /\
      length (non_empty five_segments) = 5%nat /\
      successes_in (rep_segments down) = 4%Z /\
      (80 * 5 <= 100 * 4)%Z /\
      success down = false
  | _, _ => False
  end.
Proof. vm_compute. repeat split; discriminate. Qed.

(** ** Provider fallback *)

Section Fallback.

Context (env : Env).

(** The Edge loop touches the globals only when a pass succeeds, and
    never calls gTTS. *)
Lemma edge_attempts_globals call remaining :
  forall attempt last_error w,
    let '(produced, _, w') :=
      edge_attempts env call remaining attempt last_error w in
    gtts_log w' = gtts_log w /\
    match produced with
    | Some _ =>
        EDGE_TTS_CONSECUTIVE_FAILURES w' = 0%Z /\
        EDGE_TTS_WORKING w' = Some true
    | None =>
        EDGE_TTS_CONSECUTIVE_FAILURES w' = EDGE_TTS_CONSECUTIVE_FAILURES w /\
        EDGE_TTS_WORKING w' = EDGE_TTS_WORKING w
    end.
Proof.
  induction remaining as [|remaining IH]; intros attempt last_error w; cbn.
  - auto.
  - destruct (edge_save env (length (edge_log w)) call)
      as [e | file_exists file_size d].
    + exact (IH (S attempt) e _).
    + destruct file_exists; cbn [negb].
      * destruct (file_size <? 100)%Z.
        -- exact (IH (S attempt) _ _).
        -- cbn. auto.
      * exact (IH (S attempt) _ _).
Qed.




(** The per-segment function never reads or writes the counter and
    never calls gTTS. *)
Lemma attempt_segment_globals seg text voice output_file target attempt w :
  let w' := snd (attempt_segment env seg text voice output_file target
                   attempt w) in
  EDGE_TTS_CONSECUTIVE_FAILURES w' = EDGE_TTS_CONSECUTIVE_FAILURES w /\
  EDGE_TTS_WORKING w' = EDGE_TTS_WORKING w /\
  gtts_log w' = gtts_log w.
Proof.
  unfold attempt_segment, call_edge.
  repeat (match goal with
          | |- context [match ?x with _ => _ end] => destruct x
          end; cbn; auto).
Qed.

Lemma retry_segment_globals seg text voice output_file target max_retries
    remaining :
  forall attempt last_error w,
    let w' := snd (retry_segment env seg text voice output_file target
                     max_retries remaining attempt last_error w) in
    EDGE_TTS_CONSECUTIVE_FAILURES w' = EDGE_TTS_CONSECUTIVE_FAILURES w /\
    EDGE_TTS_WORKING w' = EDGE_TTS_WORKING w /\
    gtts_log w' = gtts_log w.
Proof.
  induction remaining as [|remaining IH]; intros attempt last_error w;
    cbn [retry_segment].
  - cbn. auto.
  - pose proof (attempt_segment_globals seg text voice output_file target
                  attempt w) as A.
    destruct (attempt_segment env seg text voice output_file target attempt w)
      as [[r|e] w1]; cbn [snd] in *.
    + exact A.
    + destruct A as (A1 & A2 & A3).
      destruct (IH (S attempt) (Some e) w1) as (B1 & B2 & B3).
      rewrite B1, B2, B3. auto.
Qed.

Lemma generate_segment_audio_globals seg voice output_file target max_retries w :
  let w' := snd (generate_segment_audio env seg voice output_file target
                   max_retries w) in
  EDGE_TTS_CONSECUTIVE_FAILURES w' = EDGE_TTS_CONSECUTIVE_FAILURES w /\
  EDGE_TTS_WORKING w' = EDGE_TTS_WORKING w /\
  gtts_log w' = gtts_log w.
Proof.
  unfold generate_segment_audio.
  destruct (PyStr.strip (seg_text seg)) as [|c text']; [cbn; auto|].
  apply retry_segment_globals.
Qed.

End Fallback.






End EdgeTtsDubProps.

(** * Properties of [src/server/tts/segment_assembler.py] *)

Module SegmentAssemblerProps.
Import SegmentAssembler PyFloatProps.

(** ** The order in which the segments are processed *)

(** [b] does not start before [a]. *)
Definition not_before (a b : tts_segment) : Prop :=
  (start b <? start a)%float = false.

Definition starts_at (k : float) (s : tts_segment) : bool :=
  (start s =? k)%float.

Lemma insert_by_start_perm x l : Permutation (insert_by_start x l) (x :: l).
Proof.
  induction l as [|y l IH]; cbn [insert_by_start]; [reflexivity|].
  destruct (start y <? start x)%float; [|reflexivity].
  rewrite IH. apply perm_swap.
Qed.

Lemma sorted_by_start_perm l : Permutation (sorted_by_start l) l.
Proof.
  induction l as [|x l IH]; [reflexivity|].
  cbn [sorted_by_start fold_right]. fold (sorted_by_start l).
  rewrite insert_by_start_perm. now constructor.
Qed.

Lemma insert_by_start_head x l :
  insert_by_start x l = x :: l \/
  exists y l', l = y :: l' /\ (start y <? start x)%float = true /\
               insert_by_start x l = y :: insert_by_start x l'.
Proof.
  destruct l as [|y l]; [now left|]. cbn [insert_by_start].
  destruct (start y <? start x)%float eqn:E; [|now left].
  right. exists y, l. auto.
Qed.

Lemma insert_by_start_sorted x l :
  Sorted not_before l -> Sorted not_before (insert_by_start x l).
Proof.
  induction l as [|y l IH]; intros S; cbn [insert_by_start].
  - repeat constructor.
  - destruct (start y <? start x)%float eqn:E.
    + inversion S as [|? ? S' Hd]; subst. constructor; [now apply IH|].
      destruct (insert_by_start_head x l) as [->|(y' & l' & -> & _ & ->)].
      * constructor. unfold not_before. now apply ltb_asym.
      * inversion Hd; subst. now constructor.
    + constructor; [exact S|]. constructor. exact E.
Qed.

Lemma sorted_by_start_sorted l : Sorted not_before (sorted_by_start l).
Proof.
  induction l as [|x l IH]; [constructor|].
  cbn [sorted_by_start fold_right]. now apply insert_by_start_sorted.
Qed.

Lemma insert_by_start_stable k x l :
  List.filter (starts_at k) (insert_by_start x l)
  = List.filter (starts_at k) (x :: l).
Proof.
  induction l as [|y l IH]; [reflexivity|]. cbn [insert_by_start].
  destruct (start y <? start x)%float eqn:E; [|reflexivity].
  cbn [List.filter] in *. rewrite IH.
  destruct (starts_at k x) eqn:Ex; [|reflexivity].
  unfold starts_at in *. now rewrite (ltb_eqb _ _ _ E Ex).
Qed.

Lemma sorted_by_start_stable k l :
  List.filter (starts_at k) (sorted_by_start l) = List.filter (starts_at k) l.
Proof.
  induction l as [|x l IH]; [reflexivity|].
  cbn [sorted_by_start fold_right]. fold (sorted_by_start l).
  rewrite insert_by_start_stable. cbn [List.filter]. now rewrite IH.
Qed.

(** ** The timeline, as the specification words it *)

(** What the loop appends for a segment whose clip exists. *)
Definition placed_clip (env : Env) (i : nat) (seg : tts_segment) : piece :=
  let target := (end_ seg - start seg)%float in
  if (0.3 <? abs (get_audio_duration env (audio_path seg) - target))%float
  then
    if fst (adjust_segment_speed env (audio_path seg)
              (temp_file env "adjusted_" i) target)
    then AdjustedFile (temp_file env "adjusted_" i) (audio_path seg) target
    else ClipFile (audio_path seg)
  else ClipFile (audio_path seg).

(** A silence of the given duration, provided its file could be
    generated. *)
Definition silence (env : Env) (sample_rate : Z) (duration : float)
    (path : string) : list piece :=
  if ffmpeg_anullsrc env duration path sample_rate
  then [SilenceFile path duration] else [].

(** Cursor [t], segments in order: a silence of [start - t] when the
    segment starts after the cursor, then the clip, or a silence of
    [end - start] when the clip is missing, and the cursor moves to the
    segment's end. *)
Fixpoint spec_timeline (env : Env) (sample_rate : Z) (t : float) (i : nat)
    (segs : list tts_segment) : list piece :=
  match segs with
  | [] => []
  | s :: segs' =>
      (if (t <? start s)%float
       then silence env sample_rate (start s - t)%float
              (temp_file env "silence_" i)
       else [])
      ++ (if os_path_exists env (audio_path s)
          then [placed_clip env i s]
          else silence env sample_rate (end_ s - start s)%float
                 (temp_file env "gap_" i))
      ++ spec_timeline env sample_rate (end_ s) (S i) segs'
  end.

(** The cursor after the segments: the end of the last one. *)
Fixpoint last_end (t : float) (segs : list tts_segment) : float :=
  match segs with
  | [] => t
  | s :: segs' => last_end (end_ s) segs'
  end.

Definition spec_trailing (env : Env) (sample_rate : Z)
    (t total_duration : float) : list piece :=
  if (t <? total_duration)%float
  then silence env sample_rate (total_duration - t)%float
         (PyOs.path_join (temp_dir env) "final_silence.mp3")
  else [].

Section Timeline.

Context (env : Env) (sample_rate : Z).

(** In every case the cursor ends at the segment's end. *)
Lemma place_segment_cursor i seg c :
  current_time (place_segment env sample_rate i seg c) = end_ seg.
Proof.
  unfold place_segment.
  destruct (current_time c <? start seg)%float;
    destruct (os_path_exists env (audio_path seg));
    try destruct (0.3 <? _)%float;
    try destruct (adjust_segment_speed env _ _ _); reflexivity.
Qed.

Lemma place_segment_files i seg c :
  segment_files (place_segment env sample_rate i seg c)
  = segment_files c
    ++ spec_timeline env sample_rate (current_time c) i [seg].
Proof.
  unfold place_segment, spec_timeline, placed_clip, silence, generate_silence.
  rewrite app_nil_r.
  destruct (current_time c <? start seg)%float;
    [destruct (ffmpeg_anullsrc env _ (temp_file env "silence_" i) _)|];
    (destruct (os_path_exists env (audio_path seg));
     [destruct (0.3 <? _)%float;
      [destruct (adjust_segment_speed env _ _ _) as [[|] log]|]
     |destruct (ffmpeg_anullsrc env _ (temp_file env "gap_" i) _)]);
    cbn; rewrite <- ?app_assoc, ?app_nil_r; reflexivity.
Qed.

Lemma place_segments_timeline segs :
  forall i c,
    let c' := place_segments env sample_rate i segs c in
    segment_files c'
    = segment_files c
      ++ spec_timeline env sample_rate (current_time c) i segs /\
    current_time c' = last_end (current_time c) segs.
Proof.
  induction segs as [|seg segs IH]; intros i c; cbn [place_segments].
  - cbn. now rewrite app_nil_r.
  - destruct (IH (S i) (place_segment env sample_rate i seg c)) as [Hf Ht].
    cbv zeta. rewrite Hf, Ht, place_segment_cursor, place_segment_files.
    split; [|reflexivity].
    cbn [spec_timeline]. rewrite app_nil_r, <- !app_assoc. reflexivity.
Qed.

End Timeline.

Lemma insert_by_start_cons x l : exists y l', insert_by_start x l = y :: l'.
Proof.
  destruct l as [|y l]; cbn; [eauto|]. destruct (_ <? _)%float; eauto.
Qed.

Lemma sorted_by_start_cons x l : exists y l', sorted_by_start (x :: l) = y :: l'.
Proof. apply insert_by_start_cons. Qed.

(** A start that is a number, not a NaN. *)
Definition starts_at_a_number (s : tts_segment) : Prop :=
  (start s =? start s)%float = true.

(** C1, as the code has it.  The starts being numbers, the segments are
    processed in a stable order by start: a permutation of the given list
    in which no segment starts before its predecessor and segments with
    the same start keep their order.  For a non-empty list the sequence handed to the
    concatenation is the specification's timeline over those segments,
    from cursor 0, in which every silence is present exactly when its
    own file could be generated, followed by the trailing silence (under
    the same condition) when the final cursor is below
    [total_duration]; nothing is handed over when that sequence is
    empty; and processing a segment always leaves the cursor at that
    segment's end.  For an empty list the function returns at once. *)
Theorem assembly_follows_timeline env sample_rate tts_segments
    total_duration output_path :
  tts_segments <> [] ->
  Forall starts_at_a_number tts_segments ->
  let sorted := sorted_by_start tts_segments in
  let timeline :=
    spec_timeline env sample_rate 0 0 sorted
    ++ spec_trailing env sample_rate (last_end 0 sorted) total_duration in
  Permutation sorted tts_segments /\
  Sorted not_before sorted /\
  (forall k, List.filter (starts_at k) sorted
             = List.filter (starts_at k) tts_segments) /\
  snd (fst (assemble_segments_with_timing env tts_segments total_duration
              output_path sample_rate))
  = match timeline with [] => None | _ => Some timeline end /\
  (forall i seg c,
     current_time (place_segment env sample_rate i seg c) = end_ seg) /\
  assemble_segments_with_timing env [] total_duration output_path sample_rate
  = (AssembleError "No segments provided", None, []).
Proof.
  intros Hne _ sorted timeline.
  split; [apply sorted_by_start_perm|].
  split; [apply sorted_by_start_sorted|].
  split; [intros k; apply sorted_by_start_stable|].
  split; [|split; [apply place_segment_cursor | reflexivity]].
  unfold assemble_segments_with_timing.
  destruct tts_segments as [|s0 rest]; [contradiction|].
  fold sorted.
  destruct (place_segments_timeline env sample_rate sorted 0%nat
              {| segment_files := []; current_time := 0; stretch_log := [] |})
    as [Hf Ht].
  cbn [segment_files current_time app] in Hf, Ht.
  set (c := place_segments env sample_rate 0 sorted _) in *.
  assert (Hclose : close_timeline env total_duration sample_rate c = timeline).
  { unfold close_timeline, timeline, spec_trailing, silence, generate_silence.
    rewrite Hf, Ht.
    destruct (_ <? _)%float; [|now rewrite app_nil_r].
    destruct (ffmpeg_anullsrc env _ _ _); [reflexivity | now rewrite app_nil_r]. }
  rewrite Hclose.
  destruct timeline as [|p ps]; [reflexivity|].
  destruct (ffmpeg_concat env _ output_path); reflexivity.
Qed.

(** A gap before the second clip whose silence cannot be generated, a
    trailing silence that can. *)
Definition env_fitting : Env :=
  {| HAS_RUBBERBAND := true; temp_dir := "/tmp/sa";
     os_path_exists := fun _ => true;
     ffprobe_duration := fun _ => 2%float;
     ffmpeg_anullsrc := fun _ path _ =>
       String.eqb path "/tmp/sa/final_silence.mp3";
     sf_read_duration := fun _ => Some 2%float;
     pyrb_time_stretch := fun _ _ => true;
     sf_write := fun _ => true;
     ffmpeg_encode := fun _ _ => true;
     ffmpeg_atempo := fun _ _ _ => true;
     ffmpeg_concat := fun _ _ => true |}.

Definition hello_world : list tts_segment :=
  [ {| audio_path := "world.mp3"; start := 5; end_ := 7 |};
    {| audio_path := "hello.mp3"; start := 0; end_ := 2 |} ].

Lemma assembly_follows_timeline_witness :
  sorted_by_start hello_world
  = [ {| audio_path := "hello.mp3"; start := 0; end_ := 2 |};
      {| audio_path := "world.mp3"; start := 5; end_ := 7 |} ] /\
  snd (fst (assemble_segments_with_timing env_fitting hello_world 10
              "out.mp3" 44100))
  = Some [ ClipFile "hello.mp3"; ClipFile "world.mp3";
           SilenceFile "/tmp/sa/final_silence.mp3" 3 ].
Proof.
  destruct (assembly_follows_timeline env_fitting 44100 hello_world 10
              "out.mp3") as (_ & _ & _ & H & _).
  - discriminate.
  - repeat constructor.
  - split; [reflexivity | exact H].
Defined.

(** Every tool succeeds. *)
Definition env_all_silences : Env :=
  {| HAS_RUBBERBAND := true; temp_dir := "/tmp/sa";
     os_path_exists := fun _ => true;
     ffprobe_duration := fun _ => 2%float;
     ffmpeg_anullsrc := fun _ _ _ => true;
     sf_read_duration := fun _ => Some 2%float;
     pyrb_time_stretch := fun _ _ => true;
     sf_write := fun _ => true;
     ffmpeg_encode := fun _ _ => true;
     ffmpeg_atempo := fun _ _ _ => true;
     ffmpeg_concat := fun _ _ => true |}.

(** The same tools, except that no silence file can be generated. *)
Definition env_no_silence : Env :=
  {| HAS_RUBBERBAND := true; temp_dir := "/tmp/sa";
     os_path_exists := fun _ => true;
     ffprobe_duration := fun _ => 2%float;
     ffmpeg_anullsrc := fun _ _ _ => false;
     sf_read_duration := fun _ => Some 2%float;
     pyrb_time_stretch := fun _ _ => true;
     sf_write := fun _ => true;
     ffmpeg_encode := fun _ _ => true;
     ffmpeg_atempo := fun _ _ _ => true;
     ffmpeg_concat := fun _ _ => true |}.

(** C1 as stated fails in two ways.  With no segment the cursor 0 is below
    the total duration, yet the function returns an error before any
    silence is generated and nothing is handed to the concatenation.
    And a silence is appended only when its file could be generated:
    with working tools the gap and the tail are filled, otherwise the
    clip that starts at 5 follows the clip that ends at 2 directly, and
    nothing trails the last clip. *)
Lemma silence_is_not_always_appended :
  assemble_segments_with_timing env_all_silences [] 10 "out.mp3" 44100
  = (AssembleError "No segments provided", None, []) /\
  snd (fst (assemble_segments_with_timing env_all_silences hello_world 10
              "out.mp3" 44100))
  = Some [ ClipFile "hello.mp3"; SilenceFile "/tmp/sa/silence_0001.mp3" 3;
           ClipFile "world.mp3"; SilenceFile "/tmp/sa/final_silence.mp3" 3 ] /\
  snd (fst (assemble_segments_with_timing env_no_silence hello_world 10
              "out.mp3" 44100))
  = Some [ClipFile "hello.mp3"; ClipFile "world.mp3"].
Proof. repeat split; reflexivity. Qed.

(** ** Stretching *)






Definition temp_wav (output : string) : string :=
  PyStr.replace ".mp3" "_temp.wav" output.






Section Stretch.

Context (env : Env).









End Stretch.

(** A clip three times too long for its slot; every tool succeeds. *)
Definition env_long_clip : Env :=
  {| HAS_RUBBERBAND := true; temp_dir := "/tmp/sa";
     os_path_exists := fun _ => true;
     ffprobe_duration := fun _ => 6%float;
     ffmpeg_anullsrc := fun _ _ _ => true;
     sf_read_duration := fun _ => Some 6%float;
     pyrb_time_stretch := fun _ _ => true;
     sf_write := fun _ => true;
     ffmpeg_encode := fun _ _ => true;
     ffmpeg_atempo := fun _ _ _ => true;
     ffmpeg_concat := fun _ _ => true |}.




End SegmentAssemblerProps.

(** * Properties of [src/server/tts/translate.py] *)

Module TranslateProps.
Import Translate PyStrProps.

(** ** Strings *)

(** A string that [strip] leaves alone has no white space at its ends. *)
Lemma stripped_ends c a :
  PyStr.strip (String c a) = String c a ->
  PyStr.isspace c = false /\ PyStr.rstrip (String c a) = String c a.
Proof.
  unfold PyStr.strip. cbn [PyStr.lstrip].
  destruct (PyStr.isspace c) eqn:E; [|auto].
  intros H. exfalso.
  pose proof (rstrip_length (PyStr.lstrip a)) as R.
  pose proof (lstrip_length a) as L.
  rewrite H in R. cbn [String.length] in R. lia.
Qed.

Lemma rstrip_app_space a c :
  PyStr.isspace c = true ->
  PyStr.rstrip (a +:+ String c "") = PyStr.rstrip a.
Proof.
  intros Hc. induction a as [|x a IH].
  - rewrite app_empty. cbn [PyStr.rstrip]. now rewrite Hc.
  - rewrite app_cons. cbn [PyStr.rstrip]. now rewrite IH.
Qed.

Fixpoint digits_only (s : string) : bool :=
  match s with
  | EmptyString => true
  | String c s' => PyStr.isdigit c && digits_only s'
  end.

(** No character of [s] is [c]. *)
Fixpoint free_of (c : ascii) (s : string) : bool :=
  match s with
  | EmptyString => true
  | String x s' => negb (Ascii.eqb x c) && free_of c s'
  end.

Lemma string_of_uint_digits u : digits_only (NilEmpty.string_of_uint u) = true.
Proof. induction u; cbn [NilEmpty.string_of_uint digits_only]; auto. Qed.

(** A printed index [i + 1] is a non-empty string of digits. *)
Lemma printed_index (i : nat) :
  exists c ds,
    PyNum.str_of_int (Z.of_nat (i + 1)) = String c ds /\
    PyStr.isdigit c = true /\ digits_only ds = true.
Proof.
  unfold PyNum.str_of_int.
  replace (Z.of_nat (i + 1)) with (Z.pos (Pos.of_succ_nat i)) by lia.
  cbn [Z.to_int NilEmpty.string_of_int].
  pose proof (string_of_uint_digits (Pos.to_uint (Pos.of_succ_nat i))) as D.
  pose proof (Unsigned.to_uint_nonnil (Pos.of_succ_nat i)) as N.
  destruct (Pos.to_uint (Pos.of_succ_nat i)) as [|u|u|u|u|u|u|u|u|u|u];
    [contradiction|..]; cbn [NilEmpty.string_of_uint digits_only] in *;
    eexists _, _; (split; [reflexivity|]); split; auto;
    apply andb_true_iff in D; apply D.
Qed.

Lemma skip_digits_app ds rest :
  digits_only ds = true ->
  skip_digits (ds +:+ String "]" rest) = String "]" rest.
Proof.
  induction ds as [|c ds IH]; intros H; [reflexivity|].
  cbn [digits_only] in H. apply andb_true_iff in H. destruct H as [Hc Hds].
  rewrite app_cons. cbn [skip_digits]. rewrite Hc. now apply IH.
Qed.

(** [\[\d+\]] matches a bracketed string of digits and nothing that
    does not begin with a bracket. *)
Lemma match_index_digits c ds rest :
  PyStr.isdigit c = true -> digits_only ds = true ->
  match_index ("[" +:+ String c ds +:+ String "]" rest) = Some rest.
Proof.
  intros Hc Hds.
  change ("[" +:+ String c ds +:+ String "]" rest)
    with (String "[" (String c (ds +:+ String "]" rest))).
  cbn [match_index]. rewrite Hc.
  change (String c (ds +:+ String "]" rest))
    with (String c ds +:+ String "]" rest).
  rewrite skip_digits_app; [reflexivity|].
  cbn [digits_only]. now rewrite Hc, Hds.
Qed.

Lemma match_index_other c s :
  Ascii.eqb c "[" = false -> match_index (String c s) = None.
Proof.
  intros H. unfold match_index.
  destruct c as [[] [] [] [] [] [] [] []]; try reflexivity. discriminate.
Qed.

(** ** Reading the numbered answer *)

(** A translation that the numbered format carries unchanged: not empty,
    no white space at its ends, no opening bracket. *)
Definition clean (a : string) : Prop :=
  a <> "" /\ PyStr.strip a = a /\ free_of "[" a = true.

Lemma lookahead_inside x v t :
  Ascii.eqb x "[" = false ->
  (v +:+ t = "" -> Ascii.eqb x LF = false) ->
  lookahead (String x v +:+ t) = false.
Proof.
  intros Hx Hend. rewrite app_cons. unfold lookahead.
  rewrite (match_index_other _ _ Hx). cbn [at_dollar].
  destruct (v +:+ t); [now apply Hend | reflexivity].
Qed.

(** The lazy group takes everything up to the first place where the
    lookahead holds. *)
Lemma lazy_group_until u t :
  u <> "" -> free_of "[" u = true -> lookahead t = true ->
  (t = "" -> last_char u <> Some LF) ->
  lazy_group (u +:+ t) = Some (u, t).
Proof.
  induction u as [|c u IH]; intros Hne Hfree Hlook Hlast; [contradiction|].
  rewrite app_cons. cbn [lazy_group].
  cbn [free_of] in Hfree. apply andb_true_iff in Hfree.
  destruct Hfree as [_ Hfree].
  destruct u as [|x u'].
  - rewrite app_empty, Hlook. reflexivity.
  - assert (Hx : Ascii.eqb x "[" = false).
    { cbn [free_of] in Hfree. apply andb_true_iff in Hfree.
      now apply negb_true_iff. }
    rewrite lookahead_inside; [|exact Hx|].
    + rewrite IH; [reflexivity | discriminate | exact Hfree | exact Hlook|].
      intros Ht. specialize (Hlast Ht). exact Hlast.
    + intros Hempty. destruct u' as [|y u'']; [|discriminate].
      rewrite app_empty in Hempty. specialize (Hlast Hempty).
      cbn [last_char] in Hlast.
      destruct (Ascii.eqb_spec x LF) as [->|]; [contradiction | reflexivity].
Qed.

Definition numbered (i : nat) (seg : string) : string :=
  "[" +:+ PyNum.str_of_int (Z.of_nat (i + 1)) +:+ "] " +:+ seg.

Lemma match_index_numbered i seg :
  match_index (numbered i seg) = Some (String " " seg).
Proof.
  unfold numbered.
  destruct (printed_index i) as (c & ds & -> & Hc & Hds).
  exact (match_index_digits c ds (String " " seg) Hc Hds).
Qed.

Lemma lookahead_numbered i seg : lookahead (numbered i seg) = true.
Proof. unfold lookahead. now rewrite match_index_numbered. Qed.

Lemma match_item_numbered i x u t :
  PyStr.isspace x = false -> free_of "[" (String x u) = true ->
  lookahead t = true ->
  (t = "" -> last_char (String x u) <> Some LF) ->
  match_item (numbered i (String x u +:+ t)) = Some (String x u, t).
Proof.
  intros Hx Hfree Hlook Hlast. unfold match_item.
  rewrite match_index_numbered.
  change (PyStr.lstrip (String " " (String x u +:+ t)))
    with (PyStr.lstrip (String x u +:+ t)).
  rewrite app_cons. cbn [PyStr.lstrip]. rewrite Hx.
  rewrite <- app_cons. now apply lazy_group_until.
Qed.

Lemma findall_skip w r :
  findall_from (String.length w) (w +:+ r) = findall_from 0 r.
Proof.
  induction w as [|c w IH]; [reflexivity|].
  rewrite app_cons. cbn [String.length findall_from]. exact IH.
Qed.

Lemma numbered_app i seg t : numbered i (seg +:+ t) = numbered i seg +:+ t.
Proof. unfold numbered. now rewrite !app_assoc_s. Qed.

Lemma findall_numbered i x u t :
  PyStr.isspace x = false -> free_of "[" (String x u) = true ->
  lookahead t = true ->
  (t = "" -> last_char (String x u) <> Some LF) ->
  findall_from 0 (numbered i (String x u +:+ t))
  = String x u :: findall_from 0 t.
Proof.
  intros Hx Hfree Hlook Hlast.
  pose proof (match_item_numbered i x u t Hx Hfree Hlook Hlast) as M.
  rewrite numbered_app in *.
  remember (numbered i (String x u)) as w eqn:Hw.
  assert (Hhead : exists w', w = String "[" w').
  { subst w. unfold numbered. eexists. reflexivity. }
  destruct Hhead as [w' ->]. rewrite app_cons in *.
  cbn [findall_from]. rewrite M. f_equal.
  cbn [String.length]. rewrite length_app_s.
  replace (S (String.length w' + String.length t) - String.length t - 1)%nat
    with (String.length w') by lia.
  apply findall_skip.
Qed.

(** The numbered text of the items, the first index being [k + 1]. *)
Definition numbered_from (k : nat) (items : list string) : string :=
  join (String LF EmptyString)
    (map (fun '(i, seg) => numbered i seg) (enumerate_from k items)).

Lemma numbered_text_from items : numbered_text items = numbered_from 0 items.
Proof. reflexivity. Qed.

Lemma numbered_from_cons k a b items :
  numbered_from k (a :: b :: items)
  = numbered k (a +:+ String LF "") +:+ numbered_from (S k) (b :: items).
Proof.
  unfold numbered_from. cbn [enumerate_from map join].
  rewrite numbered_app, app_assoc_s. reflexivity.
Qed.

Lemma lookahead_numbered_from k a items :
  lookahead (numbered_from k (a :: items)) = true.
Proof.
  destruct items as [|b items].
  - apply lookahead_numbered.
  - unfold numbered_from. cbn [enumerate_from map join].
    rewrite <- numbered_app. apply lookahead_numbered.
Qed.

Lemma clean_head a :
  clean a ->
  exists x u, a = String x u /\ PyStr.isspace x = false /\
              PyStr.rstrip a = a /\ free_of "[" a = true.
Proof.
  intros (Hne & Hstrip & Hfree). destruct a as [|x u]; [contradiction|].
  destruct (stripped_ends x u Hstrip) as [Hx Hr]. exists x, u. auto.
Qed.

Lemma free_of_app c a b :
  free_of c (a +:+ b) = free_of c a && free_of c b.
Proof.
  induction a as [|x a IH]; [reflexivity|].
  rewrite app_cons. cbn [free_of]. now rewrite IH, andb_assoc.
Qed.

Lemma rstrip_last a : PyStr.rstrip a = a -> last_char a <> Some LF.
Proof.
  induction a as [|c a IH]; [discriminate|].
  cbn [PyStr.rstrip last_char]. destruct a as [|x a'].
  - cbn [PyStr.rstrip]. destruct (PyStr.isspace c) eqn:E; [discriminate|].
    intros _ [= ->]. discriminate.
  - intros H. apply IH.
    destruct (PyStr.rstrip (String x a')) as [|y r] eqn:R.
    + destruct (PyStr.isspace c); discriminate.
    + congruence.
Qed.

Lemma strip_line a :
  clean a -> PyStr.strip (a +:+ String LF "") = a.
Proof.
  intros C. destruct (clean_head a C) as (x & u & -> & Hx & Hr & _).
  unfold PyStr.strip. rewrite app_cons. cbn [PyStr.lstrip]. rewrite Hx.
  rewrite <- app_cons, rstrip_app_space; [exact Hr | reflexivity].
Qed.

(** Round trip: the numbered items of the numbered text of clean items
    are the items. *)
Lemma numbered_items_numbered_from items :
  Forall clean items ->
  forall k, numbered_items (numbered_from k items) = items.
Proof.
  unfold numbered_items.
  induction items as [|a items IH]; intros C k; [reflexivity|].
  inversion C as [|? ? Ca Citems]; subst.
  destruct (clean_head a Ca) as (x & u & -> & Hx & Hr & Hfree).
  destruct items as [|b items].
  - unfold numbered_from. cbn [enumerate_from map join].
    rewrite <- (app_empty_r (String x u)) at 1.
    rewrite findall_numbered; auto.
    + cbn [findall_from map]. now destruct Ca as (_ & -> & _).
    + intros _. now apply rstrip_last.
  - rewrite numbered_from_cons.
    assert (E : numbered k (String x u +:+ String LF "")
                +:+ numbered_from (S k) (b :: items)
                = numbered k (String x (u +:+ String LF "")
                              +:+ numbered_from (S k) (b :: items))).
    { rewrite <- numbered_app. reflexivity. }
    rewrite E, findall_numbered.
    + cbn [map]. rewrite IH by assumption.
      change (String x (u +:+ String LF ""))
        with (String x u +:+ String LF "").
      now rewrite strip_line.
    + exact Hx.
    + change (String x (u +:+ String LF ""))
        with (String x u +:+ String LF "").
      rewrite free_of_app, Hfree. reflexivity.
    + apply lookahead_numbered_from.
    + intros E0. exfalso. revert E0. unfold numbered_from.
      cbn [enumerate_from map join]. unfold numbered.
      destruct items; discriminate.
Qed.

Lemma rstrip_app a b :
  PyStr.rstrip b <> "" -> PyStr.rstrip (a +:+ b) = a +:+ PyStr.rstrip b.
Proof.
  intros Hb. induction a as [|c a IH]; [reflexivity|].
  rewrite !app_cons. cbn [PyStr.rstrip]. rewrite IH.
  destruct (a +:+ PyStr.rstrip b) as [|y r] eqn:E; [|reflexivity].
  destruct a; [|discriminate]. rewrite app_empty in E. contradiction.
Qed.

Lemma numbered_from_stripped items :
  Forall clean items ->
  forall k, PyStr.strip (numbered_from k items) = numbered_from k items.
Proof.
  intros C k.
  assert (R : items <> [] ->
              PyStr.rstrip (numbered_from k items) = numbered_from k items /\
              numbered_from k items <> "").
  { revert k. induction items as [|a items IH]; intros k Hne; [contradiction|].
    inversion C as [|? ? Ca Citems]; subst.
    destruct (clean_head a Ca) as (x & u & -> & Hx & Hr & Hfree).
    destruct items as [|b items].
    - unfold numbered_from. cbn [enumerate_from map join].
      split; [|unfold numbered; discriminate].
      unfold numbered. rewrite <- !app_assoc_s, rstrip_app; rewrite Hr;
        [reflexivity | discriminate].
    - rewrite numbered_from_cons.
      destruct (IH Citems (S k) ltac:(discriminate)) as [Hr' Hne'].
      split; [|unfold numbered; discriminate].
      rewrite rstrip_app; rewrite Hr'; [reflexivity | exact Hne']. }
  destruct items as [|a items]; [reflexivity|].
  destruct (R ltac:(discriminate)) as [Hr _].
  unfold PyStr.strip.
  assert (L : PyStr.lstrip (numbered_from k (a :: items))
              = numbered_from k (a :: items)).
  { unfold numbered_from. cbn [enumerate_from map join].
    destruct (map _ (enumerate_from (S k) items)); reflexivity. }
  now rewrite L.
Qed.

(** The prefix that the fallback removes from a line: a bracketed index
    and the white space after it; a line that does not begin with a
    bracket is left alone. *)
Lemma strip_index_digits c ds rest :
  PyStr.isdigit c = true -> digits_only ds = true ->
  strip_index ("[" +:+ String c ds +:+ String "]" rest) = PyStr.lstrip rest.
Proof.
  intros Hc Hds. unfold strip_index.
  now rewrite (match_index_digits c ds rest Hc Hds).
Qed.

Lemma strip_index_other c s :
  Ascii.eqb c "[" = false -> strip_index (String c s) = String c s.
Proof. intros H. unfold strip_index. now rewrite match_index_other. Qed.

(** The lines of a text: joined by newlines they give the text back, and
    none of them holds a newline. *)
Lemma split_cons s : exists w ws, PyStr.split LF s = w :: ws.
Proof.
  induction s as [|c s (w & ws & IH)]; cbn [PyStr.split]; [eauto|].
  destruct (Ascii.eqb c LF); [eauto|]. rewrite IH. eauto.
Qed.

Lemma join_cons sep x y l :
  join sep (x :: y :: l) = x +:+ sep +:+ join sep (y :: l).
Proof. reflexivity. Qed.

Lemma join_split s : join (String LF "") (PyStr.split LF s) = s.
Proof.
  induction s as [|c s IH]; [reflexivity|]. cbn [PyStr.split].
  destruct (split_cons s) as (w & ws & E). rewrite E in *.
  destruct (Ascii.eqb_spec c LF) as [->|_].
  - rewrite join_cons, IH. reflexivity.
  - destruct ws as [|w' ws].
    + cbn [join] in *. now rewrite IH.
    + rewrite join_cons in *. rewrite app_cons. now rewrite IH.
Qed.

Lemma split_lines s : Forall (fun l => free_of LF l = true) (PyStr.split LF s).
Proof.
  induction s as [|c s IH]; cbn [PyStr.split]; [repeat constructor|].
  destruct (Ascii.eqb c LF) eqn:E; [constructor; [reflexivity | exact IH]|].
  destruct (PyStr.split LF s) as [|w ws].
  - constructor; [|constructor]. cbn [free_of]. now rewrite E.
  - inversion IH; subst. constructor; [|assumption].
    cbn [free_of]. rewrite E. assumption.
Qed.

Lemma parse_translations_numbered n result_text :
  length (numbered_items result_text) = n ->
  parse_translations n result_text = numbered_items result_text.
Proof.
  intros H. unfold parse_translations.
  now rewrite (proj2 (Nat.eqb_eq _ _) H).
Qed.

Lemma parse_translations_fallback n result_text :
  length (numbered_items result_text) <> n ->
  parse_translations n result_text = split_lines_fallback result_text.
Proof.
  intros H. unfold parse_translations.
  now rewrite (proj2 (Nat.eqb_neq _ _) H).
Qed.

Section Requests.

Context (env : Env).

(** A request list that is answered is answered by one of the requests
    of the retry loop, and the translations are read from that
    answer. *)
Lemma request_loop_answered segments remaining :
  forall last_error calls translations calls',
    request_loop env segments remaining last_error calls
    = (TranslateOk translations, calls') ->
    exists answer,
      (calls < calls' <= calls + remaining)%nat /\
      urlopen env (calls' - 1) (numbered_text segments) = Content answer /\
      translations
      = parse_translations (length segments) (PyStr.strip answer).
Proof.
  induction remaining as [|remaining IH];
    intros last_error calls translations calls'; cbn [request_loop].
  - discriminate.
  - destruct (urlopen env calls (numbered_text segments))
      as [code reason|reason|message|answer] eqn:E.
    + destruct (_ || _); [|discriminate].
      intros H. destruct (IH _ _ _ _ H) as (answer & Hc & Ha & Ht).
      exists answer. split; [lia | auto].
    + intros H. destruct (IH _ _ _ _ H) as (answer & Hc & Ha & Ht).
      exists answer. split; [lia | auto].
    + discriminate.
    + intros [= <- <-]. exists answer.
      replace (S calls - 1)%nat with calls by lia.
      split; [lia | auto].
Qed.

(** C4, as the code has it.  Whenever [translate_segments] succeeds,
    one request of its retry loop was answered with a text, and the
    translations are read from that stripped answer: its [n]-prefixed
    items when there are as many as input segments; otherwise its
    non-blank lines, stripped and without their bracketed index, one
    translation per non-blank line, whatever the number of input
    segments.  On an answer in the numbered format that carries as
    many clean items as there are segments, the translations are those
    items.  The line fallback removes a bracketed index with the white
    space after it and leaves other lines alone, the lines being the
    pieces of the text between newlines. *)
Theorem translate_segments_count segments max_retries calls
    translations calls' :
  translate_segments env segments max_retries calls
  = (TranslateOk translations, calls') ->
  exists answer,
    (calls < calls' <= calls + max_retries)%nat /\
    urlopen env (calls' - 1) (numbered_text segments) = Content answer /\
    let result_text := PyStr.strip answer in
    (length (numbered_items result_text) = length segments ->
       translations = numbered_items result_text /\
       length translations = length segments) /\
    (length (numbered_items result_text) <> length segments ->
       translations
       = map strip_index
           (map PyStr.strip
              (List.filter nonblank (PyStr.split LF result_text))) /\
       length translations
       = length (List.filter nonblank (PyStr.split LF result_text))) /\
    (forall items,
       Forall clean items -> length items = length segments ->
       answer = numbered_text items -> translations = items) /\
    (forall items, Forall clean items ->
                   numbered_items (numbered_text items) = items) /\
    (forall c ds rest,
       PyStr.isdigit c = true -> digits_only ds = true ->
       strip_index ("[" +:+ String c ds +:+ String "]" rest)
       = PyStr.lstrip rest) /\
    (forall c s, Ascii.eqb c "[" = false ->
                 strip_index (String c s) = String c s) /\
    (forall s, join (String LF "") (PyStr.split LF s) = s /\
               Forall (fun l => free_of LF l = true) (PyStr.split LF s)).
Proof.
  unfold translate_segments.
  destruct (api_key_missing env); [discriminate|].
  intros H.
  destruct (request_loop_answered _ _ _ _ _ _ H) as (answer & Hc & Ha & ->).
  exists answer. split; [exact Hc|]. split; [exact Ha|]. cbv zeta.
  split.
  { intros Hn. rewrite (parse_translations_numbered _ _ Hn). auto. }
  split.
  { intros Hn. rewrite (parse_translations_fallback _ _ Hn).
    unfold split_lines_fallback, nonblank_lines.
    split; [reflexivity | now rewrite !length_map]. }
  split.
  { intros items C Hlen ->.
    rewrite numbered_text_from, (numbered_from_stripped items C).
    rewrite parse_translations_numbered;
      rewrite (numbered_items_numbered_from items C); auto. }
  split.
  { intros items C. rewrite numbered_text_from.
    now apply numbered_items_numbered_from. }
  split; [apply strip_index_digits|].
  split; [apply strip_index_other|].
  intros s. split; [apply join_split | apply split_lines].
Qed.

End Requests.

(** A service that answers every request with the same text. *)
Definition env_answering (answer : string) : Env :=
  {| AI_INTEGRATIONS_OPENAI_BASE_URL := None;
     AI_INTEGRATIONS_OPENAI_API_KEY := None;
     OPENAI_API_KEY := Some "sk-test";
     urlopen := fun _ _ => Content answer |}.

(** A service that limits the rate of the first request and answers the
    next ones. *)
Definition env_limited_once (answer : string) : Env :=
  {| AI_INTEGRATIONS_OPENAI_BASE_URL := None;
     AI_INTEGRATIONS_OPENAI_API_KEY := None;
     OPENAI_API_KEY := Some "sk-test";
     urlopen := fun n _ =>
       if (n =? 0)%nat then HTTPError 429 "Too Many Requests"
       else Content answer |}.

Lemma translate_segments_count_witness :
  exists answer,
    urlopen (env_limited_once "[1] Hola [2] Mundo") 1
      (numbered_text ["Hello"; "World"]) = Content answer /\
    ["Hola"; "Mundo"] = numbered_items (PyStr.strip answer).
Proof.
  destruct (translate_segments_count (env_limited_once "[1] Hola [2] Mundo")
              ["Hello"; "World"] 3 0 ["Hola"; "Mundo"] 2)
    as (answer & _ & Hanswer & Hsame & _).
  - reflexivity.
  - exists answer. split; [exact Hanswer|].
    apply Hsame. injection Hanswer as <-. reflexivity.
Defined.

(** C4 as stated fails: an answer without numbers to a request for two
    segments is accepted with a single translation, and nineteen
    numbered lines for twenty segments stay nineteen after the
    line split. *)
Lemma fallback_does_not_restore_the_count :
  translate_segments (env_answering "Hola") ["Hello"; "World"] 3 0
  = (TranslateOk ["Hola"], 1%nat) /\
  length (parse_translations 20 (numbered_text (repeat "si" 19))) = 19%nat.
Proof. split; vm_compute; reflexivity. Qed.

(** ** Batch failures *)

(** The variables of the batch loop before its first pass. *)
Definition fresh : progress :=
  {| all_translated := []; failed_batches := 0; calls := 0 |}.

Definition batch_of (texts : list string) (batch_start : nat) : list string :=
  firstn BATCH_SIZE (skipn batch_start texts).

(** The first [translate_segments] call of a batch fails; its single
    repeat fails. *)
Definition first_call_fails (env : Env) (texts : list string)
    (batch_start : nat) (p : progress) : bool :=
  negb (translate_ok
          (fst (translate_segments env (batch_of texts batch_start) 3 (calls p)))).

Definition repeat_fails (env : Env) (texts : list string)
    (batch_start : nat) (p : progress) : bool :=
  let first := translate_segments env (batch_of texts batch_start) 3 (calls p) in
  negb (translate_ok
          (fst (translate_segments env (batch_of texts batch_start) 3
                  (snd first)))).

(** The number of batches, among those processed from [p] on, whose
    first call failed. *)
Fixpoint counted_failures (env : Env) (texts : list string)
    (batch_starts : list nat) (p : progress) : Z :=
  match batch_starts with
  | [] => 0
  | batch_start :: batch_starts' =>
      ((if first_call_fails env texts batch_start p then 1 else 0)
       + match translate_batch env texts batch_start p with
         | inr p' => counted_failures env texts batch_starts' p'
         | inl _ => 0
         end)%Z
  end.

Section Batches.

Context (env : Env).

(** One pass of the batch loop. *)
Lemma translate_batch_cases texts batch_start p :
  match translate_batch env texts batch_start p with
  | inl fatal =>
      first_call_fails env texts batch_start p = true /\
      ((3 <= failed_batches p + 1)%Z \/
       repeat_fails env texts batch_start p = true) /\
      exists error,
        fatal = TimedFailed error (Some (length (all_translated p)))
  | inr p' =>
      (first_call_fails env texts batch_start p = false \/
       ((failed_batches p + 1 < 3)%Z /\
        repeat_fails env texts batch_start p = false)) /\
      failed_batches p'
      = (failed_batches p
         + if first_call_fails env texts batch_start p then 1 else 0)%Z /\
      exists translations,
        all_translated p' = all_translated p ++ translations
  end.
Proof.
  unfold translate_batch, first_call_fails, repeat_fails, batch_of.
  cbv zeta.
  destruct (translate_segments env _ 3 (calls p))
    as [[translations|error_msg] calls1]; cbn [fst snd translate_ok negb].
  - split; [auto|]. split; [cbn; lia | eauto].
  - unfold max_batch_failures.
    destruct (Z.geb_spec (failed_batches p + 1) 3) as [Hge|Hlt].
    + split; [reflexivity|]. split; [auto | eauto].
    + destruct (translate_segments env _ 3 calls1)
        as [[translations|error2] calls2]; cbn [fst translate_ok negb].
      * split; [auto|]. split; [reflexivity | eauto].
      * split; [reflexivity|]. split; [auto | eauto].
Qed.

(** A pass is fatal exactly when its first call fails and either this
    is the third counted failure or the repeat fails too. *)
Lemma translate_batch_fatal_iff texts batch_start p :
  (first_call_fails env texts batch_start p = true /\
   ((3 <= failed_batches p + 1)%Z \/
    repeat_fails env texts batch_start p = true))
  <-> exists error,
        translate_batch env texts batch_start p
        = inl (TimedFailed error (Some (length (all_translated p)))).
Proof.
  pose proof (translate_batch_cases texts batch_start p) as C.
  destruct (translate_batch env texts batch_start p) as [fatal|p'].
  - destruct C as (H1 & H2 & error & ->). split; [eauto | auto].
  - destruct C as (H & _). split.
    + intros [H1 [H2|H2]]; destruct H as [H|[H3 H4]]; try congruence; lia.
    + intros [error [=]].
Qed.

(** The counter holds the number of first calls that failed so far: a
    batch that is translated does not reset it. *)
Lemma translate_batches_counter texts batch_starts :
  forall p p',
    translate_batches env texts batch_starts p = inr p' ->
    failed_batches p'
    = (failed_batches p + counted_failures env texts batch_starts p)%Z.
Proof.
  induction batch_starts as [|b batch_starts IH]; intros p p';
    cbn [translate_batches counted_failures].
  - intros [= <-]. lia.
  - pose proof (translate_batch_cases texts b p) as C.
    destruct (translate_batch env texts b p) as [fatal|p1]; [discriminate|].
    intros H. apply IH in H.
    destruct C as (_ & C & _). rewrite C in H. lia.
Qed.

Lemma translate_batches_app texts done rest :
  forall p p',
    translate_batches env texts done p = inr p' ->
    translate_batches env texts (done ++ rest) p
    = translate_batches env texts rest p'.
Proof.
  induction done as [|b done IH]; intros p p'; cbn [translate_batches app].
  - now intros [= <-].
  - destruct (translate_batch env texts b p) as [fatal|p1]; [discriminate|].
    apply IH.
Qed.

(** A fatal run stops at a batch, with the variables that the batches
    before it left. *)
Lemma translate_batches_stops texts batch_starts :
  forall p fatal,
    translate_batches env texts batch_starts p = inl fatal ->
    exists done batch_start rest p',
      batch_starts = done ++ batch_start :: rest /\
      translate_batches env texts done p = inr p' /\
      translate_batch env texts batch_start p' = inl fatal.
Proof.
  induction batch_starts as [|b batch_starts IH]; intros p fatal; cbn.
  - discriminate.
  - destruct (translate_batch env texts b p) as [fatal'|p1] eqn:E.
    + intros [= <-]. exists [], b, batch_starts, p. auto.
    + intros H. destruct (IH _ _ H) as (done & b' & rest & p' & -> & Hd & Hb).
      exists (b :: done), b', rest, p'. cbn. rewrite E. auto.
Qed.

Lemma translate_timed_segments_run segments :
  let texts :=
    map text (List.filter (fun seg => nonblank (text seg)) segments) in
  range_step (length texts) BATCH_SIZE <> [] ->
  translate_timed_segments env segments
  = match translate_batches env texts
            (range_step (length texts) BATCH_SIZE) fresh with
    | inl fatal => fatal
    | inr p =>
        TimedOk (reattach segments (all_translated p))
          (length (reattach segments (all_translated p)))
    end.
Proof.
  unfold translate_timed_segments. fold fresh. cbv zeta.
  destruct (map text _) as [|t0 texts']; [intros H; now contradiction H|].
  reflexivity.
Qed.

Lemma translate_timed_segments_fatal segments error partial_count :
  translate_timed_segments env segments
  = TimedFailed error (Some partial_count) ->
  let texts :=
    map text (List.filter (fun seg => nonblank (text seg)) segments) in
  translate_batches env texts (range_step (length texts) BATCH_SIZE) fresh
  = inl (TimedFailed error (Some partial_count)).
Proof.
  unfold translate_timed_segments. fold fresh.
  destruct (map text _) as [|t0 texts'] eqn:E; [discriminate|].
  cbv zeta.
  destruct (translate_batches env (t0 :: texts') _ fresh) as [fatal|p];
    [intros ->; reflexivity | discriminate].
Qed.

(** C3, as the code has it.  Take a batch that the run reaches, the
    batches before it having left the variables [p'].  The failure
    counter then holds the number of those batches whose first
    [translate_segments] call failed, batches translated at their
    repeat included: nothing resets it.  The run fails fatally at this
    batch exactly when its first call fails and either that failure is
    the third counted or the single repeat of the call fails as well;
    the result of the whole function is then that failure, with the
    number of translations accumulated so far as [partial_count].
    Conversely every failure of [translate_timed_segments] with a
    [partial_count] arises in this way. *)
Theorem fatal_on_third_counted_failure_or_failed_retry segments :
  let texts :=
    map text (List.filter (fun seg => nonblank (text seg)) segments) in
  let batch_starts := range_step (length texts) BATCH_SIZE in
  (forall done batch_start rest p',
     batch_starts = done ++ batch_start :: rest ->
     translate_batches env texts done fresh = inr p' ->
     failed_batches p' = counted_failures env texts done fresh /\
     ((first_call_fails env texts batch_start p' = true /\
       ((3 <= counted_failures env texts done fresh + 1)%Z \/
        repeat_fails env texts batch_start p' = true))
      <-> exists error,
            translate_batch env texts batch_start p'
            = inl (TimedFailed error (Some (length (all_translated p')))) /\
            translate_timed_segments env segments
            = TimedFailed error (Some (length (all_translated p'))))) /\
  (forall error partial_count,
     translate_timed_segments env segments
     = TimedFailed error (Some partial_count) ->
     exists done batch_start rest p',
       batch_starts = done ++ batch_start :: rest /\
       translate_batches env texts done fresh = inr p' /\
       partial_count = length (all_translated p') /\
       first_call_fails env texts batch_start p' = true /\
       ((3 <= counted_failures env texts done fresh + 1)%Z \/
        repeat_fails env texts batch_start p' = true)).
Proof.
  intros texts batch_starts. split.
  - intros done b rest p' Hsplit Hdone.
    pose proof (translate_batches_counter texts done fresh p' Hdone) as Hc.
    cbn [failed_batches fresh] in Hc. rewrite Z.add_0_l in Hc.
    split; [exact Hc|]. rewrite <- Hc.
    rewrite translate_batch_fatal_iff.
    split.
    + intros [error Hb]. exists error. split; [exact Hb|].
      rewrite translate_timed_segments_run.
      * fold texts. fold batch_starts. rewrite Hsplit.
        rewrite (translate_batches_app texts done (b :: rest) fresh p' Hdone).
        cbn [translate_batches]. now rewrite Hb.
      * fold texts. fold batch_starts. rewrite Hsplit.
        destruct done; discriminate.
    + intros (error & Hb & _). eauto.
  - intros error partial_count H.
    apply translate_timed_segments_fatal in H. fold texts in H.
    destruct (translate_batches_stops _ _ _ _ H)
      as (done & b & rest & p' & Hsplit & Hdone & Hb).
    pose proof (translate_batches_counter texts done fresh p' Hdone) as Hc.
    cbn [failed_batches fresh] in Hc. rewrite Z.add_0_l in Hc.
    pose proof (translate_batch_cases texts b p') as C.
    rewrite Hb in C. destruct C as (Hfirst & Hwhy & error' & [= _ ->]).
    exists done, b, rest, p'. rewrite <- Hc. auto.
Qed.

End Batches.

(** The service refuses every request with a client error, which
    [translate_segments] does not retry. *)
Definition env_refusing : Env :=
  {| AI_INTEGRATIONS_OPENAI_BASE_URL := None;
     AI_INTEGRATIONS_OPENAI_API_KEY := None;
     OPENAI_API_KEY := Some "sk-test";
     urlopen := fun _ _ => HTTPError 400 "Bad Request" |}.

(** The service refuses every other request, starting with the first. *)
Definition env_alternating : Env :=
  {| AI_INTEGRATIONS_OPENAI_BASE_URL := None;
     AI_INTEGRATIONS_OPENAI_API_KEY := None;
     OPENAI_API_KEY := Some "sk-test";
     urlopen := fun n _ =>
       if Nat.even n then HTTPError 400 "Bad Request" else Content "[1] si" |}.

Definition line (n : Z) : timed_segment :=
  {| text := "line"; start := PyFloat.of_Z n; end_ := PyFloat.of_Z (n + 1);
     speaker_id := Some 0%Z; gender := None |}.

Definition forty_five_lines : list timed_segment :=
  map (fun n => line (Z.of_nat n)) (seq 0 45).

Lemma fatal_on_third_counted_failure_or_failed_retry_witness :
  exists error,
    translate_timed_segments env_alternating forty_five_lines
    = TimedFailed error (Some 2%nat).
Proof.
  destruct (fatal_on_third_counted_failure_or_failed_retry env_alternating
              forty_five_lines) as [Hreach _].
  destruct (Hreach [0; 20]%nat 40%nat []
              {| all_translated := ["si"; "si"]; failed_batches := 2;
                 calls := 4 |}) as [_ [Hfatal _]].
  - vm_compute. reflexivity.
  - vm_compute. reflexivity.
  - destruct Hfatal as (error & _ & Hrun).
    + split; [vm_compute; reflexivity | left; vm_compute; discriminate].
    + exists error. exact Hrun.
Defined.

(** C3 as stated fails in both directions.  When the service refuses the
    first batch and its repeat, the run is fatal after two failed calls.
    When the service refuses every other call, each of the first two
    batches is translated at its repeat, and the run is fatal at the
    third batch although no two failures were consecutive: the count of
    failures was not reset by the batches translated in between. *)
Lemma fatal_without_three_consecutive_failures :
  translate_timed_segments env_refusing [line 0]
  = TimedFailed "Batch 1 failed after retry: HTTP 400: Bad Request" (Some 0%nat) /\
  map (fun n => translate_ok
                  (fst (translate_segments env_alternating
                          (repeat "line" 20) 3 n))) (seq 0 5)
  = [false; true; false; true; false] /\
  translate_batches env_alternating (repeat "line" 45) [0; 20]%nat fresh
  = inr {| all_translated := ["si"; "si"]; failed_batches := 2; calls := 4 |} /\
  translate_timed_segments env_alternating forty_five_lines
  = TimedFailed
      "Translation failed after 3 batch failures. Last error: HTTP 400: Bad Request"
      (Some 2%nat).
Proof. repeat split; vm_compute; reflexivity. Qed.

End TranslateProps.

(** * Properties of [src/server/tts/voice_selector.py] *)

Module VoiceSelectorProps.
Import VoiceSelector PyDictProps.

(** ** The catalog *)

(** Every language of the catalog has at least one male and one female
    voice, and no voice has an empty name. *)
Definition complete_entry (by_gender : list (string * list voice)) : Prop :=
  exists m ms f fs,
    by_gender = [("male", m :: ms); ("female", f :: fs)] /\
    Forall (fun voice => name voice <> "") (m :: ms) /\
    Forall (fun voice => name voice <> "") (f :: fs).

Lemma catalog_complete :
  Forall (fun kv => complete_entry (snd kv)) EDGE_TTS_VOICES.
Proof.
  unfold EDGE_TTS_VOICES.
  repeat (apply List.Forall_cons;
          [ do 4 eexists; split; [reflexivity|];
            split; repeat (constructor; [discriminate|]); constructor |]).
  constructor.
Qed.

Lemma resolve_lang_code_known language :
  exists by_gender,
    PyDict.lookup (resolve_lang_code language) EDGE_TTS_VOICES = Some by_gender /\
    complete_entry by_gender.
Proof.
  assert (K : forall lc, PyDict.mem lc EDGE_TTS_VOICES = true ->
              exists by_gender,
                PyDict.lookup lc EDGE_TTS_VOICES = Some by_gender /\
                complete_entry by_gender).
  { intros lc. unfold PyDict.mem.
    destruct (PyDict.lookup lc EDGE_TTS_VOICES) as [bg|] eqn:E; [|discriminate].
    intros _. exists bg. split; [reflexivity|].
    exact (lookup_Forall (fun _ bg => complete_entry bg) _ catalog_complete _ _ E). }
  unfold resolve_lang_code.
  destruct (PyDict.mem (PyStr.lower (String.substring 0 2 language))
              EDGE_TTS_VOICES) eqn:E.
  - now apply K.
  - now apply K.
Qed.

(** The candidate list is never empty, so the ultimate fallback is never
    taken, and its names are never empty. *)
Lemma candidates language gender :
  exists voice voices,
    candidate_voices (resolve_lang_code language) gender = voice :: voices /\
    Forall (fun voice => name voice <> "") (voice :: voices).
Proof.
  destruct (resolve_lang_code_known language)
    as (bg & Hl & m & ms & f & fs & -> & Hm & Hf).
  unfold candidate_voices. rewrite Hl. unfold PyDict.get. cbn.
  destruct (String.eqb_spec gender "male") as [->|Hnm]; [eauto|].
  destruct (String.eqb_spec gender "female") as [->|Hnf]; [eauto|].
  cbn. eauto.
Qed.

(** ** The two loops *)

Lemma pick_unused_spec used style voices selected :
  pick_unused used style voices = Some selected ->
  (selected ∉ used) /\ (exists voice, In voice voices /\ name voice = selected).
Proof.
  induction voices as [|voice voices IH]; cbn; [discriminate|].
  destruct (bool_decide (name voice ∉ used)) eqn:E; cbn [andb].
  - destruct (String.eqb style "general" || String.eqb (VoiceSelector.style voice) style).
    + intros [= <-]. apply bool_decide_eq_true in E. eauto.
    + intros H. destruct (IH H) as (? & w & ? & ?). eauto.
  - intros H. destruct (IH H) as (? & w & ? & ?). eauto.
Qed.

Lemma select_voice_unused used style voices :
  Forall (fun voice => name voice <> "") voices ->
  is_Some (pick_unused used style voices) ->
  select_voice used style voices ∉ used.
Proof.
  intros Hnames [selected H]. unfold select_voice. rewrite H.
  destruct (pick_unused_spec _ _ _ _ H) as (Hfree & voice & Hin & Hname).
  assert (selected <> "").
  { subst selected. exact (proj1 (List.Forall_forall _ _) Hnames _ Hin). }
  destruct selected; [congruence|]. exact Hfree.
Qed.

(** ** One request *)

Definition key_of (q : request) : string :=
  cache_key (q_speaker_id q) (q_language q).

Definition lang_of (q : request) : string :=
  resolve_lang_code (q_language q).

Definition used_in (self : VoiceAssigner) (lang_code : string) : gset string :=
  default ∅ (used_voices self !! lang_code).

Lemma used_in_insert map used lang_code voices :
  used_in {| speaker_voice_map := map;
             used_voices := <[lang_code := voices]> used |} lang_code
  = voices.
Proof. unfold used_in. cbn. now rewrite lookup_insert_eq. Qed.

Lemma serve_cached self q voice :
  speaker_voice_map self !! key_of q = Some voice ->
  serve self q
  = ({| a_voice := voice; cached := true; a_speaker_id := q_speaker_id q;
        a_gender := None; a_language := None; fallback := false |}, self).
Proof.
  intros H. unfold serve, get_voice_for_speaker.
  fold (key_of q). now rewrite H.
Qed.

(** A request for a pair that is not cached assigns [select_voice] and
    records it in both dictionaries. *)
Lemma serve_fresh self q :
  speaker_voice_map self !! key_of q = None ->
  let gender := resolve_gender (q_gender q) (q_pitch_estimate q) in
  let selected :=
    select_voice (used_in self (lang_of q)) (q_style q)
      (candidate_voices (lang_of q) gender) in
  serve self q
  = ({| a_voice := selected; cached := false; a_speaker_id := q_speaker_id q;
        a_gender := Some gender; a_language := Some (lang_of q);
        fallback := false |},
     {| speaker_voice_map := <[key_of q := selected]> (speaker_voice_map self);
        used_voices :=
          <[lang_of q := used_in self (lang_of q) ∪ {[selected]}]>
            (used_voices self) |}).
Proof.
  intros H gender selected. unfold serve, get_voice_for_speaker.
  fold (key_of q). rewrite H. fold gender. fold (lang_of q).
  destruct (candidates (q_language q) gender) as (voice & voices & E & _).
  fold (lang_of q) in E. subst selected. rewrite E. reflexivity.
Qed.

(** After a request, its pair is cached with the voice just returned. *)
Lemma serve_records self q :
  speaker_voice_map (snd (serve self q)) !! key_of q
  = Some (a_voice (fst (serve self q))).
Proof.
  destruct (speaker_voice_map self !! key_of q) as [voice|] eqn:E.
  - now rewrite (serve_cached _ _ _ E).
  - rewrite (serve_fresh _ _ E). cbn. apply lookup_insert_eq.
Qed.

(** A cached pair is never overwritten. *)
Lemma serve_keeps self q key voice :
  speaker_voice_map self !! key = Some voice ->
  speaker_voice_map (snd (serve self q)) !! key = Some voice.
Proof.
  intros H.
  destruct (speaker_voice_map self !! key_of q) as [voice'|] eqn:E.
  - now rewrite (serve_cached _ _ _ E).
  - rewrite (serve_fresh _ _ E). cbn.
    rewrite lookup_insert_ne; [assumption | congruence].
Qed.

Lemma serve_all_keeps requests :
  forall self key voice,
    speaker_voice_map self !! key = Some voice ->
    speaker_voice_map (serve_all self requests) !! key = Some voice.
Proof.
  induction requests as [|q requests IH]; intros self key voice H; cbn.
  - assumption.
  - apply IH. now apply serve_keeps.
Qed.

(** The set of used voices of a language only grows. *)
Lemma serve_used_grows self q lang_code voice :
  voice ∈ used_in self lang_code ->
  voice ∈ used_in (snd (serve self q)) lang_code.
Proof.
  intros H.
  destruct (speaker_voice_map self !! key_of q) as [voice'|] eqn:E.
  - now rewrite (serve_cached _ _ _ E).
  - rewrite (serve_fresh _ _ E). unfold used_in at 1. cbn.
    destruct (decide (lang_of q = lang_code)) as [<-|Hne].
    + rewrite lookup_insert_eq. cbn. set_solver.
    + rewrite lookup_insert_ne by assumption. exact H.
Qed.

Lemma serve_all_used_grows requests :
  forall self lang_code voice,
    voice ∈ used_in self lang_code ->
    voice ∈ used_in (serve_all self requests) lang_code.
Proof.
  induction requests as [|q requests IH]; intros self lang_code voice H; cbn.
  - assumption.
  - apply IH. now apply serve_used_grows.
Qed.

(** A fresh assignment marks its voice as used in its language. *)
Lemma serve_marks_used self q :
  cached (fst (serve self q)) = false ->
  a_voice (fst (serve self q)) ∈ used_in (snd (serve self q)) (lang_of q).
Proof.
  destruct (speaker_voice_map self !! key_of q) as [voice'|] eqn:E.
  - rewrite (serve_cached _ _ _ E). discriminate.
  - rewrite (serve_fresh _ _ E). intros _. cbn [fst snd a_voice].
    rewrite used_in_insert. set_solver.
Qed.

(** C8, as the code has it.  The voice of a (speaker_id, language) pair
    is stable: once a request for the pair has been served, every later
    request for it, whatever was served in between and whatever gender,
    pitch or style it carries, returns the same voice.  It is distinct
    from the voices assigned before in the same language only while the
    first loop still finds an unused voice among the candidates of the
    gender: a pair that is not cached yet and for which such a voice
    remains gets a voice different from every voice freshly assigned
    earlier in that language. *)
Theorem voice_is_stable_and_unique_while_unused_remain self q1 requests q2 :
  let r1 := fst (serve self q1) in
  let later := serve_all (snd (serve self q1)) requests in
  let r2 := fst (serve later q2) in
  (q_speaker_id q2 = q_speaker_id q1 -> q_language q2 = q_language q1 ->
     a_voice r2 = a_voice r1) /\
  (cached r1 = false ->
   lang_of q2 = lang_of q1 ->
   speaker_voice_map later !! key_of q2 = None ->
   is_Some (pick_unused (used_in later (lang_of q2)) (q_style q2)
              (candidate_voices (lang_of q2)
                 (resolve_gender (q_gender q2) (q_pitch_estimate q2)))) ->
     a_voice r2 <> a_voice r1).
Proof.
  intros r1 later r2. split.
  - intros Hs Hl.
    assert (K : key_of q2 = key_of q1) by (unfold key_of; congruence).
    assert (C : speaker_voice_map later !! key_of q2 = Some (a_voice r1)).
    { rewrite K. apply serve_all_keeps, serve_records. }
    subst r2. now rewrite (serve_cached _ _ _ C).
  - intros Hfresh Hlang Hnew Hfree.
    assert (U : a_voice r1 ∈ used_in later (lang_of q2)).
    { rewrite Hlang. apply serve_all_used_grows, serve_marks_used, Hfresh. }
    subst r2. rewrite (serve_fresh _ _ Hnew). cbn [fst a_voice].
    destruct (candidates (q_language q2)
                (resolve_gender (q_gender q2) (q_pitch_estimate q2)))
      as (voice & voices & E & Hnames).
    fold (lang_of q2) in E. rewrite E in Hfree |- *.
    pose proof (select_voice_unused _ _ _ Hnames Hfree) as N.
    intros Heq. rewrite Heq in N. contradiction.
Qed.

Definition speaker (speaker_id language gender : string) : request :=
  {| q_speaker_id := speaker_id; q_language := language; q_gender := gender;
     q_pitch_estimate := 120; q_style := "general" |}.

Lemma voice_is_stable_and_unique_while_unused_remain_witness :
  a_voice (fst (serve (serve_all (snd (serve new_assigner
                                         (speaker "2" "fr" "male")))
                         [speaker "0" "fr" "female"; speaker "1" "fr" "male"])
                 (speaker "2" "fr" "unknown")))
  = "fr-FR-HenriNeural" /\
  a_voice (fst (serve (snd (serve new_assigner (speaker "2" "fr" "male")))
                 (speaker "1" "fr" "male")))
  <> "fr-FR-HenriNeural".
Proof.
  split.
  - apply (voice_is_stable_and_unique_while_unused_remain new_assigner
             (speaker "2" "fr" "male")
             [speaker "0" "fr" "female"; speaker "1" "fr" "male"]
             (speaker "2" "fr" "unknown")); reflexivity.
  - apply (voice_is_stable_and_unique_while_unused_remain new_assigner
             (speaker "2" "fr" "male") [] (speaker "1" "fr" "male")).
    + reflexivity.
    + reflexivity.
    + vm_compute. reflexivity.
    + vm_compute. eauto.
Defined.

(** The uniqueness of C8 as stated fails: Japanese has one male voice, so two
    male speakers of one job get the same voice. *)
Lemma two_speakers_share_the_only_voice :
  let r1 := serve new_assigner (speaker "0" "ja" "male") in
  let r2 := serve (snd r1) (speaker "1" "ja" "male") in
  q_speaker_id (speaker "0" "ja" "male") <> q_speaker_id (speaker "1" "ja" "male") /\
  cached (fst r2) = false /\
  a_voice (fst r1) = "ja-JP-KeitaNeural" /\
  a_voice (fst r2) = "ja-JP-KeitaNeural".
Proof. vm_compute. repeat split. discriminate. Qed.

End VoiceSelectorProps.

(** * Properties of [src/smart_diarize.py] *)

Module SmartDiarizeProps.
Import SmartDiarize PyNumProps.

(** ** The classification, as the specification words it *)

Definition spec_min (a b : Q) : Q := if Qle_bool a b then a else b.
Definition spec_max (a b : Q) : Q := if Qle_bool a b then b else a.

Definition spec_gender (f0 : option Q) : string :=
  match f0 with
  | None => "unknown"
  | Some f0 =>
      if Qlt_le_dec f0 140 then "male"
      else if Qlt_le_dec 185 f0 then "female"
      else if Qlt_le_dec ((f0 - 140) / 45) ((185 - f0) / 45) then "male"
      else "female"
  end.

Definition spec_confidence (f0 : option Q) : Q :=
  match f0 with
  | None => 0
  | Some f0 =>
      if Qlt_le_dec f0 140 then spec_min 1 ((140 - f0) / 55 + (5 # 10))
      else if Qlt_le_dec 185 f0 then spec_min 1 ((f0 - 185) / 70 + (5 # 10))
      else spec_max ((185 - f0) / 45) ((f0 - 140) / 45) * (7 # 10)
  end.

Definition in_overlap (f0 : option Q) : Prop :=
  match f0 with
  | Some f0 => (140 <= f0 <= 185)%Q
  | None => False
  end.

(** ** Rounding *)

(** [round] stays between two integers that bound its argument. *)
Lemma round_half_even_between (x : Q) (a b : Z) :
  (inject_Z a <= x <= inject_Z b)%Q ->
  (a <= PyNum.round_half_even x <= b)%Z.
Proof.
  destruct x as [n d]. unfold Qle, inject_Z. cbn [Qnum Qden].
  intros [Ha Hb]. unfold PyNum.round_half_even. cbn [Qnum Qden].
  pose proof (Z.div_mod n (Z.pos d) ltac:(lia)) as E.
  pose proof (Z.mod_pos_bound n (Z.pos d) ltac:(lia)) as M.
  set (q := (n / Z.pos d)%Z) in *. set (r := (n mod Z.pos d)%Z) in *.
  assert (Hq1 : (a <= q)%Z) by nia.
  assert (Hq2 : (q <= b)%Z) by nia.
  assert (Hr : (0 < r -> q + 1 <= b)%Z) by nia.
  destruct (Z.ltb_spec (2 * r) (Z.pos d)); [lia|].
  destruct (Z.ltb_spec (Z.pos d) (2 * r)); [lia|].
  destruct (Z.even q); lia.
Qed.

(** [round] is within one half of its argument. *)
Lemma round_half_even_near (x : Q) :
  (Qabs (inject_Z (PyNum.round_half_even x) - x) <= 1 # 2)%Q.
Proof.
  apply Qabs_Qle_condition.
  destruct x as [n d]. unfold PyNum.round_half_even. cbn [Qnum Qden].
  pose proof (Z.div_mod n (Z.pos d) ltac:(lia)) as E.
  pose proof (Z.mod_pos_bound n (Z.pos d) ltac:(lia)) as M.
  set (q := (n / Z.pos d)%Z) in *. set (r := (n mod Z.pos d)%Z) in *.
  assert (K : forall z : Z,
             (2 * Z.abs (z * Z.pos d - n) <= Z.pos d)%Z ->
             (- (1 # 2) <= inject_Z z - (n # d) <= 1 # 2)%Q).
  { intros z Hz. unfold Qle, Qminus, Qplus, Qopp, inject_Z. cbn.
    split; nia. }
  destruct (Z.ltb_spec (2 * r) (Z.pos d)); [apply K; nia|].
  destruct (Z.ltb_spec (Z.pos d) (2 * r)); [apply K; nia|].
  destruct (Z.even q); apply K; nia.
Qed.

Lemma round_nd_2 (x : Q) :
  PyNum.round_nd x 2 = PyNum.round_half_even (x * 100) # 100.
Proof. reflexivity. Qed.

Lemma hundredths (z : Z) : z # 100 == inject_Z z * (1 # 100).
Proof. unfold Qeq, Qmult, inject_Z. cbn. lia. Qed.

(** Rounding to two decimals keeps a value of [0, 1] in [0, 1] and moves
    it by at most 0.005. *)
Lemma round_nd_2_unit (x : Q) :
  (0 <= x <= 1)%Q -> (0 <= PyNum.round_nd x 2 <= 1)%Q.
Proof.
  intros H. rewrite round_nd_2, hundredths.
  destruct (round_half_even_between (x * 100) 0 100) as [L U].
  { change (inject_Z 0) with 0%Q. change (inject_Z 100) with 100%Q. lra. }
  rewrite Zle_Qle in L, U.
  change (inject_Z 0) with 0%Q in L. change (inject_Z 100) with 100%Q in U.
  lra.
Qed.

Lemma round_nd_2_near (x : Q) :
  (Qabs (PyNum.round_nd x 2 - x) <= 1 # 200)%Q.
Proof.
  rewrite round_nd_2, hundredths.
  pose proof (round_half_even_near (x * 100)) as N.
  apply Qabs_Qle_condition in N. apply Qabs_Qle_condition. lra.
Qed.

Lemma min_is_spec_min a b : PyNum.min a b = spec_min a b.
Proof.
  unfold PyNum.min, PyNum.ltb, spec_min. now destruct (Qle_bool a b).
Qed.

Lemma spec_min_unit x : (0 <= x)%Q -> (0 <= spec_min 1 x <= 1)%Q.
Proof.
  intros H. unfold spec_min. destruct (Qle_bool 1 x) eqn:E.
  - lra.
  - apply leb_gt in E. lra.
Qed.

(** Division by a constant, for [lra]. *)
Ltac by_constants := unfold Qdiv, Qinv in *; cbn [Qnum Qden] in *; lra.

(** C9, as the code has it.  The gender is the reference's in every
    case.  Outside the overlap zone, and when no pitch was detected, the
    confidence is the reference's.  For 140 <= F0 <= 185 it is the
    reference's 0.7 times the larger score rounded to two decimals,
    hence within 0.005 of it.  In every case it lies in [0, 1]. *)
Theorem classify_gender_is_reference_rounded_in_overlap (f0 : option Q) :
  let result := classify_gender f0 in
  gender result = spec_gender f0 /\
  (~ in_overlap f0 -> confidence result = spec_confidence f0) /\
  (in_overlap f0 ->
     confidence result = PyNum.round_nd (spec_confidence f0) 2 /\
     (Qabs (confidence result - spec_confidence f0) <= 1 # 200)%Q) /\
  (0 <= confidence result <= 1)%Q.
Proof.
  destruct f0 as [p|]; cbn [classify_gender spec_gender spec_confidence in_overlap].
  2:{ cbn. repeat split; try tauto; lra. }
  destruct (PyNum.ltb p 140) eqn:Elow.
  { apply ltb_lt in Elow.
    destruct (Qlt_le_dec p 140) as [_|?]; [|lra].
    cbn [gender confidence]. rewrite min_is_spec_min.
    split; [reflexivity|]. split; [reflexivity|].
    split; [intros [? ?]; lra|]. apply spec_min_unit. by_constants. }
  apply ltb_ge in Elow.
  destruct (Qlt_le_dec p 140) as [?|_]; [lra|].
  destruct (PyNum.gtb p 185) eqn:Ehigh.
  { apply gtb_lt in Ehigh.
    destruct (Qlt_le_dec 185 p) as [_|?]; [|lra].
    cbn [gender confidence]. rewrite min_is_spec_min.
    split; [reflexivity|]. split; [reflexivity|].
    split; [intros [? ?]; lra|]. apply spec_min_unit. by_constants. }
  apply gtb_le in Ehigh.
  destruct (Qlt_le_dec 185 p) as [?|_]; [lra|].
  set (male_score := ((185 - p) / 45)%Q).
  set (female_score := ((p - 140) / 45)%Q).
  assert (Hm : (0 <= male_score <= 1)%Q) by (unfold male_score; by_constants).
  assert (Hf : (0 <= female_score <= 1)%Q) by (unfold female_score; by_constants).
  assert (Hc : confidence
                 (if PyNum.gtb male_score female_score
                  then {| gender := "male";
                          confidence := PyNum.round_nd (male_score * (7 # 10)) 2;
                          pitch := Some (PyNum.round_nd p 1) |}
                  else {| gender := "female";
                          confidence := PyNum.round_nd (female_score * (7 # 10)) 2;
                          pitch := Some (PyNum.round_nd p 1) |})
               = PyNum.round_nd (spec_max male_score female_score * (7 # 10)) 2).
  { unfold spec_max, PyNum.gtb, PyNum.ltb.
    now destruct (Qle_bool male_score female_score). }
  assert (Hs : (0 <= spec_max male_score female_score <= 1)%Q).
  { unfold spec_max. destruct (Qle_bool male_score female_score); assumption. }
  rewrite Hc. split; [|split; [|split]].
  - destruct (PyNum.gtb male_score female_score) eqn:G;
      destruct (Qlt_le_dec female_score male_score) as [L|L];
      try reflexivity.
    + apply gtb_lt in G. lra.
    + apply gtb_le in G. lra.
  - intros N. exfalso. apply N. split; assumption.
  - intros _. split; [reflexivity | apply round_nd_2_near].
  - apply round_nd_2_unit. lra.
Qed.

(** The equality of C9 as stated fails in the overlap zone: at 150 Hz the code
    returns 0.54, the reference 0.7 * (35/45) = 49/90. *)
Lemma overlap_confidence_is_rounded :
  gender (classify_gender (Some 150%Q)) = "male" /\
  confidence (classify_gender (Some 150%Q)) == 54 # 100 /\
  spec_confidence (Some 150%Q) == 49 # 90 /\
  ~ confidence (classify_gender (Some 150%Q)) == spec_confidence (Some 150%Q).
Proof. repeat split. vm_compute. discriminate. Qed.

Lemma classify_gender_is_reference_rounded_in_overlap_witness :
  confidence (classify_gender (Some 150%Q))
  = PyNum.round_nd (spec_confidence (Some 150%Q)) 2 /\
  confidence (classify_gender (Some 100%Q)) = spec_confidence (Some 100%Q).
Proof.
  split.
  - destruct (classify_gender_is_reference_rounded_in_overlap (Some 150%Q))
      as (_ & _ & Hin & _).
    apply Hin. split; discriminate.
  - destruct (classify_gender_is_reference_rounded_in_overlap (Some 100%Q))
      as (_ & Hout & _).
    apply Hout. intros [H _]. apply H. reflexivity.
Defined.

End SmartDiarizeProps.

(** * Further properties of [src/edge_tts_dub.py] *)

Module EdgeTtsDubMore.
Import EdgeTtsDub PyStrProps PyNumProps PyDictProps.

(** ** Strings *)

Lemma lower_app a b : PyStr.lower (a +:+ b) = PyStr.lower a +:+ PyStr.lower b.
Proof.
  induction a as [|c a IH]; [reflexivity|].
  rewrite app_cons. cbn [PyStr.lower]. now rewrite IH, app_cons.
Qed.

Lemma lower_char_idempotent c :
  PyStr.lower_char (PyStr.lower_char c) = PyStr.lower_char c.
Proof.
  destruct c as [[] [] [] [] [] [] [] []]; vm_compute; reflexivity.
Qed.

Lemma lower_idempotent s : PyStr.lower (PyStr.lower s) = PyStr.lower s.
Proof.
  induction s as [|c s IH]; cbn [PyStr.lower]; [reflexivity|].
  now rewrite lower_char_idempotent, IH.
Qed.

Lemma prefix_app sub rest : String.prefix sub (sub +:+ rest) = true.
Proof.
  induction sub as [|c sub IH]; [now destruct rest|].
  rewrite app_cons. cbn [String.prefix].
  destruct (ascii_dec c c); [exact IH | contradiction].
Qed.

Lemma contains_app before sub after :
  PyStr.contains sub (before +:+ sub +:+ after) = true.
Proof.
  induction before as [|c before IH].
  - rewrite app_empty.
    destruct sub as [|c sub]; [now destruct after|].
    rewrite app_cons. cbn [PyStr.contains].
    rewrite <- app_cons. now rewrite prefix_app.
  - rewrite app_cons. cbn [PyStr.contains]. rewrite IH. apply orb_true_r.
Qed.

(** ** Emotion detection *)

Definition all_keywords : list string :=
  flat_map (fun entry => e_keywords (snd entry)) EMOTION_KEYWORDS.

Lemma detect_in_neutral text_lower table :
  emotion (detect_in text_lower table) = "neutral" ->
  Forall (fun entry => fst entry <> "neutral") table ->
  forall keyword,
    In keyword (flat_map (fun entry => e_keywords (snd entry)) table) ->
    PyStr.contains keyword text_lower = false.
Proof.
  induction table as [|[name config] table IH]; cbn; [tauto|].
  intros H F keyword Hin. inversion F as [|? ? Hname F']; subst.
  destruct (existsb _ (e_keywords config)) eqn:E.
  - cbn in H. cbn in Hname. congruence.
  - apply in_app_or in Hin. destruct Hin as [Hin|Hin].
    + destruct (PyStr.contains keyword text_lower) eqn:C; [|reflexivity].
      exfalso. apply Bool.not_true_iff_false in E. apply E.
      apply existsb_exists. eauto.
    + now apply IH.
Qed.

Lemma detect_in_none text_lower table :
  (forall keyword,
     In keyword (flat_map (fun entry => e_keywords (snd entry)) table) ->
     PyStr.contains keyword text_lower = false) ->
  detect_in text_lower table
  = {| emotion := "neutral"; rate := "+0%"; pitch := "+0Hz" |}.
Proof.
  induction table as [|[name config] table IH]; cbn; [reflexivity|].
  intros H.
  destruct (existsb _ (e_keywords config)) eqn:E.
  - apply existsb_exists in E. destruct E as (keyword & Hin & C).
    rewrite H in C; [discriminate | apply in_or_app; now left].
  - apply IH. intros keyword Hin. apply H, in_or_app. now right.
Qed.

Lemma first_entry_wins text keyword :
  In keyword ["angry"; "furious"; "rage"; "hate"; "damn"; "hell"] ->
  PyStr.contains keyword (PyStr.lower text) = true ->
  detect_emotion text
  = {| emotion := "angry"; rate := "+15%"; pitch := "+10Hz" |}.
Proof.
  intros Hin C. unfold detect_emotion, EMOTION_KEYWORDS.
  cbn [detect_in e_keywords e_rate e_pitch].
  assert (E : existsb (fun k => PyStr.contains k (PyStr.lower text))
                ["angry"; "furious"; "rage"; "hate"; "damn"; "hell"] = true).
  { apply existsb_exists. eauto. }
  now rewrite E.
Qed.

Lemma no_entry_is_neutral :
  Forall (fun entry : string * emotion_entry => fst entry <> "neutral")
    EMOTION_KEYWORDS.
Proof.
  unfold EMOTION_KEYWORDS. repeat (constructor; [discriminate|]). constructor.
Qed.

(** X1.  Keywords are looked for as substrings of the lower-cased text,
    the table's entries in order.  A text that contains one of the
    keywords of the first entry, in any case and even inside a longer
    word, is read as angry (+15%, +10Hz) whatever else it contains: so is
    every text that contains "Hello", for "hell" is a keyword.  The
    neutral setting (+0%, +0Hz) is returned exactly when the lower-cased
    text contains none of the table's keywords. *)
Theorem detect_emotion_by_substring text :
  (forall keyword,
     In keyword ["angry"; "furious"; "rage"; "hate"; "damn"; "hell"] ->
     PyStr.contains keyword (PyStr.lower text) = true ->
     detect_emotion text
     = {| emotion := "angry"; rate := "+15%"; pitch := "+10Hz" |}) /\
  (forall before after,
     detect_emotion (before +:+ "Hello" +:+ after)
     = {| emotion := "angry"; rate := "+15%"; pitch := "+10Hz" |}) /\
  (emotion (detect_emotion text) = "neutral" <->
   forall keyword,
     In keyword all_keywords ->
     PyStr.contains keyword (PyStr.lower text) = false) /\
  (emotion (detect_emotion text) = "neutral" ->
   detect_emotion text
   = {| emotion := "neutral"; rate := "+0%"; pitch := "+0Hz" |}).
Proof.
  split; [|split; [|split]].
  - intros keyword. apply first_entry_wins.
  - intros before after. apply (first_entry_wins _ "hell").
    + cbn. tauto.
    + rewrite !lower_app.
      change (PyStr.lower "Hello") with ("hell" +:+ "o").
      replace (PyStr.lower before +:+ ("hell" +:+ "o") +:+ PyStr.lower after)
        with (PyStr.lower before +:+ "hell" +:+ ("o" +:+ PyStr.lower after))
        by reflexivity.
      apply contains_app.
  - split.
    + intros H. exact (detect_in_neutral _ _ H no_entry_is_neutral).
    + intros H. unfold detect_emotion. now rewrite (detect_in_none _ _ H).
  - intros H. unfold detect_emotion. apply detect_in_none.
    exact (detect_in_neutral _ _ H no_entry_is_neutral).
Qed.

Lemma detect_emotion_by_substring_witness :
  detect_emotion "Hello, world"
  = {| emotion := "angry"; rate := "+15%"; pitch := "+10Hz" |}.
Proof.
  destruct (detect_emotion_by_substring "Hello, world") as [Hangry _].
  apply (Hangry "hell").
  - cbn. tauto.
  - reflexivity.
Defined.

(** ** Rates *)

(** X2.  Whatever the two arguments are, the rate that [combine_rates]
    prints reads back as the sum of the parsed emotion rate (0 when it
    does not parse) and the adjustment, clamped to [-50, 100]; and
    combining the printed rate with a zero adjustment gives it back
    unchanged. *)
Theorem combine_rates_clamps_and_is_stable emotion_rate alignment_rate :
  let combined := combine_rates emotion_rate alignment_rate in
  (-50 <= parse_rate combined <= 100)%Z /\
  parse_rate combined
  = Z.max (-50) (Z.min 100 (parse_rate emotion_rate + alignment_rate)) /\
  combine_rates combined 0 = combined.
Proof.
  intros combined.
  assert (P : parse_rate combined
              = Z.max (-50) (Z.min 100 (parse_rate emotion_rate + alignment_rate)))
    by apply EdgeTtsDubProps.parse_rate_combine_rates.
  split; [lia|]. split; [exact P|].
  unfold combine_rates at 1. rewrite P.
  rewrite zclamp_max_min.
  replace (Z.max (-50) (Z.min 100 (Z.max (-50)
             (Z.min 100 (parse_rate emotion_rate + alignment_rate)) + 0)))
    with (Z.max (-50) (Z.min 100 (parse_rate emotion_rate + alignment_rate)))
    by lia.
  subst combined. unfold combine_rates. now rewrite zclamp_max_min.
Qed.

(** ** The retry loop of per-segment synthesis *)

(** What every render of a segment is asked with. *)
Definition call_matches (text voice output_file : string) (c : edge_call)
    : Prop :=
  c_text c = enhance_text_for_natural_speech text /\
  c_voice c = voice /\ c_output c = output_file /\
  c_pitch c = pitch (detect_emotion (enhance_text_for_natural_speech text)).

Section Budget.

Context (env : Env).

Lemma attempt_segment_calls seg text voice output_file target attempt w :
  let '(result, w') :=
    attempt_segment env seg text voice output_file target attempt w in
  exists calls,
    edge_log w' = edge_log w ++ calls /\
    (1 <= length calls <= 2)%nat /\
    Forall (call_matches text voice output_file) calls /\
    match result with
    | inl ok =>
        r_attempts ok = S attempt /\
        r_segment_id ok = seg_id seg /\ r_start ok = seg_start seg /\
        r_end ok = seg_end seg /\ r_target_duration ok = target /\
        exists c, last calls = Some c /\ c_rate c = r_final_rate ok
    | inr _ => True
    end.
Proof.
  unfold attempt_segment, call_edge.
  set (first := {| c_text := enhance_text_for_natural_speech text;
                   c_voice := voice;
                   c_rate := rate (detect_emotion
                                     (enhance_text_for_natural_speech text));
                   c_pitch := pitch (detect_emotion
                                       (enhance_text_for_natural_speech text));
                   c_output := output_file |}).
  assert (M1 : call_matches text voice output_file first)
    by (repeat split).
  destruct (edge_save env (length (edge_log w)) first)
    as [e | file_exists file_size actual].
  { exists [first]. cbn. repeat split; auto. }
  destruct file_exists; cbn [negb].
  2:{ exists [first]. cbn. repeat split; auto. }
  destruct (file_size <? 100)%Z.
  { exists [first]. cbn. repeat split; auto. }
  destruct (alignable target actual) as [t|].
  2:{ exists [first]. cbn. repeat split; eauto. }
  destruct (0.3 <? abs (actual - t))%float.
  2:{ exists [first]. cbn. repeat split; eauto. }
  destruct (rate_adjustment actual t) as [adjustment|e].
  2:{ exists [first]. cbn. repeat split; auto. }
  cbn [edge_log].
  set (second := {| c_text := enhance_text_for_natural_speech text;
                    c_voice := voice;
                    c_rate := combine_rates _ _;
                    c_pitch := _; c_output := output_file |}).
  assert (M2 : call_matches text voice output_file second)
    by (repeat split).
  destruct (edge_save env _ second) as [e | ex2 size2 actual2];
    exists [first; second]; cbn; rewrite <- app_assoc;
    repeat split; eauto.
Qed.

Lemma retry_segment_calls seg text voice output_file target max_retries
    remaining :
  forall attempt last_error w,
    let '(result, w') :=
      retry_segment env seg text voice output_file target max_retries
        remaining attempt last_error w in
    exists calls,
      edge_log w' = edge_log w ++ calls /\
      (length calls <= 2 * remaining)%nat /\
      Forall (call_matches text voice output_file) calls /\
      match result with
      | SegmentOk ok =>
          (attempt < r_attempts ok <= attempt + remaining)%nat /\
          r_segment_id ok = seg_id seg /\ r_start ok = seg_start seg /\
          r_end ok = seg_end seg /\ r_target_duration ok = target /\
          exists c, last calls = Some c /\ c_rate c = r_final_rate ok
      | SegmentFailed _ attempts =>
          attempts = max_retries /\ (remaining <= length calls)%nat
      end.
Proof.
  induction remaining as [|remaining IH]; intros attempt last_error w;
    cbn [retry_segment].
  - exists []. rewrite app_nil_r. cbn. repeat split; auto.
  - pose proof (attempt_segment_calls seg text voice output_file target
                  attempt w) as A.
    destruct (attempt_segment env seg text voice output_file target attempt w)
      as [[ok|e] w1].
    + destruct A as (calls & Hlog & Hlen & Hall & Hatt & Hid & Hs & He & Ht & Hlast).
      exists calls. repeat split; auto; lia.
    + destruct A as (calls & Hlog & Hlen & Hall & _).
      specialize (IH (S attempt) (Some e) w1).
      destruct (retry_segment env seg text voice output_file target
                  max_retries remaining (S attempt) (Some e) w1)
        as [result w2].
      destruct IH as (calls' & Hlog' & Hlen' & Hall' & Hres).
      exists (calls ++ calls').
      rewrite Hlog', Hlog, app_assoc, length_app.
      split; [reflexivity|]. split; [lia|].
      split; [apply Forall_app; auto|].
      destruct result as [ok|e' attempts].
      * destruct Hres as (Hatt & Hid & Hs & He & Ht & c & Hlast & Hrate).
        repeat split; auto; try lia.
        exists c. split; [|exact Hrate].
        rewrite last_app, Hlast. reflexivity.
      * destruct Hres as [-> Hmin]. split; [reflexivity | lia].
Qed.


End Budget.

(** ** The synthesis stage: results and tallies *)

(** A result belongs to a segment: a success carries the segment's id,
    timestamps and target duration. *)
Definition result_for (seg : segment) (result : segment_result) : Prop :=
  match result with
  | SegmentOk ok =>
      r_segment_id ok = seg_id seg /\ r_start ok = seg_start seg /\
      r_end ok = seg_end seg /\ r_target_duration ok = seg_duration seg
  | SegmentFailed _ _ => True
  end.

Definition stats_total (s : sync_stats) : Z := n_good s + n_fair s + n_poor s.

Section Tallies.

Context (env : Env).

Lemma generate_segment_audio_result_for seg voice output_file w :
  let '(result, w') :=
    generate_segment_audio env seg voice output_file (seg_duration seg) 3 w in
  result_for seg result /\
  exists calls,
    edge_log w' = edge_log w ++ calls /\ (length calls <= 6)%nat.
Proof.
  unfold generate_segment_audio.
  destruct (PyStr.strip (seg_text seg)) as [|c text'].
  - split; [exact I|]. exists []. rewrite app_nil_r. cbn. split; [auto | lia].
  - pose proof (retry_segment_calls env seg (String c text') voice output_file
                  (seg_duration seg) 3 3 0 None w) as R.
    destruct (retry_segment env seg (String c text') voice output_file
                (seg_duration seg) 3 3 0 None w) as [result w'].
    destruct R as (calls & Hlog & Hlen & _ & Hres).
    split; [|exists calls; split; [exact Hlog | lia]].
    destruct result as [ok|e attempts]; [|exact I].
    destruct Hres as (_ & Hid & Hs & He & Ht & _). repeat split; assumption.
Qed.

Lemma record_result_totals result t :
  stats_total (stats t) = successful t ->
  stats_total (stats (record_result result t)) = successful (record_result result t) /\
  (successful (record_result result t) + failed (record_result result t)
   = successful t + failed t + 1)%Z /\
  results (record_result result t) = results t ++ [result].
Proof.
  intros H. unfold stats_total in *.
  destruct result as [ok|e n]; cbn [record_result stats successful failed results].
  - destruct (r_sync_quality ok); cbn; repeat split; lia.
  - repeat split; lia.
Qed.

Lemma segments_loop_totals voice output_dir segments :
  forall i t w,
    stats_total (stats t) = successful t ->
    let '(t', w') := segments_loop env voice output_dir i segments t w in
    stats_total (stats t') = successful t' /\
    (successful t' + failed t'
     = successful t + failed t + Z.of_nat (length segments))%Z /\
    (exists new,
       results t' = results t ++ new /\ Forall2 result_for segments new) /\
    exists calls,
      edge_log w' = edge_log w ++ calls /\
      (length calls <= 6 * length segments)%nat.
Proof.
  induction segments as [|segment segments IH]; intros i t w Ht;
    cbn [segments_loop].
  - split; [exact Ht|]. split; [cbn; lia|].
    split; [exists []; rewrite app_nil_r; split; [auto | constructor]|].
    exists []. rewrite app_nil_r. cbn. split; [auto | lia].
  - pose proof (generate_segment_audio_result_for segment voice
                  (PyOs.path_join output_dir
                     ("segment_" +:+ PyNum.fmt_04d i +:+ ".mp3")) w) as G.
    destruct (generate_segment_audio env segment voice _ (seg_duration segment) 3 w)
      as [result w1].
    destruct G as (Hfor & calls & Hlog & Hlen).
    destruct (record_result_totals result t Ht) as (Ht1 & Hsum1 & Hres1).
    specialize (IH (S i) (record_result result t) w1 Ht1).
    destruct (segments_loop env voice output_dir (S i) segments
                (record_result result t) w1) as [t' w'].
    destruct IH as (Ht' & Hsum' & (new & Hres' & Hall') & calls' & Hlog' & Hlen').
    split; [exact Ht'|]. split; [cbn [length]; lia|].
    split.
    + exists (result :: new). rewrite Hres', Hres1, <- app_assoc.
      split; [reflexivity | now constructor].
    + exists (calls ++ calls'). rewrite Hlog', Hlog, app_assoc, length_app.
      split; [reflexivity | cbn [length]; lia].
Qed.

(** X4.  On a non-empty segment list the stage report holds one result
    per segment, in the order of the segments, each success carrying
    the id, timestamps and target duration of its own segment; the
    successes and failures add up to the number of segments, the three
    sync counters add up to the number of successes, and the stage
    renders at most six times per segment. *)
Theorem stage_report_is_consistent segments voice output_dir w :
  segments <> [] ->
  exists r w' calls,
    generate_segments_audio env (inl segments) voice output_dir w
    = (SegmentsReport r, w') /\
    total_segments r = length segments /\
    Forall2 result_for segments (rep_segments r) /\
    (rep_successful r + rep_failed r = Z.of_nat (length segments))%Z /\
    stats_total (rep_sync_stats r) = rep_successful r /\
    edge_log w' = edge_log w ++ calls /\
    (length calls <= 6 * length segments)%nat.
Proof.
  intros Hne. unfold generate_segments_audio.
  destruct segments as [|s0 rest]; [contradiction|].
  set (segments := s0 :: rest) in *.
  pose proof (segments_loop_totals voice output_dir segments 0 empty_tally w
                eq_refl) as L.
  destruct (segments_loop env voice output_dir 0 segments empty_tally w)
    as [t w'].
  destruct L as (Hstats & Hsum & (new & Hres & Hall) & calls & Hlog & Hlen).
  cbn [results empty_tally app successful failed] in Hres, Hsum.
  eexists _, w', calls. split; [reflexivity|].
  cbn [total_segments rep_segments rep_successful rep_failed rep_sync_stats].
  rewrite Hres. repeat split; auto.
Qed.

End Tallies.

Lemma stage_report_is_consistent_witness :
  exists r w' calls,
    generate_segments_audio EdgeTtsDubProps.env_four_then_down
      (inl EdgeTtsDubProps.five_segments) "v" "out" initial_world
    = (SegmentsReport r, w') /\
    total_segments r = 5%nat /\
    Forall2 result_for EdgeTtsDubProps.five_segments (rep_segments r) /\
    (rep_successful r + rep_failed r = 5)%Z /\
    stats_total (rep_sync_stats r) = rep_successful r /\
    edge_log w' = [] ++ calls /\
    (length calls <= 30)%nat.
Proof.
  apply (stage_report_is_consistent EdgeTtsDubProps.env_four_then_down
           EdgeTtsDubProps.five_segments "v" "out" initial_world).
  discriminate.
Defined.

(** ** Whole-text synthesis: accounting of the provider calls *)

(** A gTTS outcome that [generate_audio_gtts_sync] reports as an error. *)
Definition gtts_fails (o : gtts_outcome) : Prop :=
  match o with
  | GttsRaises _ => True
  | GttsSaved file_exists file_size => file_exists = false \/ (file_size <= 100)%Z
  end.

Section Accounting.

Context (env : Env).

Lemma edge_attempts_calls call remaining :
  forall attempt last_error w,
    let '(produced, e, w') :=
      edge_attempts env call remaining attempt last_error w in
    match produced with
    | Some (file_size, n) =>
        exists k, (1 <= k <= remaining)%nat /\ n = (attempt + k)%nat /\
                  edge_log w' = edge_log w ++ repeat call k /\
                  (100 <= file_size)%Z
    | None =>
        edge_log w' = edge_log w ++ repeat call remaining /\
        (remaining = 0%nat -> e = last_error)
    end.
Proof.
  induction remaining as [|remaining IH]; intros attempt last_error w;
    cbn [edge_attempts call_edge].
  - cbn. rewrite app_nil_r. auto.
  - set (w1 := {| EDGE_TTS_WORKING := EDGE_TTS_WORKING w;
                  EDGE_TTS_CONSECUTIVE_FAILURES := EDGE_TTS_CONSECUTIVE_FAILURES w;
                  edge_log := edge_log w ++ [call];
                  gtts_log := gtts_log w |}).
    assert (Step : forall e,
               let '(produced, e', w') :=
                 edge_attempts env call remaining (S attempt) e w1 in
               match produced with
               | Some (file_size, n) =>
                   exists k, (1 <= k <= S remaining)%nat /\
                             n = (attempt + k)%nat /\
                             edge_log w' = edge_log w ++ repeat call k /\
                             (100 <= file_size)%Z
               | None =>
                   edge_log w' = edge_log w ++ repeat call (S remaining) /\
                   (S remaining = 0%nat -> e' = last_error)
               end).
    { intros e. specialize (IH (S attempt) e w1).
      destruct (edge_attempts env call remaining (S attempt) e w1)
        as [[[[file_size n]|] e'] w'].
      - destruct IH as (k & Hk & Hn & Hlog & Hsize). exists (S k).
        split; [lia|]. split; [lia|]. split; [|exact Hsize].
        rewrite Hlog. cbn [w1 edge_log repeat]. now rewrite <- app_assoc.
      - destruct IH as (Hlog & _). split; [|discriminate].
        rewrite Hlog. cbn [w1 edge_log repeat]. now rewrite <- app_assoc. }
    destruct (edge_save env (length (edge_log w)) call)
      as [e | file_exists file_size d].
    + exact (Step e).
    + destruct file_exists; cbn [negb].
      * destruct (Z.ltb_spec file_size 100).
        -- exact (Step _).
        -- exists 1%nat. cbn [set_edge_status edge_log repeat w1].
           split; [lia|]. split; [lia|]. split; [reflexivity | assumption].
      * exact (Step _).
Qed.

(** X5.  One [generate_audio] call sends the same Edge request [k] times
    and the same gTTS request [g] times, with [k <= max_retries] and
    [g <= 1], and no Edge request at all once three failures are
    counted.  A result of engine edge was produced by the [k]-th Edge
    request (attempts = [k]), has a file of at least 100 bytes and made
    no gTTS request; a result of engine gtts comes after all
    [max_retries] Edge requests failed (or were skipped), is named after
    the gTTS language and has a file of more than 100 bytes; a failure
    reports [max_retries] attempts and happens only when gTTS is
    unavailable or its single request failed. *)
Theorem generate_audio_call_accounting text voice output_file rate pitch
    max_retries w :
  let call := {| c_text := text; c_voice := voice; c_rate := rate;
                 c_pitch := pitch; c_output := output_file |} in
  let gcall := {| g_text := text; g_lang := get_gtts_lang voice;
                  g_output := output_file |} in
  let '(r, w') := generate_audio env text voice output_file rate pitch
                    max_retries w in
  exists k g,
    edge_log w' = edge_log w ++ repeat call k /\
    gtts_log w' = gtts_log w ++ repeat gcall g /\
    (k <= max_retries)%nat /\ (g <= 1)%nat /\
    ((3 <= EDGE_TTS_CONSECUTIVE_FAILURES w)%Z -> k = 0%nat) /\
    match r with
    | AudioOk engine v file_size attempts =>
        (engine = "edge" /\ v = voice /\ attempts = Some k /\
         (1 <= k)%nat /\ g = 0%nat /\ (100 <= file_size)%Z) \/
        (engine = "gtts" /\ v = "gTTS-" +:+ get_gtts_lang voice /\
         attempts = None /\ g = 1%nat /\ (100 < file_size)%Z /\
         ((EDGE_TTS_CONSECUTIVE_FAILURES w < 3)%Z -> k = max_retries))
    | AudioFailed e n =>
        n = max_retries /\
        ((EDGE_TTS_CONSECUTIVE_FAILURES w < 3)%Z -> k = max_retries) /\
        (k = 0%nat -> e = "Edge TTS unavailable") /\
        (GTTS_AVAILABLE env = false /\ g = 0%nat \/
         GTTS_AVAILABLE env = true /\ g = 1%nat /\
         gtts_fails (gtts_save env (length (gtts_log w)) gcall))
    end.
Proof.
  intros call gcall. unfold generate_audio. fold call.
  (* what happens after Edge produced nothing *)
  assert (Rest : forall k e w1,
             edge_log w1 = edge_log w ++ repeat call k ->
             gtts_log w1 = gtts_log w ->
             (k <= max_retries)%nat ->
             ((3 <= EDGE_TTS_CONSECUTIVE_FAILURES w)%Z -> k = 0%nat) ->
             ((EDGE_TTS_CONSECUTIVE_FAILURES w < 3)%Z -> k = max_retries) ->
             (k = 0%nat -> e = "Edge TTS unavailable") ->
             let '(r, w') :=
               if GTTS_AVAILABLE env
               then
                 match generate_audio_gtts_sync env text (get_gtts_lang voice)
                         output_file w1 with
                 | (inl file_size, w2) =>
                     (AudioOk "gtts" ("gTTS-" +:+ get_gtts_lang voice)
                        file_size None, w2)
                 | (inr _, w2) => (AudioFailed e max_retries, w2)
                 end
               else (AudioFailed e max_retries, w1) in
             exists k g,
               edge_log w' = edge_log w ++ repeat call k /\
               gtts_log w' = gtts_log w ++ repeat gcall g /\
               (k <= max_retries)%nat /\ (g <= 1)%nat /\
               ((3 <= EDGE_TTS_CONSECUTIVE_FAILURES w)%Z -> k = 0%nat) /\
               match r with
               | AudioOk engine v file_size attempts =>
                   (engine = "edge" /\ v = voice /\ attempts = Some k /\
                    (1 <= k)%nat /\ g = 0%nat /\ (100 <= file_size)%Z) \/
                   (engine = "gtts" /\ v = "gTTS-" +:+ get_gtts_lang voice /\
                    attempts = None /\ g = 1%nat /\ (100 < file_size)%Z /\
                    ((EDGE_TTS_CONSECUTIVE_FAILURES w < 3)%Z -> k = max_retries))
               | AudioFailed e n =>
                   n = max_retries /\
                   ((EDGE_TTS_CONSECUTIVE_FAILURES w < 3)%Z -> k = max_retries) /\
                   (k = 0%nat -> e = "Edge TTS unavailable") /\
                   (GTTS_AVAILABLE env = false /\ g = 0%nat \/
                    GTTS_AVAILABLE env = true /\ g = 1%nat /\
                    gtts_fails (gtts_save env (length (gtts_log w)) gcall))
               end).
  { intros k e w1 Hlog Hg Hk Hskip Hfull He.
    unfold generate_audio_gtts_sync, call_gtts. fold gcall.
    destruct (GTTS_AVAILABLE env) eqn:Av; cbn [negb].
    - rewrite Hg.
      destruct (gtts_save env (length (gtts_log w)) gcall)
        as [e' | file_exists file_size] eqn:Out.
      + exists k, 1%nat. cbn [edge_log gtts_log repeat].
        split; [exact Hlog|]. split; [reflexivity|]. split; [exact Hk|].
        split; [lia|]. split; [exact Hskip|].
        split; [reflexivity|]. split; [exact Hfull|]. split; [exact He|].
        right. cbn. auto.
      + destruct file_exists; cbn [andb].
        * destruct (Z.gtb_spec file_size 100).
          -- exists k, 1%nat. cbn [edge_log gtts_log repeat].
             split; [exact Hlog|]. split; [reflexivity|]. split; [exact Hk|].
             split; [lia|]. split; [exact Hskip|].
             right. repeat split; auto.
          -- exists k, 1%nat. cbn [edge_log gtts_log repeat].
             split; [exact Hlog|]. split; [reflexivity|]. split; [exact Hk|].
             split; [lia|]. split; [exact Hskip|].
             split; [reflexivity|]. split; [exact Hfull|]. split; [exact He|].
             right. cbn. auto.
        * exists k, 1%nat. cbn [edge_log gtts_log repeat].
          split; [exact Hlog|]. split; [reflexivity|]. split; [exact Hk|].
          split; [lia|]. split; [exact Hskip|].
          split; [reflexivity|]. split; [exact Hfull|]. split; [exact He|].
          right. cbn. auto.
    - exists k, 0%nat. cbn [repeat]. rewrite app_nil_r.
      split; [exact Hlog|]. split; [exact Hg|]. split; [exact Hk|].
      split; [lia|]. split; [exact Hskip|].
      split; [reflexivity|]. split; [exact Hfull|]. split; [exact He|].
      left. auto. }
  destruct (Z.geb_spec (EDGE_TTS_CONSECUTIVE_FAILURES w) 3) as [Skip|Try].
  - apply (Rest 0%nat "Edge TTS unavailable" w); try reflexivity; try lia.
    cbn. now rewrite app_nil_r.
  - pose proof (edge_attempts_calls call max_retries 0 "Edge TTS unavailable" w)
      as C.
    pose proof (EdgeTtsDubProps.edge_attempts_globals env call max_retries 0
                  "Edge TTS unavailable" w) as G.
    destruct (edge_attempts env call max_retries 0 "Edge TTS unavailable" w)
      as [[[[file_size n]|] e] w1].
    + destruct C as (k & Hk & Hn & Hlog & Hsize). destruct G as (Hg & _).
      exists k, 0%nat. cbn [repeat]. rewrite app_nil_r.
      split; [exact Hlog|]. split; [exact Hg|]. split; [lia|].
      split; [lia|]. split; [lia|].
      left. cbn in Hn. subst n. repeat split; auto. lia.
    + destruct C as (Hlog & He). destruct G as (Hg & _).
      apply (Rest max_retries e
               (set_edge_status false (EDGE_TTS_CONSECUTIVE_FAILURES w1 + 1) w1));
        auto; lia.
Qed.

(** The two globals stay in step: the counter is between 0 and 3, it is
    0 when Edge is marked working and positive when marked failing. *)
Definition globals_in_step (w : world) : Prop :=
  (0 <= EDGE_TTS_CONSECUTIVE_FAILURES w <= 3)%Z /\
  match EDGE_TTS_WORKING w with
  | Some true => EDGE_TTS_CONSECUTIVE_FAILURES w = 0%Z
  | Some false => (1 <= EDGE_TTS_CONSECUTIVE_FAILURES w)%Z
  | None => EDGE_TTS_CONSECUTIVE_FAILURES w = 0%Z
  end.

Lemma generate_audio_in_step text voice output_file rate pitch max_retries w :
  globals_in_step w ->
  let w' := snd (generate_audio env text voice output_file rate pitch
                   max_retries w) in
  globals_in_step w' /\ EDGE_TTS_WORKING w' <> None.
Proof.
  intros (Range & Mark). unfold generate_audio.
  destruct (Z.geb_spec (EDGE_TTS_CONSECUTIVE_FAILURES w) 3) as [Skip|Try].
  - assert (Keep : globals_in_step w /\ EDGE_TTS_WORKING w <> None).
    { split; [split; assumption|].
      destruct (EDGE_TTS_WORKING w) as [[|]|]; [lia | discriminate | lia]. }
    unfold generate_audio_gtts_sync, call_gtts.
    destruct (GTTS_AVAILABLE env); cbn [negb].
    + destruct (gtts_save env _ _) as [e' | file_exists file_size]; cbn.
      * exact Keep.
      * destruct (file_exists && (file_size >? 100)%Z); cbn; exact Keep.
    + cbn. exact Keep.
  - pose proof (EdgeTtsDubProps.edge_attempts_globals env
                  {| c_text := text; c_voice := voice; c_rate := rate;
                     c_pitch := pitch; c_output := output_file |}
                  max_retries 0 "Edge TTS unavailable" w) as G.
    destruct (edge_attempts env _ max_retries 0 "Edge TTS unavailable" w)
      as [[[[file_size n]|] e] w1].
    + destruct G as (_ & Hc & Hw). cbn. unfold globals_in_step.
      rewrite Hc, Hw. split; [split; [lia | reflexivity] | discriminate].
    + destruct G as (_ & Hc & Hw).
      assert (Keep : forall w2,
                 EDGE_TTS_WORKING w2 = Some false ->
                 EDGE_TTS_CONSECUTIVE_FAILURES w2
                 = (EDGE_TTS_CONSECUTIVE_FAILURES w + 1)%Z ->
                 globals_in_step w2 /\ EDGE_TTS_WORKING w2 <> None).
      { intros w2 Hw2 Hc2. unfold globals_in_step. rewrite Hw2, Hc2.
        split; [split; lia | discriminate]. }
      unfold generate_audio_gtts_sync, call_gtts.
      destruct (GTTS_AVAILABLE env); cbn [negb].
      * destruct (gtts_save env _ _) as [e' | file_exists file_size]; cbn.
        -- apply Keep; cbn; [reflexivity | now rewrite Hc].
        -- destruct (file_exists && (file_size >? 100)%Z); cbn;
             (apply Keep; cbn; [reflexivity | now rewrite Hc]).
      * cbn. apply Keep; cbn; [reflexivity | now rewrite Hc].
Qed.

Lemma generate_audio_seq_in_step requests :
  forall w,
    globals_in_step w ->
    globals_in_step (generate_audio_seq env requests w) /\
    (requests <> [] \/ EDGE_TTS_WORKING w <> None ->
     EDGE_TTS_WORKING (generate_audio_seq env requests w) <> None).
Proof.
  induction requests as [|q requests IH]; intros w H; cbn [generate_audio_seq].
  - split; [exact H|]. intros [E|E]; [contradiction | exact E].
  - destruct (generate_audio_in_step (q_text q) (q_voice q) (q_output q)
                (q_rate q) (q_pitch q) (q_max_retries q) w H) as (H1 & N1).
    destruct (IH _ H1) as (H2 & N2). split; [exact H2|].
    intros _. apply N2. now right.
Qed.

(** X6.  Whatever the providers answer and however many
    [generate_audio] calls a process makes, the failure counter stays
    between 0 and 3; Edge is marked working only with the counter at 0
    and marked failing only with the counter at 1 or more; and the mark
    is unset exactly as long as no call was made. *)
Theorem failure_counter_stays_in_step requests :
  let w := generate_audio_seq env requests initial_world in
  (0 <= EDGE_TTS_CONSECUTIVE_FAILURES w <= 3)%Z /\
  (EDGE_TTS_WORKING w = Some true -> EDGE_TTS_CONSECUTIVE_FAILURES w = 0%Z) /\
  (EDGE_TTS_WORKING w = Some false -> (1 <= EDGE_TTS_CONSECUTIVE_FAILURES w)%Z) /\
  (EDGE_TTS_WORKING w = None <-> requests = []).
Proof.
  assert (I : globals_in_step initial_world) by (split; cbn; [lia | reflexivity]).
  destruct (generate_audio_seq_in_step requests initial_world I)
    as ((Range & Mark) & Set_).
  cbn zeta. split; [exact Range|].
  split; [intros E; now rewrite E in Mark|].
  split; [intros E; now rewrite E in Mark|].
  split.
  - intros E. destruct requests as [|q requests]; [reflexivity|].
    exfalso. apply Set_; [left; discriminate | exact E].
  - intros ->. reflexivity.
Qed.

End Accounting.

(** ** Voice lookup *)

Definition is_lower_case (s : string) : bool := String.eqb (PyStr.lower s) s.

Definition voices_of (entry : string * list (string * string)) : list string :=
  map snd (snd entry).

(** The voices listed under an all-lower-case key of [VOICE_MAP]. *)
Definition reachable_voices : list string :=
  flat_map voices_of (List.filter (fun entry => is_lower_case (fst entry)) VOICE_MAP).

(** The voices of the table that are listed under no such key. *)
Definition unreachable_voices : list string :=
  List.filter (fun v => negb (existsb (String.eqb v) reachable_voices))
    (flat_map voices_of VOICE_MAP).

Lemma lower_split_head sep s :
  PyStr.lower s = s -> PyStr.lower (PyStr.split_head sep s) = PyStr.split_head sep s.
Proof.
  induction s as [|c s IH]; cbn [PyStr.lower PyStr.split_head]; [reflexivity|].
  intros E. injection E as Ec Es.
  destruct (Ascii.eqb c sep); [reflexivity|].
  cbn [PyStr.lower]. now rewrite Ec, IH.
Qed.

Lemma lookup_lower_case_reachable key m f :
  PyStr.lower key = key ->
  PyDict.lookup key VOICE_MAP = Some (mf m f) ->
  In m reachable_voices /\ In f reachable_voices.
Proof.
  intros Hkey Hlook. apply lookup_In in Hlook.
  assert (Hin : In (key, mf m f)
                  (List.filter (fun entry => is_lower_case (fst entry)) VOICE_MAP)).
  { apply filter_In. split; [exact Hlook|].
    unfold is_lower_case. cbn [fst]. rewrite Hkey. apply String.eqb_refl. }
  split; apply in_flat_map; exists (key, mf m f); (split; [exact Hin|]);
    cbn; auto.
Qed.

Lemma voice_or_female_In m f gender v :
  voice_or_female (mf m f) gender = Some v -> v = m \/ v = f.
Proof.
  unfold voice_or_female, mf, PyDict.get. simpl.
  destruct (String.eqb gender "male"); [intros [= <-]; auto|].
  destruct (String.eqb gender "female"); intros [= <-]; auto.
Qed.

Lemma lookup_en :
  PyDict.lookup "en" VOICE_MAP = Some (mf "en-US-GuyNeural" "en-US-JennyNeural").
Proof. vm_compute. reflexivity. Qed.

Lemma get_voice_reachable language_code gender v :
  get_voice language_code gender = Some v -> In v reachable_voices.
Proof.
  unfold get_voice.
  pose proof (lower_idempotent language_code) as Hl.
  destruct (PyDict.lookup (PyStr.lower language_code) VOICE_MAP) as [vs|] eqn:E1.
  { destruct (EdgeTtsDubProps.VOICE_MAP_lookup _ _ E1) as (m & f & ->).
    intros H. destruct (lookup_lower_case_reachable _ m f Hl E1).
    destruct (voice_or_female_In _ _ _ _ H) as [->| ->]; assumption. }
  destruct (PyDict.lookup (PyStr.split_head "-" (PyStr.lower language_code)) VOICE_MAP)
    as [vs|] eqn:E2.
  { destruct (EdgeTtsDubProps.VOICE_MAP_lookup _ _ E2) as (m & f & ->).
    intros H.
    destruct (lookup_lower_case_reachable _ m f (lower_split_head "-" _ Hl) E2).
    destruct (voice_or_female_In _ _ _ _ H) as [->| ->]; assumption. }
  rewrite lookup_en. intros H.
  destruct (lookup_lower_case_reachable "en" _ _ eq_refl lookup_en).
  assert (Hv : v = "en-US-GuyNeural" \/ v = "en-US-JennyNeural").
  { revert H. unfold mf. simpl.
    destruct (String.eqb gender "male"); [intros [= <-]; auto|].
    destruct (String.eqb gender "female"); [intros [= <-]; auto | discriminate]. }
  destruct Hv as [->| ->]; assumption.
Qed.

(** X7.  The language code is lower-cased before every lookup, so only
    the entries of [VOICE_MAP] under an all-lower-case key can answer:
    whatever the language code and the gender, [get_voice] never returns
    one of the sixteen voices that the table lists only under the
    regional keys es-ES, es-AR, fr-CA, pt-PT, zh-TW, en-GB, en-AU and
    en-IN. *)
Theorem regional_voices_are_never_returned :
  unreachable_voices
  = [ "es-ES-AlvaroNeural"; "es-ES-ElviraNeural";
      "es-AR-TomasNeural"; "es-AR-ElenaNeural";
      "fr-CA-AntoineNeural"; "fr-CA-SylvieNeural";
      "pt-PT-DuarteNeural"; "pt-PT-RaquelNeural";
      "zh-TW-YunJheNeural"; "zh-TW-HsiaoChenNeural";
      "en-GB-RyanNeural"; "en-GB-SoniaNeural";
      "en-AU-WilliamNeural"; "en-AU-NatashaNeural";
      "en-IN-PrabhatNeural"; "en-IN-NeerjaNeural" ] /\
  forall language_code gender v,
    In v unreachable_voices -> get_voice language_code gender <> Some v.
Proof.
  split; [vm_compute; reflexivity|].
  intros language_code gender v Hun Hget.
  apply get_voice_reachable in Hget.
  unfold unreachable_voices in Hun. apply filter_In in Hun.
  destruct Hun as (_ & Hnot). apply negb_true_iff in Hnot.
  assert (Hyes : existsb (String.eqb v) reachable_voices = true).
  { apply existsb_exists. exists v. split; [exact Hget | apply String.eqb_refl]. }
  congruence.
Qed.

(** X8.  [get_voice] does not distinguish the case of the language code,
    and for the genders male and female it returns a voice for every
    language code, known or not. *)
Theorem get_voice_ignores_case_and_serves_both_genders language_code gender :
  get_voice language_code gender = get_voice (PyStr.lower language_code) gender /\
  get_voice language_code "male" <> None /\
  get_voice language_code "female" <> None.
Proof.
  split.
  - unfold get_voice. now rewrite lower_idempotent.
  - split; intros H; apply EdgeTtsDubProps.get_voice_raises_iff in H;
      destruct H as (_ & _ & Hm & Hf); congruence.
Qed.

(** ** Text clean-up *)

Lemma collapse_spaces_length s :
  forall run,
    (String.length (collapse_spaces run s)
     <= (if run then 1 else 0) + String.length s)%nat.
Proof.
  induction s as [|c s IH]; intros run; cbn [collapse_spaces].
  - destruct run; cbn; lia.
  - destruct (PyStr.isspace c).
    + specialize (IH true). destruct run; cbn in *; lia.
    + specialize (IH false). rewrite length_app_s.
      destruct run; cbn in *; lia.
Qed.

Lemma repeat_char_length c n : String.length (PyStr.repeat_char c n) = n.
Proof. induction n as [|n IH]; cbn; [reflexivity | now rewrite IH]. Qed.

Lemma flush_run_length c k repl run :
  (String.length repl <= k)%nat ->
  (String.length (flush_run c k repl run) <= run)%nat.
Proof.
  intros H. unfold flush_run.
  destruct (Nat.leb_spec k run); [lia | rewrite repeat_char_length; lia].
Qed.

Lemma collapse_run_length c k repl s :
  (String.length repl <= k)%nat ->
  forall run,
    (String.length (collapse_run c k repl run s) <= run + String.length s)%nat.
Proof.
  intros H. induction s as [|x s IH]; intros run; cbn [collapse_run].
  - pose proof (flush_run_length c k repl run H). cbn. lia.
  - destruct (Ascii.eqb x c).
    + specialize (IH (S run)). cbn [String.length]. lia.
    + specialize (IH 0%nat). pose proof (flush_run_length c k repl run H).
      rewrite length_app_s. cbn [String.length]. lia.
Qed.

(** X9.  The clean-up of a text before synthesis never makes it longer,
    and a text that is empty or all white space is returned as it is, not
    stripped. *)
Theorem enhanced_text_is_no_longer text :
  (String.length (enhance_text_for_natural_speech text) <= String.length text)%nat /\
  (PyStr.strip text = "" -> enhance_text_for_natural_speech text = text).
Proof.
  unfold enhance_text_for_natural_speech.
  pose proof (strip_length text) as S0.
  destruct (PyStr.strip text) as [|c stripped] eqn:E; [split; [lia | reflexivity]|].
  split; [|discriminate].
  set (s0 := String c stripped) in *.
  assert (S1 : (String.length (collapse_spaces false s0) <= String.length s0)%nat)
    by exact (collapse_spaces_length s0 false).
  set (s1 := collapse_spaces false s0) in *.
  pose proof (collapse_run_length "!" 3 "!!" s1 ltac:(cbn; lia) 0) as S2.
  set (s2 := collapse_run "!" 3 "!!" 0 s1) in *.
  pose proof (collapse_run_length "?" 3 "??" s2 ltac:(cbn; lia) 0) as S3.
  set (s3 := collapse_run "?" 3 "??" 0 s2) in *.
  pose proof (collapse_run_length "." 4 "..." s3 ltac:(cbn; lia) 0) as S4.
  lia.
Qed.

End EdgeTtsDubMore.

(** * Further properties of [src/server/tts/segment_assembler.py] *)

Module SegmentAssemblerMore.
Import SegmentAssembler PyFloatProps SegmentAssemblerProps.

(** The clip a piece of the sequence plays, if it is not a silence. *)
Definition piece_source (p : piece) : option string :=
  match p with
  | SilenceFile _ _ => None
  | AdjustedFile _ source _ => Some source
  | ClipFile path => Some path
  end.

Definition clip_sources (pieces : list piece) : list string :=
  omap piece_source pieces.

Definition has_clip (env : Env) (s : tts_segment) : bool :=
  os_path_exists env (audio_path s).

Lemma clip_sources_app a b : clip_sources (a ++ b) = clip_sources a ++ clip_sources b.
Proof. apply omap_app. Qed.

Lemma clip_sources_silence env sample_rate duration path :
  clip_sources (silence env sample_rate duration path) = [].
Proof. unfold silence. destruct (ffmpeg_anullsrc env _ _ _); reflexivity. Qed.

Lemma clip_sources_placed env i s :
  clip_sources [placed_clip env i s] = [audio_path s].
Proof.
  unfold placed_clip. destruct (_ <? _)%float; [|reflexivity].
  destruct (fst _); reflexivity.
Qed.

Lemma clip_sources_timeline env sample_rate segs :
  forall t i,
    clip_sources (spec_timeline env sample_rate t i segs)
    = map audio_path (List.filter (has_clip env) segs).
Proof.
  induction segs as [|s segs IH]; intros t i; [reflexivity|].
  cbn [spec_timeline List.filter]. rewrite !clip_sources_app, IH.
  unfold has_clip at 2.
  destruct (t <? start s)%float; rewrite ?clip_sources_silence;
    destruct (os_path_exists env (audio_path s));
    rewrite ?clip_sources_silence, ?clip_sources_placed; reflexivity.
Qed.

Lemma clip_sources_trailing env sample_rate t total :
  clip_sources (spec_trailing env sample_rate t total) = [].
Proof.
  unfold spec_trailing. destruct (_ <? _)%float; [|reflexivity].
  apply clip_sources_silence.
Qed.

Section Clips.

Context (env : Env) (sample_rate : Z).

Lemma close_timeline_sources segs total :
  clip_sources
    (close_timeline env total sample_rate
       (place_segments env sample_rate 0 segs
          {| segment_files := []; current_time := 0; stretch_log := [] |}))
  = map audio_path (List.filter (has_clip env) segs).
Proof.
  destruct (place_segments_timeline env sample_rate segs 0%nat
              {| segment_files := []; current_time := 0; stretch_log := [] |})
    as [Hf Ht].
  cbn [segment_files current_time app] in Hf, Ht.
  unfold close_timeline, generate_silence. rewrite Hf.
  destruct (_ <? _)%float; [|apply clip_sources_timeline].
  destruct (ffmpeg_anullsrc env _ _ _); [|apply clip_sources_timeline].
  rewrite clip_sources_app, clip_sources_timeline. cbn. apply app_nil_r.
Qed.

(** X10.  The starts being numbers, and whatever the tools answer, no
    existing clip is dropped, repeated or moved: in the sequence handed
    to the concatenation the clips, adjusted or not, are those of the
    segments whose audio file exists, once each, in the order in which
    the segments are processed.  Nothing is handed over only for an
    empty list or when no segment has an audio file. *)
Theorem clips_are_kept_in_order tts_segments total_duration output_path :
  Forall starts_at_a_number tts_segments ->
  match snd (fst (assemble_segments_with_timing env tts_segments
                    total_duration output_path sample_rate)) with
  | Some pieces =>
      clip_sources pieces
      = map audio_path
          (List.filter (has_clip env) (sorted_by_start tts_segments))
  | None =>
      Forall (fun s => has_clip env s = false) tts_segments
  end.
Proof.
  intros _. unfold assemble_segments_with_timing.
  destruct tts_segments as [|s0 rest]; [constructor|].
  set (segs := sorted_by_start (s0 :: rest)).
  pose proof (close_timeline_sources segs total_duration) as H.
  destruct (close_timeline env total_duration sample_rate _) as [|p ps].
  - cbn [fst snd].
    assert (E : List.filter (has_clip env) segs = [])
      by (symmetry in H; now apply map_eq_nil in H).
    apply List.Forall_forall. intros s Hs.
    destruct (has_clip env s) eqn:Hc; [|reflexivity].
    exfalso.
    assert (Hin : In s (List.filter (has_clip env) segs)).
    { apply filter_In. split; [|exact Hc].
      apply (Permutation_in s (Permutation_sym (sorted_by_start_perm _))).
      exact Hs. }
    rewrite E in Hin. contradiction.
  - destruct (ffmpeg_concat env _ output_path); cbn [negb fst snd]; exact H.
Qed.

(** X11.  A clip is never adjusted to a duration that is not positive:
    for a target of zero or less the adjustment is refused before any
    stretch primitive runs, with or without rubberband and whatever the
    clip, so that a segment whose end is not after its start keeps its
    original clip. *)
Theorem no_adjustment_to_a_non_positive_duration input output target :
  (target <=? 0)%float = true ->
  adjust_segment_speed env input output target = (false, []).
Proof.
  intros Ht.
  assert (F : adjust_segment_speed_ffmpeg env input output target = (false, [])).
  { unfold adjust_segment_speed_ffmpeg. rewrite Ht, orb_true_r. reflexivity. }
  unfold adjust_segment_speed, adjust_segment_speed_rubberband.
  destruct (HAS_RUBBERBAND env); cbn [negb]; [|exact F].
  destruct (sf_read_duration env input) as [current|].
  - now rewrite Ht, orb_true_r.
  - unfold fall_back_to_ffmpeg. now rewrite F.
Qed.

End Clips.

Lemma clips_are_kept_in_order_witness :
  clip_sources [ ClipFile "hello.mp3"; ClipFile "world.mp3";
                 SilenceFile "/tmp/sa/final_silence.mp3" 3 ]
  = map audio_path
      (List.filter (has_clip env_fitting) (sorted_by_start hello_world)).
Proof.
  exact (clips_are_kept_in_order env_fitting 44100 hello_world 10 "out.mp3"
           ltac:(repeat constructor)).
Defined.

Lemma no_adjustment_to_a_non_positive_duration_witness :
  adjust_segment_speed env_long_clip "a.mp3" "b.mp3" (-1) = (false, []).
Proof.
  apply (no_adjustment_to_a_non_positive_duration env_long_clip
           "a.mp3" "b.mp3" (-1)%float).
  reflexivity.
Defined.

End SegmentAssemblerMore.

(** * Further properties of [src/server/tts/translate.py] *)

Module TranslateMore.
Import Translate TranslateProps.

(** ** The requests of [translate_segments] *)

(** An error after which the request is sent again: a rate limit, a
    server error, a network error. *)
Definition retried (o : http_outcome) : Prop :=
  match o with
  | HTTPError code _ => code = 429%Z \/ (500 <= code)%Z
  | URLError _ => True
  | OtherError _ | Content _ => False
  end.

Section Budget.

Context (env : Env).

Lemma request_loop_budget segments remaining :
  forall last_error calls,
    let '(r, calls') := request_loop env segments remaining last_error calls in
    (calls <= calls' <= calls + remaining)%nat /\
    (forall k, (calls <= k)%nat -> (S k < calls')%nat ->
               retried (urlopen env k (numbered_text segments))) /\
    (translate_ok r = true ->
       exists answer,
         urlopen env (calls' - 1) (numbered_text segments) = Content answer) /\
    (translate_ok r = false -> (calls' < calls + remaining)%nat ->
       ~ retried (urlopen env (calls' - 1) (numbered_text segments)) /\
       forall answer,
         urlopen env (calls' - 1) (numbered_text segments) <> Content answer).
Proof.
  induction remaining as [|remaining IH]; intros last_error calls;
    cbn [request_loop].
  - unfold retries_exhausted. cbn [translate_ok].
    split; [lia|]. split; [intros; lia|]. split; [discriminate | intros; lia].
  - assert (Step : forall e,
               retried (urlopen env calls (numbered_text segments)) ->
               let '(r, calls') :=
                 request_loop env segments remaining e (S calls) in
               (calls <= calls' <= calls + S remaining)%nat /\
               (forall k, (calls <= k)%nat -> (S k < calls')%nat ->
                          retried (urlopen env k (numbered_text segments))) /\
               (translate_ok r = true ->
                  exists answer,
                    urlopen env (calls' - 1) (numbered_text segments)
                    = Content answer) /\
               (translate_ok r = false -> (calls' < calls + S remaining)%nat ->
                  ~ retried (urlopen env (calls' - 1) (numbered_text segments)) /\
                  forall answer,
                    urlopen env (calls' - 1) (numbered_text segments)
                    <> Content answer)).
    { intros e Hret. specialize (IH e (S calls)).
      destruct (request_loop env segments remaining e (S calls)) as [r calls'].
      destruct IH as (Hc & Hk & Hok & Hfail).
      split; [lia|]. split.
      - intros k Hk1 Hk2. destruct (Nat.eq_dec k calls) as [->|Hne];
          [exact Hret | apply Hk; lia].
      - split; [exact Hok|]. intros Hr Hlt. apply Hfail; [exact Hr | lia]. }
    assert (Stop : forall e,
               ~ retried (urlopen env calls (numbered_text segments)) ->
               (forall answer,
                  urlopen env calls (numbered_text segments) <> Content answer) ->
               let '(r, calls') := retries_exhausted e (S calls) in
               (calls <= calls' <= calls + S remaining)%nat /\
               (forall k, (calls <= k)%nat -> (S k < calls')%nat ->
                          retried (urlopen env k (numbered_text segments))) /\
               (translate_ok r = true ->
                  exists answer,
                    urlopen env (calls' - 1) (numbered_text segments)
                    = Content answer) /\
               (translate_ok r = false -> (calls' < calls + S remaining)%nat ->
                  ~ retried (urlopen env (calls' - 1) (numbered_text segments)) /\
                  forall answer,
                    urlopen env (calls' - 1) (numbered_text segments)
                    <> Content answer)).
    { intros e Hnot Hno. unfold retries_exhausted. cbn [translate_ok].
      replace (S calls - 1)%nat with calls by lia.
      split; [lia|]. split; [intros; lia|]. split; [discriminate | auto]. }
    destruct (urlopen env calls (numbered_text segments))
      as [code reason|reason|message|answer] eqn:E.
    + destruct (Z.eqb_spec code 429) as [H429|H429]; cbn [orb].
      * apply Step. cbn. auto.
      * destruct (Z.geb_spec code 500) as [H500|H500].
        -- apply Step. cbn. auto.
        -- apply Stop; [cbn; lia | discriminate].
    + apply Step. exact I.
    + apply Stop; [cbn; auto | discriminate].
    + cbn [translate_ok]. replace (S calls - 1)%nat with calls by lia.
      split; [lia|]. split; [intros; lia|].
      split; [intros _; rewrite E; eauto | discriminate].
Qed.

(** X12.  [translate_segments] sends no request without an API key and
    at most [max_retries] requests with one.  Every request but the
    last was answered by an error that is retried (a rate limit, a
    server error, a network error); a success was answered by the last
    request; and a failure before the budget is used up means that the
    last request got an error that is not retried: a client error or
    an unexpected one. *)
Theorem translate_segments_request_budget segments max_retries calls :
  let '(r, calls') := translate_segments env segments max_retries calls in
  (calls <= calls' <= calls + max_retries)%nat /\
  (api_key_missing env = true ->
     calls' = calls /\ r = TranslateFailed "OpenAI API key not found") /\
  (forall k, (calls <= k)%nat -> (S k < calls')%nat ->
             retried (urlopen env k (numbered_text segments))) /\
  (translate_ok r = true ->
     exists answer,
       urlopen env (calls' - 1) (numbered_text segments) = Content answer) /\
  (api_key_missing env = false -> translate_ok r = false ->
   (calls' < calls + max_retries)%nat ->
     ~ retried (urlopen env (calls' - 1) (numbered_text segments)) /\
     forall answer,
       urlopen env (calls' - 1) (numbered_text segments) <> Content answer).
Proof.
  unfold translate_segments.
  destruct (api_key_missing env).
  - cbn [translate_ok]. split; [lia|]. split; [auto|].
    split; [intros; lia|]. split; discriminate.
  - pose proof (request_loop_budget segments max_retries None calls) as B.
    destruct (request_loop env segments max_retries None calls) as [r calls'].
    destruct B as (Hc & Hk & Hok & Hfail).
    split; [exact Hc|]. split; [discriminate|]. split; [exact Hk|].
    split; [exact Hok|]. intros _. exact Hfail.
Qed.

End Budget.

(** ** Handing the translations back *)





(** ** Batches *)

Lemma batches_cover {A} (m : nat) :
  forall l : list A,
    (length l <= m * BATCH_SIZE)%nat ->
    concat (map (fun k => firstn BATCH_SIZE (skipn (k * BATCH_SIZE) l))
              (seq 0 m)) = l.
Proof.
  induction m as [|m IH]; intros l Hl.
  - destruct l; [reflexivity | cbn in Hl; lia].
  - cbn [seq map concat]. rewrite <- seq_shift, map_map.
    transitivity (firstn BATCH_SIZE l ++ skipn BATCH_SIZE l);
      [|apply firstn_skipn].
    f_equal.
    assert (H : (length (skipn BATCH_SIZE l) <= m * BATCH_SIZE)%nat)
      by (rewrite length_skipn; cbn [Nat.mul] in Hl; lia).
    etransitivity; [|exact (IH (skipn BATCH_SIZE l) H)].
    f_equal. apply map_ext. intros k. f_equal.
    rewrite skipn_skipn. f_equal. cbn [Nat.mul]. lia.
Qed.

(** X14.  The batches partition the texts: taken in order, the batches
    of the batch loop give back the list of texts, each text being sent
    in exactly one batch, and every batch holds between 1 and 20
    texts. *)
Theorem batches_partition_the_texts (texts : list string) :
  let batch_starts := range_step (length texts) BATCH_SIZE in
  concat (map (batch_of texts) batch_starts) = texts /\
  Forall (fun batch_start =>
            (1 <= length (batch_of texts batch_start) <= 20)%nat)
    batch_starts.
Proof.
  cbv zeta. unfold range_step, batch_of. rewrite map_map. split.
  - apply batches_cover. unfold BATCH_SIZE.
    pose proof (Nat.div_mod_eq (length texts + 20 - 1) 20).
    pose proof (Nat.mod_upper_bound (length texts + 20 - 1) 20). lia.
  - apply List.Forall_forall. intros b Hb. apply in_map_iff in Hb.
    destruct Hb as (k & <- & Hk). apply in_seq in Hk.
    rewrite length_firstn, length_skipn. unfold BATCH_SIZE in *.
    pose proof (Nat.div_mod_eq (length texts + 20 - 1) 20).
    pose proof (Nat.mod_upper_bound (length texts + 20 - 1) 20). lia.
Qed.

End TranslateMore.

(** * Further properties of [src/server/tts/voice_selector.py] *)

Module VoiceSelectorMore.
Import VoiceSelector PyDictProps VoiceSelectorProps.

Lemma pick_style_spec style voices selected :
  pick_style style voices = Some selected ->
  exists voice, In voice voices /\ name voice = selected.
Proof.
  induction voices as [|voice voices IH]; cbn; [discriminate|].
  destruct (String.eqb (VoiceSelector.style voice) style).
  - intros [= <-]. eauto.
  - intros H. destruct (IH H) as (w & ? & ?). eauto.
Qed.

(** Whatever loop selects it, the selected voice is a candidate. *)
Lemma select_voice_candidate used style voice voices :
  In (select_voice used style (voice :: voices)) (map name (voice :: voices)).
Proof.
  unfold select_voice.
  assert (First : In (first_name (voice :: voices)) (map name (voice :: voices)))
    by (cbn; auto).
  assert (Second :
    In (if unselected (pick_style style (voice :: voices))
        then first_name (voice :: voices)
        else default "" (pick_style style (voice :: voices)))
       (map name (voice :: voices))).
  { destruct (pick_style style (voice :: voices)) as [selected|] eqn:E;
      [|exact First].
    destruct (pick_style_spec _ _ _ E) as (w & Hin & <-).
    destruct (name w) eqn:N; [exact First|].
    cbn [unselected default]. rewrite <- N. apply in_map_iff. eauto. }
  destruct (pick_unused used style (voice :: voices)) as [selected|] eqn:E;
    [|exact Second].
  destruct (pick_unused_spec _ _ _ _ E) as (_ & w & Hin & <-).
  destruct (name w) eqn:N; [exact Second|].
  cbn [unselected default]. rewrite <- N. apply in_map_iff. eauto.
Qed.

(** X15.  A request for a pair that is not cached always assigns a voice
    of the catalog, in the language of the request or in English when
    that language has no entry: the result is never the ultimate
    fallback, the voice is one of the candidates, its name is not empty,
    and when the gender (after the pitch rule for an unknown gender) is
    male or female, it is one of the voices listed for that gender. *)
Theorem fresh_assignment_is_a_catalog_voice self q :
  speaker_voice_map self !! key_of q = None ->
  let a := fst (serve self q) in
  let gender := resolve_gender (q_gender q) (q_pitch_estimate q) in
  fallback a = false /\ cached a = false /\
  a_gender a = Some gender /\ a_language a = Some (lang_of q) /\
  a_voice a <> "" /\
  In (a_voice a) (map name (candidate_voices (lang_of q) gender)) /\
  exists by_gender,
    PyDict.lookup (lang_of q) EDGE_TTS_VOICES = Some by_gender /\
    (gender = "male" \/ gender = "female" ->
     exists voices,
       PyDict.lookup gender by_gender = Some voices /\
       In (a_voice a) (map name voices)).
Proof.
  intros Hfresh a gender. subst a. rewrite (serve_fresh _ _ Hfresh).
  cbn [fst fallback cached a_gender a_language a_voice]. fold gender.
  destruct (candidates (q_language q) gender) as (voice & voices & E & Hnames).
  fold (lang_of q) in E. rewrite E.
  pose proof (select_voice_candidate (used_in self (lang_of q)) (q_style q)
                voice voices) as Hin.
  repeat (split; [reflexivity|]).
  split.
  { apply in_map_iff in Hin. destruct Hin as (w & <- & Hw).
    exact (proj1 (List.Forall_forall _ _) Hnames _ Hw). }
  split; [exact Hin|].
  destruct (resolve_lang_code_known (q_language q))
    as (bg & Hl & m & ms & f & fs & -> & _ & _).
  fold (lang_of q) in Hl. eexists. split; [exact Hl|].
  intros Hg. revert E. unfold candidate_voices. rewrite Hl.
  unfold PyDict.get. destruct Hg as [-> | ->]; cbn; intros [= <- <-];
    eexists; (split; [reflexivity | exact Hin]).
Qed.

Lemma fresh_assignment_is_a_catalog_voice_witness :
  a_voice (fst (serve new_assigner
                  {| q_speaker_id := "speaker_0"; q_language := "ja-JP";
                     q_gender := "unknown"; q_pitch_estimate := 120;
                     q_style := "general" |})) <> "".
Proof.
  destruct (fresh_assignment_is_a_catalog_voice new_assigner
              {| q_speaker_id := "speaker_0"; q_language := "ja-JP";
                 q_gender := "unknown"; q_pitch_estimate := 120;
                 q_style := "general" |}) as (_ & _ & _ & _ & H & _).
  - reflexivity.
  - exact H.
Defined.

End VoiceSelectorMore.

(** * The embedding on concrete inputs *)

Module Examples.

Example int_of_str_cases :
  map PyNum.int_of_str ["+15"; "-1_0"; "1__0"; ""; "-"; " 7 "]
  = [Some 15%Z; Some (-10)%Z; None; None; None; Some 7%Z].
Proof. reflexivity. Qed.

Example round_cases :
  map PyNum.round_half_even [5 # 2; 7 # 2; -5 # 2; -11 # 4]
  = [2; 4; -2; -3]%Z /\
  PyNum.trunc (-11 # 4) = (-2)%Z.
Proof. split; reflexivity. Qed.

(** Binary64 arithmetic, as Python evaluates it. *)
Example float_cases :
  PyFloat.trunc ((23 / 20 - 1) * 100)%float = inl 14%Z /\
  PyFloat.trunc ((4.1 / 3 - 1) * 100)%float = inl 36%Z /\
  PyFloat.trunc (-2.75)%float = inl (-2)%Z /\
  PyFloat.trunc infinity = inr "cannot convert float infinity to integer" /\
  map (fun x => Prim2SF (PyFloat.round_nd x 2)) [2.675; 0.125; 4.1]%float
  = map Prim2SF [2.67; 0.12; 4.1]%float /\
  map (fun x => Prim2SF (PyFloat.round_nd x 3)) [1.0005; -0.0005; 1e22]%float
  = map Prim2SF [1.0; -0.001; 1e22]%float /\
  (PyFloat.of_Z 5 * 0.2 =? 1)%float = true /\
  PyFloat.Z_ltb 1 (PyFloat.of_Z 5 * 0.2)%float = false /\
  PyFloat.ltb_Z (PyFloat.of_Z 90 * 0.7)%float 63 = true /\
  map (PyFloat.min 1.5) [nan; 2; 1]%float = [1.5; 1.5; 1]%float.
Proof. repeat split; vm_compute; reflexivity. Qed.

Example strip_and_split :
  PyStr.strip "  a b  " = "a b" /\
  PyStr.split "-" "a-b--c" = ["a"; "b"; ""; "c"] /\
  PyStr.replace ".mp3" "_temp.wav" "/t/a.mp3" = "/t/a_temp.wav".
Proof. repeat split; reflexivity. Qed.

Example get_voice_cases :
  EdgeTtsDub.get_voice "fr" "male" = Some "fr-FR-HenriNeural" /\
  EdgeTtsDub.get_voice "FR-be" "female" = Some "fr-FR-DeniseNeural" /\
  EdgeTtsDub.get_voice "xx" "male" = Some "en-US-GuyNeural".
Proof. repeat split; reflexivity. Qed.

Example enhance_text_case :
  EdgeTtsDub.enhance_text_for_natural_speech
    "  wow!!!!   so....  what??? ok.. "
  = "wow!! so... what?? ok..".
Proof. reflexivity. Qed.

Example detect_emotion_case :
  EdgeTtsDub.rate (EdgeTtsDub.detect_emotion "I HATE this") = "+15%".
Proof. reflexivity. Qed.

Example combine_rates_cases :
  EdgeTtsDub.combine_rates "+15%" 36 = "+51%" /\
  EdgeTtsDub.combine_rates "-10%" (-70) = "-50%" /\
  EdgeTtsDub.combine_rates "+20%" 90 = "+100%".
Proof. repeat split; reflexivity. Qed.

Definition nl : string := String Translate.LF "".

(** The items [re.findall] extracts, on answers of several shapes. *)
Example numbered_items_cases :
  map Translate.numbered_items
    [ "[1] Hola [2] Mundo" +:+ nl +:+ "[3]  tres [x] [12]a";
      "Hola"; "[1]"; "[1] "; "[1] [2] x"; "[1] a" +:+ nl +:+ nl;
      "[1] x[2]" +:+ nl; "[12]  [3]" +:+ nl ]
  = [ ["Hola"; "Mundo"; "tres [x]"; "a"];
      []; []; [""]; ["[2] x"]; ["a"]; ["x"; ""]; ["[3]"] ].
Proof. vm_compute. reflexivity. Qed.

Example range_step_cases :
  Translate.range_step 45 20 = [0; 20; 40]%nat /\
  Translate.range_step 40 20 = [0; 20]%nat /\
  Translate.range_step 0 20 = [].
Proof. repeat split; reflexivity. Qed.

Example classify_gender_cases :
  map (fun f0 => SmartDiarize.gender (SmartDiarize.classify_gender f0))
    [None; Some 120%Q; Some 150%Q; Some 170%Q; Some 210%Q]
  = ["unknown"; "male"; "male"; "female"; "female"].
Proof. reflexivity. Qed.

End Examples.
